(** * Straight skeleton construction (XLE, Math/StraightSkeleton.cpp)

    A shallow embedding of the straight-skeleton code of XLE and the
    properties of it that the design document states.

    The C++ code is a template over the scalar type [Primitive]
    (instantiated at [float], [double] and [int32_t]).  The embedding is
    generic in the same way: every function is written over a class of
    scalar operations, so a theorem proved here holds for each
    instantiation, and the [double] instantiation is given with the kernel's
    binary64 numbers so that the code can be run on concrete polygons.

    [assert] is modelled as the macro it is: with [NDEBUG] it disappears, and
    otherwise a false condition ends the computation with
    [AssertionFailed line], where [line] is the line of the assertion in
    StraightSkeleton.cpp. *)

From stdpp Require Import base list sorting.
From Stdlib Require Import NArith ZArith Lia Floats.

Local Open Scope N_scope.

(** ** Outcomes of a computation *)

Inductive Outcome (A : Type) : Type :=
| Returns (a : A)
| AssertionFailed (line : N)
| UndefinedBehaviour
| OutOfFuel.
Arguments Returns {A} a.
Arguments AssertionFailed {A} line.
Arguments UndefinedBehaviour {A}.
Arguments OutOfFuel {A}.

Definition obind {A B} (m : Outcome A) (k : A -> Outcome B) : Outcome B :=
  match m with
  | Returns a => k a
  | AssertionFailed l => AssertionFailed l
  | UndefinedBehaviour => UndefinedBehaviour
  | OutOfFuel => OutOfFuel
  end.

Notation "'let*' x ':=' m 'in' k" := (obind m (fun x => k))
  (at level 10, x pattern, m at level 100, k at level 200).

(** [for (x : l) body], the body threading an accumulator and able to fail. *)
Fixpoint foldM {A S} (body : S -> A -> Outcome S) (l : list A) (s : S) : Outcome S :=
  match l with
  | [] => Returns s
  | x :: l' => let* s' := body s x in foldM body l' s'
  end.

(** The two preprocessor symbols the file tests. *)
Record Build := { NDEBUG : bool; _DEBUG : bool }.

Definition DebugBuild : Build := {| NDEBUG := false; _DEBUG := true |}.
Definition ReleaseBuild : Build := {| NDEBUG := true; _DEBUG := false |}.

Definition assert_ (b : Build) (line : N) (cond : bool) : Outcome unit :=
  if NDEBUG b then Returns tt
  else if cond then Returns tt else AssertionFailed line.

(** [v[i]] on a [std::vector]: outside the range the behaviour is undefined.
    [at_nat] takes a position ([size_t], an iterator), [at_] an [unsigned]. *)
Definition at_nat {A} (l : list A) (i : nat) : Outcome A :=
  match l !! i with
  | Some x => Returns x
  | None => UndefinedBehaviour
  end.

Definition at_ {A} (l : list A) (i : N) : Outcome A := at_nat l (N.to_nat i).

(** [v[i] = x] *)
Definition set_at {A} (l : list A) (i : N) (x : A) : Outcome (list A) :=
  let* _ := at_ l i in Returns (<[N.to_nat i := x]> l).

(** [std::find_if]: the position of the first element that satisfies [p]. *)
Fixpoint find_if {A} (p : A -> bool) (l : list A) : option nat :=
  match l with
  | [] => None
  | x :: l' => if p x then Some 0%nat else Datatypes.S <$> find_if p l'
  end.

(** [std::find_if] with a predicate that indexes a vector. *)
Fixpoint find_ifM {A} (p : A -> Outcome bool) (l : list A) : Outcome (option nat) :=
  match l with
  | [] => Returns None
  | x :: l' =>
    let* b := p x in
    if b : bool then Returns (Some 0%nat)
    else let* r := find_ifM p l' in Returns (Datatypes.S <$> r)
  end.

(** The elements of a range with their positions, for loops that use the
    position ([std::distance(begin, it)], [&e - begin]). *)
Definition enumerate {A} (l : list A) : list (nat * A) := imap pair l.

(** [v.erase(v.begin() + i)] *)
Definition erase_at {A} (i : nat) (l : list A) : list A := delete i l.

(** ** 32-bit unsigned integers *)

Definition u32 (n : N) : N := n mod 4294967296.
(** [~0u] *)
Definition not0u : N := 4294967295.
(** [1u<<31u] *)
Definition BoundaryVertexFlag : N := N.shiftl 1 31.
(** [size_t(v.size())] *)
Definition size {A} (l : list A) : N := N.of_nat (length l).

(** ** Vectors *)

Record Vector2T (P : Type) := Vec2 { x2 : P; y2 : P }.
Arguments Vec2 {P} _ _.
Arguments x2 {P} _.
Arguments y2 {P} _.

Record Vector3T (P : Type) := Vec3 { x3 : P; y3 : P; z3 : P }.
Arguments Vec3 {P} _ _ _.
Arguments x3 {P} _.
Arguments y3 {P} _.
Arguments z3 {P} _.

(** ** The scalar type

    What the template uses of [Primitive].  [Equivalent] and [Normalize]
    come from Math/Vector.h, which is not among the sources, and are taken
    as parameters like the arithmetic; [numeric_max] is
    [std::numeric_limits<Primitive>::max()], [GetEpsilon] the
    [GetEpsilon<Primitive>()] of the file, [of_unsigned n] the conversion
    [Primitive(n)] of an integer, [lit_1e_6f] and [lit_1e_3f] the
    conversions [Primitive(1e-6f)] and [Primitive(1e-3f)], [lt_1e_3f x] the
    mixed comparison [x < 1e-3f], and [quadratic_root plus a b K] the
    expression [Primitive((-b +/- std::sqrt(PromoteType(K))) /
    (PromoteType(2)*a))] of CalculateCrashTime. *)

Class Scalar := {
  Primitive : Type;
  of_unsigned : N -> Primitive;
  padd : Primitive -> Primitive -> Primitive;
  psub : Primitive -> Primitive -> Primitive;
  pmul : Primitive -> Primitive -> Primitive;
  pdiv : Primitive -> Primitive -> Primitive;
  pneg : Primitive -> Primitive;
  pabs : Primitive -> Primitive;
  plt : Primitive -> Primitive -> bool;
  ple : Primitive -> Primitive -> bool;
  peq : Primitive -> Primitive -> bool;
  numeric_max : Primitive;
  GetEpsilon : Primitive;
  lit_1e_6f : Primitive;
  lit_1e_3f : Primitive;
  lt_1e_3f : Primitive -> bool;
  quadratic_root : bool -> Primitive -> Primitive -> Primitive -> Primitive;
  IsFiniteNumber : Primitive -> bool;
  Equivalent : Primitive -> Primitive -> Primitive -> bool;
  Normalize : Vector2T Primitive -> Vector2T Primitive;
}.

Declare Scope prim_scope.
Delimit Scope prim_scope with P.
Notation "a + b" := (padd a b) : prim_scope.
Notation "a - b" := (psub a b) : prim_scope.
Notation "a * b" := (pmul a b) : prim_scope.
Notation "a / b" := (pdiv a b) : prim_scope.
Notation "- a" := (pneg a) : prim_scope.
Notation "a <? b" := (plt a b) : prim_scope.
Notation "a >? b" := (plt b a) : prim_scope.
Notation "a <=? b" := (ple a b) : prim_scope.
Notation "a >=? b" := (ple b a) : prim_scope.
Notation "a =? b" := (peq a b) : prim_scope.
Notation "a !=? b" := (negb (peq a b)) (at level 70) : prim_scope.

(** ** Data model *)

Module Segment.
Record t := mk { _head : N; _tail : N; _leftFace : N; _rightFace : N }.
End Segment.

Module MotorcycleSegment.
Record t := mk { _head : N; _tail : N; _leftFace : N; _rightFace : N }.
End MotorcycleSegment.

Inductive EdgeType := Wavefront | VertexPath.

Global Instance EdgeType_eq_dec : EqDecision EdgeType.
Proof. solve_decision. Defined.

(** The output types are declared in StraightSkeleton.h (not among the
    sources); their fields are the ones the code uses. *)
Module Edge.
Record t := mk { _head : N; _tail : N; _type : EdgeType }.
End Edge.

Module Face.
Record t := mk { _edges : list Edge.t }.
End Face.

Module Vertex.
Record t (P : Type) := mk {
    _position : Vector2T P;
    _skeletonVertexId : N;
    _initialTime : P;
    _velocity : Vector2T P
  }.
Arguments mk {P} _ _ _ _.
Arguments _position {P} _.
Arguments _skeletonVertexId {P} _.
Arguments _initialTime {P} _.
Arguments _velocity {P} _.
End Vertex.

Module Graph.
Record t (P : Type) := mk {
    _vertices : list (Vertex.t P);
    _wavefrontEdges : list Segment.t;
    _motorcycleSegments : list MotorcycleSegment.t;
    _boundaryPoints : list (Vector2T P)
  }.
Arguments mk {P} _ _ _ _.
Arguments _vertices {P} _.
Arguments _wavefrontEdges {P} _.
Arguments _motorcycleSegments {P} _.
Arguments _boundaryPoints {P} _.
End Graph.

Module StraightSkeleton.
Record t (P : Type) := mk {
    _steinerVertices : list (Vector3T P);
    _faces : list Face.t;
    _unplacedEdges : list Edge.t
  }.
Arguments mk {P} _ _ _.
Arguments _steinerVertices {P} _.
Arguments _faces {P} _.
Arguments _unplacedEdges {P} _.
End StraightSkeleton.

Inductive WindingType := Left | Right | Straight.

Global Instance WindingType_eq_dec : EqDecision WindingType.
Proof. solve_decision. Defined.

(** [struct CollapseGroupInfo], local to CalculateSkeleton *)
Module CollapseGroupInfo.
Record t := mk { _head : N; _tail : N; _newVertex : N }.
End CollapseGroupInfo.

(** [struct CrashEvent] *)
Module CrashEvent.
Record t (P : Type) := mk { _time : P; _edgeSegment : N }.
Arguments mk {P} _ _.
Arguments _time {P} _.
Arguments _edgeSegment {P} _.
End CrashEvent.

(** ** The code, generic in the scalar type and the build *)

Section Code.
Context {S : Scalar}.
Variable build : Build.

Local Open Scope prim_scope.

Abbreviation Vector2 := (Vector2T Primitive).
Abbreviation Vector3 := (Vector3T Primitive).
Abbreviation assert := (assert_ build).

(** [Primitive(0)], [Primitive(1)], ... *)
Definition P0 : Primitive := of_unsigned 0.
Definition P1 : Primitive := of_unsigned 1.
Definition P2 : Primitive := of_unsigned 2.
Definition P3 : Primitive := of_unsigned 3.
Definition P4 : Primitive := of_unsigned 4.

(** [std::min] and [std::max], as the standard defines them with [<]. *)
Definition std_min (a b : Primitive) : Primitive := if b <? a then b else a.
Definition std_max (a b : Primitive) : Primitive := if a <? b then b else a.

(** *** Math/Vector.h

    Modelled from the spec: Math/Vector.h is not among the sources; the
    vector operations below are the component-wise ones the design document
    names ([Equivalent] "compares two points/vectors component-wise within
    epsilon"), over the scalar operations of [Scalar]. *)

Definition Zero2 : Vector2 := Vec2 P0 P0.
Definition vadd2 (a b : Vector2) : Vector2 := Vec2 (x2 a + x2 b) (y2 a + y2 b).
Definition vsub2 (a b : Vector2) : Vector2 := Vec2 (x2 a - x2 b) (y2 a - y2 b).
Definition vscale2 (a : Vector2) (s : Primitive) : Vector2 := Vec2 (x2 a * s) (y2 a * s).
Definition scalev2 (s : Primitive) (a : Vector2) : Vector2 := Vec2 (s * x2 a) (s * y2 a).
Definition vdiv2 (a : Vector2) (s : Primitive) : Vector2 := Vec2 (x2 a / s) (y2 a / s).
Definition vadd3 (a b : Vector3) : Vector3 := Vec3 (x3 a + x3 b) (y3 a + y3 b) (z3 a + z3 b).
Definition vdiv3 (a : Vector3) (s : Primitive) : Vector3 := Vec3 (x3 a / s) (y3 a / s) (z3 a / s).
Definition Dot (a b : Vector2) : Primitive := x2 a * x2 b + y2 a * y2 b.
Definition MagnitudeSquared (a : Vector2) : Primitive := Dot a a.
Definition LinearInterpolate (a b : Vector2) (alpha : Primitive) : Vector2 :=
  vadd2 a (vscale2 (vsub2 b a) alpha).
Definition Truncate (v : Vector3) : Vector2 := Vec2 (x3 v) (y3 v).
Definition Expand (v : Vector2) (z : Primitive) : Vector3 := Vec3 (x2 v) (y2 v) z.
Definition Equivalent2 (a b : Vector2) (tolerance : Primitive) : bool :=
  Equivalent (x2 a) (x2 b) tolerance && Equivalent (y2 a) (y2 b) tolerance.
Definition Equivalent3 (a b : Vector3) (tolerance : Primitive) : bool :=
  Equivalent (x3 a) (x3 b) tolerance && Equivalent (y3 a) (y3 b) tolerance
  && Equivalent (z3 a) (z3 b) tolerance.

(** *** Geometry primitives *)

(** [SPACE_HANDINESS] is [SPACE_HANDINESS_COUNTERCLOCKWISE]: the [#else]
    branches are the compiled ones, here and in CalculateVertexVelocity. *)
Definition CalculateWindingType (zero one two : Vector2) (threshold : Primitive)
  : WindingType :=
  let sign := (x2 one - x2 zero) * (y2 two - y2 zero)
              - (x2 two - x2 zero) * (y2 one - y2 zero) in
  if sign >? threshold then Left
  else if sign <? - threshold then Right
  else Straight.

Definition CalculateVertexVelocity (vex0 vex1 vex2 : Vector2) : Outcome Vector2 :=
  if Equivalent2 vex0 vex2 GetEpsilon then Returns Zero2 else
  let t0 := vsub2 vex1 vex0 in
  let t1 := vsub2 vex2 vex1 in
  if Equivalent2 t0 Zero2 GetEpsilon then Returns Zero2 else
  if Equivalent2 t1 Zero2 GetEpsilon then Returns Zero2 else
  let N0 := Normalize (Vec2 (- y2 t0) (x2 t0)) in
  let N1 := Normalize (Vec2 (- y2 t1) (x2 t1)) in
  let a := x2 N0 in let b := y2 N0 in
  let c := x2 N1 in let d := y2 N1 in
  let t := P1 in
  let B0 := if (d <? - GetEpsilon) || (d >? GetEpsilon) then a - b * c / d else P0 in
  let B1 := if (c <? - GetEpsilon) || (c >? GetEpsilon) then b - a * d / c else P0 in
  let finish (x y : Primitive) : Outcome Vector2 :=
    let* _ := assert 150 (Dot (Vec2 x y) (vadd2 N0 N1) >? P0) in
    let* _ := assert 152 (IsFiniteNumber x && IsFiniteNumber y) in
    Returns (Vec2 x y) in
  if pabs B0 >? pabs B1 then
    if (B0 >? - GetEpsilon) && (B0 <? GetEpsilon) then Returns Zero2 else
    let A := P1 - b / d in
    let x := t * A / B0 in
    let y := (t - x * c) / d in
    finish x y
  else
    if (B1 >? - GetEpsilon) && (B1 <? GetEpsilon) then Returns Zero2 else
    let A := P1 - a / c in
    let y := t * A / B1 in
    let x := (t - y * d) / c in
    finish x y.

(** *** Wavefront graph builder *)

Abbreviation Vertex := (Vertex.t Primitive).
Abbreviation Graph := (Graph.t Primitive).
Abbreviation Skeleton := (StraightSkeleton.t Primitive).

(** The indices [0 .. n-1] of a loop [for (size_t v=0; v<n; ++v)]. *)
Definition indices (n : N) : list N := N.of_nat <$> seq 0 (N.to_nat n).

(** Lines 168-179, the body of the first loop: the edge that starts at
    [v] and the vertex [v] with its velocity. *)
Definition BuildEdgeAndVertex (vertices : list Vector2)
    (acc : list Segment.t * list Vertex) (v : N)
  : Outcome (list Segment.t * list Vertex) :=
  let '(edges, verts) := acc in
  let n := size vertices in
  let v0 := ((v + n - 1) mod n)%N in
  let v1 := v in
  let v2 := ((v + 1) mod n)%N in
  let edges := edges ++ [Segment.mk (u32 v2) (u32 v) not0u (u32 v)] in
  let* p0 := at_ vertices v0 in
  let* p1 := at_ vertices v1 in
  let* p2 := at_ vertices v2 in
  let* velocity := CalculateVertexVelocity p0 p1 p2 in
  let* _ := assert 177 (negb (Equivalent2 velocity Zero2 GetEpsilon)) in
  let* p := at_ vertices v in
  Returns (edges,
           verts ++ [Vertex.mk p (N.lor BoundaryVertexFlag (u32 v)) P0 velocity]).

(** Lines 184-197, the body of the second loop: a reflex vertex gets a
    fixed vertex and a motorcycle segment. *)
Definition BuildMotorcycle (vertices : list Vector2)
    (acc : list Vertex * list MotorcycleSegment.t) (v : N)
  : Outcome (list Vertex * list MotorcycleSegment.t) :=
  let '(verts, motorcycles) := acc in
  let threshold := lit_1e_6f in
  let n := size vertices in
  let v0 := ((v + n - 1) mod n)%N in
  let v1 := v in
  let v2 := ((v + 1) mod n)%N in
  let* p0 := at_ vertices v0 in
  let* p1 := at_ vertices v1 in
  let* p2 := at_ vertices v2 in
  if decide (CalculateWindingType p0 p1 p2 threshold = Right) then
    let fixedVertex := u32 (size verts) in
    let* p := at_ vertices v in
    Returns (verts ++ [Vertex.mk p (N.lor BoundaryVertexFlag (u32 v)) P0 Zero2],
             motorcycles ++ [MotorcycleSegment.mk (u32 v) fixedVertex (u32 v0) (u32 v1)])
  else Returns (verts, motorcycles).

Definition BuildGraphFromVertexLoop (vertices : list Vector2) : Outcome Graph :=
  let* _ := assert 158 (2 <=? size vertices)%N in
  let n := size vertices in
  let* (edges, verts) := foldM (BuildEdgeAndVertex vertices) (indices n) ([], []) in
  let* (verts, motorcycles) := foldM (BuildMotorcycle vertices) (indices n) (verts, []) in
  Returns (Graph.mk verts edges motorcycles vertices).

(** *** Collapse times *)

Definition CalculateCollapseTime_pv (p0 v0 p1 v1 : Vector2) : Primitive :=
  let d0x := x2 v0 - x2 v1 in
  let d0y := y2 v0 - y2 v1 in
  if pabs d0x >? pabs d0y then
    if pabs d0x <? GetEpsilon then numeric_max else
    let t := (x2 p1 - x2 p0) / d0x in
    let ySep := y2 p0 + t * y2 v0 - y2 p1 - t * y2 v1 in
    if lt_1e_3f (pabs ySep) then t else numeric_max
  else
    if pabs d0y <? GetEpsilon then numeric_max else
    let t := (y2 p1 - y2 p0) / d0y in
    let xSep := x2 p0 + t * x2 v0 - x2 p1 - t * x2 v1 in
    if lt_1e_3f (pabs xSep) then t else numeric_max.

Definition CalculateCollapseTime (v0 v1 : Vertex) : Primitive :=
  if Equivalent2 (Vertex._velocity v0) Zero2 GetEpsilon then numeric_max else
  if Equivalent2 (Vertex._velocity v1) Zero2 GetEpsilon then numeric_max else
  let calcTime := std_min (Vertex._initialTime v0) (Vertex._initialTime v1) in
  let p0 := vadd2 (Vertex._position v0)
              (scalev2 (calcTime - Vertex._initialTime v0) (Vertex._velocity v0)) in
  let p1 := vadd2 (Vertex._position v1)
              (scalev2 (calcTime - Vertex._initialTime v1) (Vertex._velocity v1)) in
  calcTime + CalculateCollapseTime_pv p0 (Vertex._velocity v0) p1 (Vertex._velocity v1).


(** *** Steiner vertices and positions *)

Definition AddSteinerVertex (skeleton : Skeleton) (vertex : Vector3)
  : Outcome (N * Skeleton) :=
  let* _ := assert 255 (z3 vertex !=? P0) in
  let* _ := assert 256 (IsFiniteNumber (x3 vertex) && IsFiniteNumber (y3 vertex)
                        && IsFiniteNumber (z3 vertex)) in
  let* _ := assert 257 ((x3 vertex !=? numeric_max) && (y3 vertex !=? numeric_max)
                        && (z3 vertex !=? numeric_max)) in
  let steiner := StraightSkeleton._steinerVertices skeleton in
  match find_if (fun v => Equivalent3 v vertex GetEpsilon) steiner with
  | Some existing => Returns (u32 (N.of_nat existing), skeleton)
  | None =>
    let* _ :=
      if _DEBUG build then
        let test := find_if (fun v => Equivalent2 (Truncate v) (Truncate vertex) GetEpsilon)
                      steiner in
        assert 266 (bool_decide (test = None))
      else Returns tt in
    let result := u32 (size steiner) in
    Returns (result,
             StraightSkeleton.mk (steiner ++ [vertex])
               (StraightSkeleton._faces skeleton)
               (StraightSkeleton._unplacedEdges skeleton))
  end.

Definition PositionAtTime (v : Vertex) (time : Primitive) : Outcome Vector2 :=
  let result := vadd2 (Vertex._position v)
                  (vscale2 (Vertex._velocity v) (time - Vertex._initialTime v)) in
  let* _ := assert 285 (IsFiniteNumber (x2 result) && IsFiniteNumber (y2 result)) in
  Returns result.

Definition ClampedPositionAtTime (v : Vertex) (time : Primitive) : Outcome Vector3 :=
  if Equivalent2 (Vertex._velocity v) Zero2 GetEpsilon then
    Returns (Expand (Vertex._position v) (Vertex._initialTime v))
  else
    let* p := PositionAtTime v time in
    Returns (Expand p time).

(** *** Motorcycle crash times *)

Definition CalculateCrashTime (graph : Graph) (v : Vertex)
  : Outcome (CrashEvent.t Primitive) :=
  foldM (fun bestCollisionEvent '(i, e) =>
    let* head := at_ (Graph._vertices graph) (Segment._head e) in
    let* tail := at_ (Graph._vertices graph) (Segment._tail e) in
    let calcTime := std_max (std_max (Vertex._initialTime head) (Vertex._initialTime tail))
                      (Vertex._initialTime v) in
    let* p0 := PositionAtTime head calcTime in
    let* p1 := PositionAtTime tail calcTime in
    let v0 := Vertex._velocity head in
    let v1 := Vertex._velocity tail in
    let* p2 := PositionAtTime v calcTime in
    let v2 := Vertex._velocity v in
    let a := (x2 v1 - x2 v0) * (y2 v2 - y2 v0) - (x2 v2 - x2 v0) * (y2 v1 - y2 v0) in
    if Equivalent a P0 GetEpsilon then Returns bestCollisionEvent else
    let c := (x2 p1 - x2 p0) * (y2 p2 - y2 p0) - (x2 p2 - x2 p0) * (y2 p1 - y2 p0) in
    let b := (x2 p1 - x2 p0) * (y2 v2 - y2 v0) + (x2 v1 - x2 v0) * (y2 p2 - y2 p0)
             - (x2 p2 - x2 p0) * (y2 v1 - y2 v0) - (x2 v2 - x2 v0) * (y2 p1 - y2 p0) in
    let K := b * b - P4 * a * c in
    if K <? P0 then Returns bestCollisionEvent else
    let ts := [calcTime + quadratic_root true a b K;
               calcTime + quadratic_root false a b K] in
    foldM (fun bestCollisionEvent t =>
      if (t >? CrashEvent._time bestCollisionEvent)
         || (t <=? std_max (Vertex._initialTime head) (Vertex._initialTime tail))
      then Returns bestCollisionEvent else
      let* P0' := PositionAtTime head t in
      let* P1' := PositionAtTime tail t in
      let* P2' := PositionAtTime v t in
      if (Dot (vsub2 P1' P0') (vsub2 P2' P0') >? P0)
         && (Dot (vsub2 P0' P1') (vsub2 P2' P1') >? P0)
      then Returns (CrashEvent.mk t (u32 (N.of_nat i)))
      else if Equivalent2 P0' P2' GetEpsilon || Equivalent2 P1' P2' GetEpsilon
      then Returns (CrashEvent.mk t (u32 (N.of_nat i)))
      else Returns bestCollisionEvent) ts bestCollisionEvent)
    (enumerate (Graph._wavefrontEdges graph))
    (CrashEvent.mk numeric_max not0u).

(** The two pointers of the result are positions in [edges] here. *)
Definition FindInAndOut (edges : list Segment.t) (pivotVertex : N)
  : Outcome (option nat * option nat) :=
  foldM (fun '(first, second) '(i, s) =>
    if (Segment._head s =? pivotVertex)%N then
      let* _ := assert 394 (bool_decide (first = None)) in
      Returns (Some i, second)
    else if (Segment._tail s =? pivotVertex)%N then
      let* _ := assert 397 (bool_decide (second = None)) in
      Returns (first, Some i)
    else Returns (first, second))
    (enumerate edges) (None, None).

Definition IsFrozen (v : Vertex) : bool := Equivalent2 (Vertex._velocity v) Zero2 P0.

Definition FreezeInPlace (v : Vertex) (atTime : Primitive) : Outcome Vertex :=
  let* _ := assert 407 (atTime !=? P0) in
  let* position := PositionAtTime v atTime in
  Returns (Vertex.mk position not0u atTime Zero2).

(** *** Skeleton edges *)

Definition AddUnique (dst : list Edge.t) (edge : Edge.t) : Outcome (list Edge.t) :=
  match find_if (fun e => (Edge._head e =? Edge._head edge)%N
                          && (Edge._tail e =? Edge._tail edge)%N) dst with
  | None => Returns (dst ++ [edge])
  | Some existing =>
    let* e := at_nat dst existing in
    let* _ := assert 422 (bool_decide (Edge._type e = Edge._type edge)) in
    Returns dst
  end.

(** [AddUnique(dest._faces[face]._edges, edge)] *)
Definition AddUnique_face (dest : Skeleton) (face : N) (edge : Edge.t) : Outcome Skeleton :=
  let* f := at_ (StraightSkeleton._faces dest) face in
  let* edges := AddUnique (Face._edges f) edge in
  Returns (StraightSkeleton.mk (StraightSkeleton._steinerVertices dest)
             (<[N.to_nat face := Face.mk edges]> (StraightSkeleton._faces dest))
             (StraightSkeleton._unplacedEdges dest)).

(** [AddUnique(dest._unplacedEdges, edge)] *)
Definition AddUnique_unplaced (dest : Skeleton) (edge : Edge.t) : Outcome Skeleton :=
  let* edges := AddUnique (StraightSkeleton._unplacedEdges dest) edge in
  Returns (StraightSkeleton.mk (StraightSkeleton._steinerVertices dest)
             (StraightSkeleton._faces dest) edges).

Definition AddEdge (dest : Skeleton) (headVertex tailVertex leftEdge rightEdge : N)
    (type : EdgeType) : Outcome Skeleton :=
  if (headVertex =? tailVertex)%N then Returns dest else
  let* dest :=
    if negb (rightEdge =? not0u)%N
    then AddUnique_face dest rightEdge (Edge.mk headVertex tailVertex type)
    else AddUnique_unplaced dest (Edge.mk headVertex tailVertex type) in
  if negb (leftEdge =? not0u)%N
  then AddUnique_face dest leftEdge (Edge.mk tailVertex headVertex type)
  else AddUnique_unplaced dest (Edge.mk tailVertex headVertex type).

(** A member of [Graph]: it reads the vertices, the wavefront edges and the
    boundary points of [graph]. *)
Definition AddEdgeForVertexPath (graph : Graph) (dst : Skeleton) (v finalVertId : N)
  : Outcome Skeleton :=
  let* vert := at_ (Graph._vertices graph) v in
  let* inAndOut := FindInAndOut (Graph._wavefrontEdges graph) v in
  let* leftFace :=
    match inAndOut.1 with
    | Some i => let* s := at_nat (Graph._wavefrontEdges graph) i in
                Returns (Segment._rightFace s)
    | None => Returns not0u
    end in
  let* rightFace :=
    match inAndOut.2 with
    | Some i => let* s := at_nat (Graph._wavefrontEdges graph) i in
                Returns (Segment._rightFace s)
    | None => Returns not0u
    end in
  let id := Vertex._skeletonVertexId vert in
  if negb (id =? not0u)%N then
    let* dst :=
      if negb (N.land id BoundaryVertexFlag =? 0)%N then
        let q := N.land id (N.lxor not0u BoundaryVertexFlag) in
        let n := size (Graph._boundaryPoints graph) in
        if (n =? 0)%N then UndefinedBehaviour else
        AddEdge dst finalVertId id (u32 ((q + n - 1) mod n)) q VertexPath
      else Returns dst in
    AddEdge dst finalVertId id leftFace rightFace VertexPath
  else
    let* (steiner, dst) :=
      AddSteinerVertex dst (Expand (Vertex._position vert) (Vertex._initialTime vert)) in
    AddEdge dst finalVertId steiner leftFace rightFace VertexPath.

(** *** The event loop of [Graph::CalculateSkeleton]

    The body of the loop is cut at its own comments: the search for the
    next collapses (lines 480-505), the search for the next motorcycle
    crashes (507-536), the processing of a crash (540-678) and the
    processing of the collapses (680-823). *)

Definition with_vertices (g : Graph) (vs : list Vertex) : Graph :=
  Graph.mk vs (Graph._wavefrontEdges g) (Graph._motorcycleSegments g)
    (Graph._boundaryPoints g).
Definition with_wavefrontEdges (g : Graph) (es : list Segment.t) : Graph :=
  Graph.mk (Graph._vertices g) es (Graph._motorcycleSegments g)
    (Graph._boundaryPoints g).
Definition with_motorcycleSegments (g : Graph) (ms : list MotorcycleSegment.t) : Graph :=
  Graph.mk (Graph._vertices g) (Graph._wavefrontEdges g) ms (Graph._boundaryPoints g).

(** Lines 480-505: [bestCollapse] and [bestCollapseTime]. *)
Definition FindCollapses (graph : Graph) (lastEventTime : Primitive)
  : Outcome (list (Primitive * nat) * Primitive) :=
  let* (bestCollapse, bestCollapseTime) :=
    foldM (fun '(bestCollapse, bestCollapseTime) '(e, seg) =>
      let* v0 := at_ (Graph._vertices graph) (Segment._head seg) in
      let* v1 := at_ (Graph._vertices graph) (Segment._tail seg) in
      let collapseTime := CalculateCollapseTime v0 v1 in
      if collapseTime <? P0 then Returns (bestCollapse, bestCollapseTime) else
      let* _ := assert 487 (collapseTime >=? lastEventTime) in
      if collapseTime <? bestCollapseTime - GetEpsilon then
        Returns ([(collapseTime, e)], collapseTime)
      else if collapseTime <? bestCollapseTime + GetEpsilon then
        Returns (bestCollapse ++ [(collapseTime, e)], std_min collapseTime bestCollapseTime)
      else Returns (bestCollapse, bestCollapseTime))
      (enumerate (Graph._wavefrontEdges graph)) ([], numeric_max) in
  Returns (List.filter (fun e => e.1 <? bestCollapseTime + GetEpsilon) bestCollapse,
           bestCollapseTime).

(** Lines 507-536: [bestMotorcycleCrash] and [bestMotorcycleCrashTime]. *)
Definition FindCrashes (graph : Graph) (lastEventTime bestCollapseTime : Primitive)
  : Outcome (list (CrashEvent.t Primitive * nat) * Primitive) :=
  foldM (fun '(bestMotorcycleCrash, bestMotorcycleCrashTime) '(m, motor) =>
    let* head := at_ (Graph._vertices graph) (MotorcycleSegment._head motor) in
    if Equivalent2 (Vertex._velocity head) Zero2 GetEpsilon
    then Returns (bestMotorcycleCrash, bestMotorcycleCrashTime) else
    let* _ := assert 515 (Vertex._initialTime head =? P0) in
    let* crashEvent := CalculateCrashTime graph head in
    let time := CrashEvent._time crashEvent in
    if time <? P0 then Returns (bestMotorcycleCrash, bestMotorcycleCrashTime) else
    let* _ := assert 518 (time >=? lastEventTime) in
    if time <? bestCollapseTime + GetEpsilon then
      if time <? bestMotorcycleCrashTime - GetEpsilon then
        Returns ([(crashEvent, m)], time)
      else if time <? bestMotorcycleCrashTime + GetEpsilon then
        Returns (bestMotorcycleCrash ++ [(crashEvent, m)],
                 std_min time bestMotorcycleCrashTime)
      else Returns (bestMotorcycleCrash, bestMotorcycleCrashTime)
    else Returns (bestMotorcycleCrash, bestMotorcycleCrashTime))
    (enumerate (Graph._motorcycleSegments graph)) ([], numeric_max).

(** Lines 565-604: is there volume on the "tout" side? *)
Definition CrashOutSide (graph : Graph) (result : Skeleton) (motor : MotorcycleSegment.t)
    (crashSegment : Segment.t) (crashPt : Vector2) (crashPtSkeleton : N)
    (time : Primitive) : Outcome (Graph * Skeleton) :=
  let calcTime := time in
  let edges := Graph._wavefrontEdges graph in
  let vertices := Graph._vertices graph in
  let* inAndOut := FindInAndOut edges (MotorcycleSegment._head motor) in
  let* _ := assert 568 (bool_decide (inAndOut.2 <> None)) in
  match inAndOut.2 with
  | None => UndefinedBehaviour
  | Some tout_i =>
    let* tout := at_nat edges tout_i in
    let* vt := at_ vertices (Segment._tail crashSegment) in
    let* v0 := ClampedPositionAtTime vt calcTime in
    let* vh := at_ vertices (Segment._head tout) in
    let* v2 := ClampedPositionAtTime vh calcTime in
    if (Segment._head tout =? Segment._tail crashSegment)%N
       || Equivalent3 v0 v2 GetEpsilon then
      let* _ := assert 574 ((Segment._leftFace crashSegment =? not0u)%N
                            && (Segment._leftFace tout =? not0u)%N) in
      let* (endPt, result) := AddSteinerVertex result (vdiv3 (vadd3 v0 v2) P2) in
      let* result := AddEdge result endPt crashPtSkeleton (Segment._rightFace crashSegment)
                       (Segment._rightFace tout) VertexPath in
      let* result := AddEdgeForVertexPath graph result (Segment._head tout) endPt in
      let* result := AddEdgeForVertexPath graph result (Segment._tail crashSegment) endPt in
      let toutHead := Segment._head tout in
      let edges := erase_at tout_i edges in
      let edges :=
        if negb (toutHead =? Segment._tail crashSegment)%N then
          match List.find (fun s => (Segment._head s =? Segment._tail crashSegment)%N
                                    && (Segment._tail s =? toutHead)%N) edges with
          | Some existing =>
            edges ++ [Segment.mk toutHead (Segment._tail crashSegment)
                        (Segment._rightFace existing) (Segment._leftFace existing)]
          | None =>
            edges ++ [Segment.mk toutHead (Segment._tail crashSegment) not0u not0u]
          end
        else edges in
      Returns (with_wavefrontEdges graph edges, result)
    else
      let newVertex := u32 (size vertices) in
      let edges := <[tout_i := Segment.mk (Segment._head tout) newVertex
                                 (Segment._leftFace tout) (Segment._rightFace tout)]> edges in
      let edges := edges ++ [Segment.mk newVertex (Segment._tail crashSegment)
                               (Segment._leftFace crashSegment)
                               (Segment._rightFace crashSegment)] in
      let* velocity := CalculateVertexVelocity (Truncate v0) crashPt (Truncate v2) in
      let vertices := vertices ++ [Vertex.mk crashPt crashPtSkeleton time velocity] in
      Returns (with_vertices (with_wavefrontEdges graph edges) vertices, result)
  end.

(** Lines 606-644: is there volume on the "tin" side? *)
Definition CrashInSide (graph : Graph) (result : Skeleton) (motor : MotorcycleSegment.t)
    (crashSegment : Segment.t) (crashPt : Vector2) (crashPtSkeleton : N)
    (time : Primitive) : Outcome (Graph * Skeleton) :=
  let calcTime := time in
  let edges := Graph._wavefrontEdges graph in
  let vertices := Graph._vertices graph in
  let* inAndOut := FindInAndOut edges (MotorcycleSegment._head motor) in
  let* _ := assert 609 (bool_decide (inAndOut.1 <> None)) in
  match inAndOut.1 with
  | None => UndefinedBehaviour
  | Some tin_i =>
    let* tin := at_nat edges tin_i in
    let* vt := at_ vertices (Segment._tail tin) in
    let* v0 := ClampedPositionAtTime vt calcTime in
    let* vh := at_ vertices (Segment._head crashSegment) in
    let* v2 := ClampedPositionAtTime vh calcTime in
    if (Segment._tail tin =? Segment._head crashSegment)%N
       || Equivalent3 v0 v2 GetEpsilon then
      let* _ := assert 615 ((Segment._leftFace crashSegment =? not0u)%N
                            && (Segment._leftFace tin =? not0u)%N) in
      let* (endPt, result) := AddSteinerVertex result (vdiv3 (vadd3 v0 v2) P2) in
      let* result := AddEdge result endPt crashPtSkeleton (Segment._rightFace tin)
                       (Segment._rightFace crashSegment) VertexPath in
      let* result := AddEdgeForVertexPath graph result (Segment._tail tin) endPt in
      let* result := AddEdgeForVertexPath graph result (Segment._head crashSegment) endPt in
      let tinTail := Segment._tail tin in
      let edges := erase_at tin_i edges in
      let edges :=
        if negb (tinTail =? Segment._head crashSegment)%N then
          match List.find (fun s => (Segment._head s =? tinTail)%N
                                    && (Segment._tail s =? Segment._head crashSegment)%N)
                  edges with
          | Some existing =>
            edges ++ [Segment.mk (Segment._head crashSegment) tinTail
                        (Segment._rightFace existing) (Segment._leftFace existing)]
          | None =>
            edges ++ [Segment.mk (Segment._head crashSegment) tinTail not0u not0u]
          end
        else edges in
      Returns (with_wavefrontEdges graph edges, result)
    else
      let newVertex := u32 (size vertices) in
      let edges := <[tin_i := Segment.mk newVertex (Segment._tail tin)
                                (Segment._leftFace tin) (Segment._rightFace tin)]> edges in
      let edges := edges ++ [Segment.mk (Segment._head crashSegment) newVertex
                               (Segment._leftFace crashSegment)
                               (Segment._rightFace crashSegment)] in
      let* velocity := CalculateVertexVelocity (Truncate v0) crashPt (Truncate v2) in
      let vertices := vertices ++ [Vertex.mk crashPt crashPtSkeleton time velocity] in
      Returns (with_vertices (with_wavefrontEdges graph edges) vertices, result)
  end.

(** Lines 543-678: the crash at the front of [bestMotorcycleCrash] is
    processed.  The result carries the new [lastEventTime].  ([newSegment0]
    and [newSegment1] of the source are only written: the statements that
    would use them are commented out.) *)
Definition ProcessMotorcycleCrash (graph : Graph) (result : Skeleton)
    (bestMotorcycleCrash : list (CrashEvent.t Primitive * nat))
    (bestMotorcycleCrashTime : Primitive) : Outcome (Graph * Skeleton * Primitive) :=
  let bestMotorcycleCrash :=
    List.filter (fun e => CrashEvent._time e.1 <? bestMotorcycleCrashTime + GetEpsilon)
      bestMotorcycleCrash in
  let* _ := assert 552 (bool_decide (length bestMotorcycleCrash = 1%nat)) in
  let* front := at_nat bestMotorcycleCrash 0 in
  let crashEvent := front.1 in
  let time := CrashEvent._time crashEvent in
  let* motor := at_nat (Graph._motorcycleSegments graph) front.2 in
  let* _ := assert 555 (negb (CrashEvent._edgeSegment crashEvent =? not0u)%N) in
  let* motorHead := at_ (Graph._vertices graph) (MotorcycleSegment._head motor) in
  let* crashPt := PositionAtTime motorHead time in
  let* (crashPtSkeleton, result) := AddSteinerVertex result (Expand crashPt time) in
  let* crashSegment := at_ (Graph._wavefrontEdges graph) (CrashEvent._edgeSegment crashEvent) in
  let* (graph, result) :=
    CrashOutSide graph result motor crashSegment crashPt crashPtSkeleton time in
  let* (graph, result) :=
    CrashInSide graph result motor crashSegment crashPt crashPtSkeleton time in
  let graph := with_wavefrontEdges graph
    (List.filter (fun s => negb ((Segment._head s =? Segment._head crashSegment)%N
                                 && (Segment._tail s =? Segment._tail crashSegment)%N))
       (Graph._wavefrontEdges graph)) in
  let* motorTail := at_ (Graph._vertices graph) (MotorcycleSegment._tail motor) in
  let* _ := assert 657 (negb (Vertex._skeletonVertexId motorTail =? not0u)%N) in
  let* result := AddEdge result crashPtSkeleton (Vertex._skeletonVertexId motorTail)
                   (MotorcycleSegment._leftFace motor) (MotorcycleSegment._rightFace motor)
                   VertexPath in
  let* motorHead := at_ (Graph._vertices graph) (MotorcycleSegment._head motor) in
  let* frozen := FreezeInPlace motorHead time in
  let* vertices := set_at (Graph._vertices graph) (MotorcycleSegment._head motor) frozen in
  let graph := with_vertices graph vertices in
  let graph := with_motorcycleSegments graph
                 (erase_at front.2 (Graph._motorcycleSegments graph)) in
  Returns (graph, result, time).

(** [_wavefrontEdges[bestCollapse[c].second]] *)
Definition CollapsedEdge (edges : list Segment.t) (bestCollapse : list (Primitive * nat))
    (c : nat) : Outcome Segment.t :=
  let* bc := at_nat bestCollapse c in
  at_nat edges bc.2.

(** Lines 697-706 ("go back as far as possible, from tail to tail", with
    [from := _head], [to := _tail]) and 710-719 ("also go forward head to
    head", with [from := _tail], [to := _head]).  Every turn of the loop that
    goes on moves one entry of [collapseGroups] into the group. *)
Fixpoint FollowGroup (fuel : nat) (line : N) (from to : Segment.t -> N)
    (edges : list Segment.t) (bestCollapse : list (Primitive * nat))
    (nextCollapseGroup : N) (collapseGroups : list N) (searching : N)
  : Outcome (list N * N) :=
  match fuel with
  | O => OutOfFuel
  | Datatypes.S fuel' =>
    let* i := find_ifM (fun t => let* s := at_nat edges t.2 in
                                 Returns (from s =? searching)%N) bestCollapse in
    match i with
    | None => Returns (collapseGroups, searching)
    | Some i =>
      let* g := at_nat collapseGroups i in
      if (g =? nextCollapseGroup)%N then Returns (collapseGroups, searching) else
      let* _ := assert line (g =? not0u)%N in
      let collapseGroups := <[i := nextCollapseGroup]> collapseGroups in
      let* s := CollapsedEdge edges bestCollapse i in
      FollowGroup fuel' line from to edges bestCollapse nextCollapseGroup collapseGroups
        (to s)
    end
  end.

(** Lines 686-723: the collapses are separated into groups. *)
Definition GroupCollapses (edges : list Segment.t) (bestCollapse : list (Primitive * nat))
  : Outcome (list N * list CollapseGroupInfo.t * N) :=
  foldM (fun '(collapseGroups, collapseGroupInfos, nextCollapseGroup) c =>
    let* g := at_nat collapseGroups c in
    if negb (g =? not0u)%N
    then Returns (collapseGroups, collapseGroupInfos, nextCollapseGroup) else
    let collapseGroups := <[c := nextCollapseGroup]> collapseGroups in
    let* s := CollapsedEdge edges bestCollapse c in
    let* (collapseGroups, searchingTail) :=
      FollowGroup (Datatypes.S (length bestCollapse)) 703 Segment._head Segment._tail
        edges bestCollapse nextCollapseGroup collapseGroups (Segment._tail s) in
    let* (collapseGroups, searchingHead) :=
      FollowGroup (Datatypes.S (length bestCollapse)) 716 Segment._tail Segment._head
        edges bestCollapse nextCollapseGroup collapseGroups (Segment._head s) in
    Returns (collapseGroups,
             collapseGroupInfos ++ [CollapseGroupInfo.mk searchingHead searchingTail not0u],
             u32 (nextCollapseGroup + 1)))
    (seq 0 (length bestCollapse))
    (replicate (length bestCollapse) not0u, [], 0%N).

(** The segments [_wavefrontEdges[bestCollapse[c].second]] of the [c] with
    [collapseGroups[c] == collapseGroup], in the order of [c]: what each of
    the loops of lines 731, 746 and 761 runs over. *)
Definition GroupMembers (edges : list Segment.t) (bestCollapse : list (Primitive * nat))
    (collapseGroups : list N) (collapseGroup : N) : Outcome (list Segment.t) :=
  foldM (fun members c =>
    let* g := at_nat collapseGroups c in
    if negb (g =? collapseGroup)%N then Returns members else
    let* seg := CollapsedEdge edges bestCollapse c in
    Returns (members ++ [seg]))
    (seq 0 (length bestCollapse)) [].

(** Lines 729-774: one collapse group becomes one new vertex. *)
Definition CollapseOneGroup (graph : Graph) (result : Skeleton)
    (bestCollapse : list (Primitive * nat)) (bestCollapseTime : Primitive)
    (collapseGroups : list N) (collapseGroup : N)
  : Outcome (Graph * Skeleton * N) :=
  let* members := GroupMembers (Graph._wavefrontEdges graph) bestCollapse collapseGroups
                    collapseGroup in
  let vertices := Graph._vertices graph in
  let* (collisionPt, contributors) :=
    foldM (fun '(collisionPt, contributors) seg =>
      let* head := at_ vertices (Segment._head seg) in
      let* ph := PositionAtTime head bestCollapseTime in
      let collisionPt := vadd2 collisionPt ph in
      let* tail := at_ vertices (Segment._tail seg) in
      let* pt := PositionAtTime tail bestCollapseTime in
      let collisionPt := vadd2 collisionPt pt in
      let contributors := u32 (contributors + 2) in
      let* _ := assert 739 (negb (IsFrozen tail)) in
      let* _ := assert 740 (negb (IsFrozen head)) in
      Returns (collisionPt, contributors))
      members (Vec2 P0 P0, 0%N) in
  let collisionPt := vdiv2 collisionPt (of_unsigned contributors) in
  let* _ :=
    if _DEBUG build then
      foldM (fun _ seg =>
        let* head := at_ vertices (Segment._head seg) in
        let* one := PositionAtTime head bestCollapseTime in
        let* tail := at_ vertices (Segment._tail seg) in
        let* two := PositionAtTime tail bestCollapseTime in
        let* _ := assert 751 (Equivalent2 one collisionPt lit_1e_3f) in
        assert 752 (Equivalent2 two collisionPt lit_1e_3f))
        members tt
    else Returns tt in
  let* (collisionVertId, result) :=
    AddSteinerVertex result (Expand collisionPt bestCollapseTime) in
  let* (result, vertices) :=
    foldM (fun '(result, vertices) seg =>
      let* result := AddEdgeForVertexPath (with_vertices graph vertices) result
                       (Segment._head seg) collisionVertId in
      let* result := AddEdgeForVertexPath (with_vertices graph vertices) result
                       (Segment._tail seg) collisionVertId in
      let* tail := at_ vertices (Segment._tail seg) in
      let* tail := FreezeInPlace tail bestCollapseTime in
      let* vertices := set_at vertices (Segment._tail seg) tail in
      let* head := at_ vertices (Segment._head seg) in
      let* head := FreezeInPlace head bestCollapseTime in
      let* vertices := set_at vertices (Segment._head seg) head in
      Returns (result, vertices))
      members (result, vertices) in
  let newVertex := u32 (size vertices) in
  let vertices := vertices ++ [Vertex.mk collisionPt collisionVertId bestCollapseTime Zero2] in
  Returns (with_vertices graph vertices, result, newVertex).

(** Lines 779-786: the collapsed edges are swapped to the end and erased. *)
Definition RemoveCollapsedEdges (edges : list Segment.t)
    (bestCollapse : list (Primitive * nat)) : Outcome (list Segment.t) :=
  match length edges with
  | O => UndefinedBehaviour
  | Datatypes.S last =>
    let* (edges, r, _) :=
      foldM (fun '(edges, r, atBegin) i =>
        let* r := if atBegin : bool then Returns r
                  else match r with
                       | O => UndefinedBehaviour
                       | Datatypes.S r' => Returns r'
                       end in
        let* a := at_nat edges r in
        let* b := at_nat edges i.2 in
        Returns (<[r := b]> (<[i.2 := a]> edges), r, false))
        (reverse bestCollapse) (edges, last, true) in
    Returns (take r edges)
  end.

(** Lines 791-820: the tail edge and the head edge of each group are linked
    to its new vertex, and the velocity of the new vertex is calculated. *)
Definition RelinkGroup (graph : Graph) (group : CollapseGroupInfo.t) : Outcome Graph :=
  if (CollapseGroupInfo._head group =? CollapseGroupInfo._tail group)%N
  then Returns graph else
  let edges := Graph._wavefrontEdges graph in
  let vertices := Graph._vertices graph in
  let newVertex := CollapseGroupInfo._newVertex group in
  let* inAndOutTail := FindInAndOut edges (CollapseGroupInfo._tail group) in
  let* inAndOutHead := FindInAndOut edges (CollapseGroupInfo._head group) in
  let tail := inAndOutTail.1 in
  let head := inAndOutHead.2 in
  let* _ := assert 796 (bool_decide (tail <> None) && bool_decide (head <> None)) in
  match tail, head with
  | Some tail, Some head =>
    let* t := at_nat edges tail in
    let edges := <[tail := Segment.mk newVertex (Segment._tail t)
                             (Segment._leftFace t) (Segment._rightFace t)]> edges in
    let* h := at_nat edges head in
    let edges := <[head := Segment.mk (Segment._head h) newVertex
                             (Segment._leftFace h) (Segment._rightFace h)]> edges in
    let* new := at_ vertices newVertex in
    let calcTime := Vertex._initialTime new in
    let* t := at_nat edges tail in
    let* tailTail := at_ vertices (Segment._tail t) in
    let* v0 := PositionAtTime tailTail calcTime in
    let v1 := Vertex._position new in
    let* h := at_nat edges head in
    let* headHead := at_ vertices (Segment._head h) in
    let* v2 := PositionAtTime headHead calcTime in
    let* velocity := CalculateVertexVelocity v0 v1 v2 in
    let* vertices := set_at vertices newVertex
                       (Vertex.mk (Vertex._position new) (Vertex._skeletonVertexId new)
                          (Vertex._initialTime new) velocity) in
    Returns (with_vertices (with_wavefrontEdges graph edges) vertices)
  | _, _ => UndefinedBehaviour
  end.

(** Lines 683-823: the collapses of [bestCollapse] are processed. *)
Definition ProcessCollapses (graph : Graph) (result : Skeleton)
    (bestCollapse : list (Primitive * nat)) (bestCollapseTime : Primitive)
  : Outcome (Graph * Skeleton) :=
  let* (collapseGroups, collapseGroupInfos, nextCollapseGroup) :=
    GroupCollapses (Graph._wavefrontEdges graph) bestCollapse in
  let* (graph, result, collapseGroupInfos) :=
    foldM (fun '(graph, result, collapseGroupInfos) collapseGroup =>
      let* (graph, result, newVertex) :=
        CollapseOneGroup graph result bestCollapse bestCollapseTime collapseGroups
          collapseGroup in
      let* info := at_ collapseGroupInfos collapseGroup in
      let* collapseGroupInfos :=
        set_at collapseGroupInfos collapseGroup
          (CollapseGroupInfo.mk (CollapseGroupInfo._head info)
             (CollapseGroupInfo._tail info) newVertex) in
      Returns (graph, result, collapseGroupInfos))
      (indices nextCollapseGroup) (graph, result, collapseGroupInfos) in
  let* edges := RemoveCollapsedEdges (Graph._wavefrontEdges graph) bestCollapse in
  let graph := with_wavefrontEdges graph edges in
  let* graph := foldM RelinkGroup collapseGroupInfos graph in
  Returns (graph, result).

(** The variables of CalculateSkeleton that live across the iterations. *)
Record Sim := mkSim {
  graph_ : Graph;
  result_ : Skeleton;
  lastEventTime : Primitive;
  lastEvent : N
}.

(** One turn of the [for (;;)] of lines 455-825: [None] is a [break]. *)
Definition Iteration (maxTime : Primitive) (s : Sim) : Outcome (option Sim) :=
  let* (bestCollapse, bestCollapseTime) := FindCollapses (graph_ s) (lastEventTime s) in
  let* (bestMotorcycleCrash, bestMotorcycleCrashTime) :=
    FindCrashes (graph_ s) (lastEventTime s) bestCollapseTime in
  if negb (bool_decide (bestMotorcycleCrash = [])) then
    if bestMotorcycleCrashTime >? maxTime then Returns None else
    let* (graph, result, time) :=
      ProcessMotorcycleCrash (graph_ s) (result_ s) bestMotorcycleCrash
        bestMotorcycleCrashTime in
    Returns (Some (mkSim graph result time 1))
  else
    if bool_decide (bestCollapse = []) then Returns None else
    if bestCollapseTime >? maxTime then Returns None else
    let* (graph, result) :=
      ProcessCollapses (graph_ s) (result_ s) bestCollapse bestCollapseTime in
    Returns (Some (mkSim graph result bestCollapseTime 2)).

Fixpoint EventLoop (fuel : nat) (maxTime : Primitive) (s : Sim) : Outcome Sim :=
  match fuel with
  | O => OutOfFuel
  | Datatypes.S fuel' =>
    let* next := Iteration maxTime s in
    match next with
    | None => Returns s
    | Some s' => EventLoop fuel' maxTime s'
    end
  end.

(** *** Wavefront finalizer *)

Definition ClosestPointOnLine2D (rayStart rayEnd testPt : Vector2) : Primitive :=
  let o := vsub2 testPt rayStart in
  let l := vsub2 rayEnd rayStart in
  Dot o l / MagnitudeSquared l.

Definition DoColinearLinesIntersect (AStart AEnd BStart BEnd : Vector2) : bool :=
  let closestBStart := ClosestPointOnLine2D AStart AEnd BStart in
  let closestBEnd := ClosestPointOnLine2D AStart AEnd BEnd in
  ((closestBStart >? GetEpsilon) && (closestBStart >? P1 - GetEpsilon))
  || ((closestBEnd >? GetEpsilon) && (closestBEnd >? P1 - GetEpsilon))
  || (Equivalent2 AStart BStart GetEpsilon && Equivalent2 AEnd BEnd GetEpsilon)
  || (Equivalent2 AEnd BStart GetEpsilon && Equivalent2 AStart BEnd GetEpsilon).

Definition set_head (s : Segment.t) (h : N) : Segment.t :=
  Segment.mk h (Segment._tail s) (Segment._leftFace s) (Segment._rightFace s).
Definition set_tail (s : Segment.t) (t : N) : Segment.t :=
  Segment.mk (Segment._head s) t (Segment._leftFace s) (Segment._rightFace s).

(** [Truncate(result._steinerVertices[i])] *)
Definition SteinerPoint (result : Skeleton) (i : N) : Outcome Vector2 :=
  let* v := at_ (StraightSkeleton._steinerVertices result) i in
  Returns (Truncate v).

(** Lines 941-987, the last case of the comparison: the two colinear
    segments become three.  [newSeg = {a, b}] leaves the faces of [newSeg]
    value-initialised, that is 0.  Returns [newSeg], [seg] and [i2]. *)
Definition SplitColinear (result : Skeleton) (seg i2 : Segment.t)
    (closestC closestD : Primitive) : Outcome (Segment.t * Segment.t * Segment.t) :=
  let brace (h t : N) := Segment.mk h t 0 0 in
  let '(newSeg, seg, i2) :=
    if closestC <? P0 then
      let '(newSeg, seg) :=
        if closestD >? P1 then (brace (Segment._tail seg) (Segment._tail i2), seg)
        else (brace (Segment._tail i2) (Segment._tail seg),
              set_tail seg (Segment._tail i2)) in
      (newSeg, seg, set_tail i2 (Segment._head seg))
    else if closestD <? P0 then
      let '(newSeg, seg) :=
        if closestC >? P1 then (brace (Segment._tail seg) (Segment._head i2), seg)
        else (brace (Segment._head i2) (Segment._tail seg),
              set_tail seg (Segment._head i2)) in
      (newSeg, seg, set_head i2 (Segment._head seg))
    else if closestC <? closestD then
      let '(newSeg, seg) :=
        if closestD >? P1 then (brace (Segment._tail seg) (Segment._tail i2), seg)
        else (brace (Segment._tail i2) (Segment._tail seg),
              set_tail seg (Segment._tail i2)) in
      (newSeg, set_tail seg (Segment._head i2), i2)
    else
      let '(newSeg, seg) :=
        if closestC >? P1 then (brace (Segment._tail seg) (Segment._head i2), seg)
        else (brace (Segment._head i2) (Segment._tail seg),
              set_tail seg (Segment._head i2)) in
      (newSeg, set_tail seg (Segment._tail i2), i2) in
  let* _ :=
    if NDEBUG build then Returns tt else
    let* nh := SteinerPoint result (Segment._head newSeg) in
    let* nt := SteinerPoint result (Segment._tail newSeg) in
    let* sh := SteinerPoint result (Segment._head seg) in
    let* st := SteinerPoint result (Segment._tail seg) in
    let* _ := assert 964 (negb (DoColinearLinesIntersect nh nt sh st)) in
    let* ih := SteinerPoint result (Segment._head i2) in
    let* it := SteinerPoint result (Segment._tail i2) in
    let* _ := assert 969 (negb (DoColinearLinesIntersect nh nt ih it)) in
    let* _ := assert 974 (negb (DoColinearLinesIntersect ih it sh st)) in
    let* _ := assert 979 (negb (Segment._head newSeg =? Segment._tail newSeg)%N) in
    let* _ := assert 980 (negb (Segment._head i2 =? Segment._tail i2)%N) in
    assert 981 (negb (Segment._head seg =? Segment._tail seg)%N) in
  Returns (newSeg, seg, i2).

(** Lines 887-992: [seg] is compared against the segments already in
    [filteredSegments]; [done] are the ones passed, [todo] the ones from
    [i2] on.  Returns [filteredSegments], [seg], [filterOutSeg] and the
    stack [segmentsToTest]. *)
Fixpoint CompareAgainstFiltered (result : Skeleton) (done todo : list Segment.t)
    (seg : Segment.t) (A B : Vector2) (segmentsToTest : list Segment.t)
  : Outcome (list Segment.t * Segment.t * bool * list Segment.t) :=
  match todo with
  | [] => Returns (done, seg, false, segmentsToTest)
  | i2 :: rest =>
    if (Segment._head i2 =? Segment._head seg)%N && (Segment._tail i2 =? Segment._tail seg)%N
    then
      let i2 := if (Segment._leftFace i2 =? not0u)%N
                then Segment.mk (Segment._head i2) (Segment._tail i2) (Segment._leftFace seg)
                       (Segment._rightFace i2)
                else i2 in
      let i2 := if (Segment._rightFace i2 =? not0u)%N
                then Segment.mk (Segment._head i2) (Segment._tail i2) (Segment._leftFace i2)
                       (Segment._rightFace seg)
                else i2 in
      Returns (done ++ i2 :: rest, seg, true, segmentsToTest)
    else if (Segment._head i2 =? Segment._tail seg)%N
            && (Segment._tail i2 =? Segment._head seg)%N
    then
      let i2 := if (Segment._leftFace i2 =? not0u)%N
                then Segment.mk (Segment._head i2) (Segment._tail i2) (Segment._rightFace seg)
                       (Segment._rightFace i2)
                else i2 in
      let i2 := if (Segment._rightFace i2 =? not0u)%N
                then Segment.mk (Segment._head i2) (Segment._tail i2) (Segment._leftFace i2)
                       (Segment._leftFace seg)
                else i2 in
      Returns (done ++ i2 :: rest, seg, true, segmentsToTest)
    else
      let* C := SteinerPoint result (Segment._head i2) in
      let* D := SteinerPoint result (Segment._tail i2) in
      let closestC := ClosestPointOnLine2D A B C in
      let closestD := ClosestPointOnLine2D A B D in
      let COnLine := (closestC >? P0) && (closestC <? P1)
        && (MagnitudeSquared (vsub2 (LinearInterpolate A B closestC) C) <? GetEpsilon) in
      let DOnLine := (closestD >? P0) && (closestD <? P1)
        && (MagnitudeSquared (vsub2 (LinearInterpolate A B closestD) D) <? GetEpsilon) in
      if negb COnLine && negb DOnLine
      then CompareAgainstFiltered result (done ++ [i2]) rest seg A B segmentsToTest else
      let m0 := (y2 B - y2 A) / (x2 B - x2 A) in
      let m1 := (y2 D - y2 C) / (x2 D - x2 C) in
      if negb (Equivalent m0 m1 GetEpsilon)
      then CompareAgainstFiltered result (done ++ [i2]) rest seg A B segmentsToTest else
      let* (seg, i2, segmentsToTest) :=
        if (Segment._head i2 =? Segment._head seg)%N then
          if closestD <? P1
          then Returns (set_head seg (Segment._tail i2), i2, segmentsToTest)
          else Returns (seg, set_head i2 (Segment._tail seg), segmentsToTest)
        else if (Segment._head i2 =? Segment._tail seg)%N then
          if closestD >? P0
          then Returns (set_tail seg (Segment._tail i2), i2, segmentsToTest)
          else Returns (seg, set_head i2 (Segment._head seg), segmentsToTest)
        else if (Segment._tail i2 =? Segment._head seg)%N then
          if closestC <? P1
          then Returns (set_head seg (Segment._head i2), i2, segmentsToTest)
          else Returns (seg, set_tail i2 (Segment._tail seg), segmentsToTest)
        else if (Segment._tail i2 =? Segment._tail seg)%N then
          if closestC >? P0
          then Returns (set_tail seg (Segment._head i2), i2, segmentsToTest)
          else Returns (seg, set_tail i2 (Segment._head seg), segmentsToTest)
        else
          let* (newSeg, seg, i2) := SplitColinear result seg i2 closestC closestD in
          Returns (seg, i2, newSeg :: segmentsToTest) in
      let* A := SteinerPoint result (Segment._head seg) in
      let* B := SteinerPoint result (Segment._tail seg) in
      CompareAgainstFiltered result (done ++ [i2]) rest seg A B segmentsToTest
  end.

(** Lines 878-996: the [while (!segmentsToTest.empty())]; the top of the
    stack is the head of the list. *)
Fixpoint FilterSegments (fuel : nat) (result : Skeleton)
    (filteredSegments segmentsToTest : list Segment.t) : Outcome (list Segment.t) :=
  match segmentsToTest with
  | [] => Returns filteredSegments
  | seg :: segmentsToTest =>
    match fuel with
    | O => OutOfFuel
    | Datatypes.S fuel' =>
      let* A := SteinerPoint result (Segment._head seg) in
      let* B := SteinerPoint result (Segment._tail seg) in
      let* (filteredSegments, seg, filterOutSeg, segmentsToTest) :=
        CompareAgainstFiltered result [] filteredSegments seg A B segmentsToTest in
      FilterSegments fuel' result
        (if filterOutSeg : bool then filteredSegments else filteredSegments ++ [seg])
        segmentsToTest
    end
  end.

Definition WriteWavefront (fuel : nat) (graph : Graph) (result : Skeleton)
    (time : Primitive) : Outcome Skeleton :=
  let* (result, segmentsToTest) :=
    foldM (fun '(result, segmentsToTest) i =>
      let* head := at_ (Graph._vertices graph) (Segment._head i) in
      let* A := ClampedPositionAtTime head time in
      let* tail := at_ (Graph._vertices graph) (Segment._tail i) in
      let* B := ClampedPositionAtTime tail time in
      let* (v0, result) := AddSteinerVertex result A in
      let* (v1, result) := AddSteinerVertex result B in
      if negb (v0 =? v1)%N
      then Returns (result, Segment.mk v0 v1 (Segment._leftFace i) (Segment._rightFace i)
                              :: segmentsToTest)
      else Returns (result, segmentsToTest))
      (Graph._wavefrontEdges graph) (result, []) in
  let* filteredSegments := FilterSegments fuel result [] segmentsToTest in
  let* result :=
    foldM (fun result seg =>
      let* _ := assert 1000 (negb (Segment._head seg =? Segment._tail seg)%N) in
      AddEdge result (Segment._head seg) (Segment._tail seg) (Segment._leftFace seg)
        (Segment._rightFace seg) Wavefront)
      filteredSegments result in
  foldM (fun result seg =>
    foldM (fun result v =>
      let* vert := at_ (Graph._vertices graph) v in
      let* p := ClampedPositionAtTime vert time in
      let* (final, result) := AddSteinerVertex result p in
      AddEdgeForVertexPath graph result v final)
      [Segment._head seg; Segment._tail seg] result)
    (Graph._wavefrontEdges graph) result.

(** *** Entry points *)

(** The variables of CalculateSkeleton as its event loop is entered
    (lines 445-453). *)
Definition InitialSim (graph : Graph) : Sim :=
  mkSim graph
    (StraightSkeleton.mk []
       (replicate (length (Graph._boundaryPoints graph)) (Face.mk [])) [])
    P0 0.

Definition CalculateSkeleton (fuel : nat) (graph : Graph) (maxTime : Primitive)
  : Outcome Skeleton :=
  let result := StraightSkeleton.mk []
                  (replicate (length (Graph._boundaryPoints graph)) (Face.mk [])) [] in
  let* s := EventLoop fuel maxTime (mkSim graph result P0 0) in
  let maxTime := if maxTime =? numeric_max then lastEventTime s else maxTime in
  WriteWavefront fuel (graph_ s) (result_ s) maxTime.

Definition CalculateStraightSkeleton (fuel : nat) (vertices : list Vector2)
    (maxInset : Primitive) : Outcome Skeleton :=
  let* graph := BuildGraphFromVertexLoop vertices in
  CalculateSkeleton fuel graph maxInset.

(** Lines 1062-1068: the segment of [pool] that starts at [searching]. *)
Definition FindHit (pool : list (N * N)) (searching : N) : Outcome (option nat) :=
  foldM (fun hit '(i, seg) =>
    if (seg.1 =? searching)%N then
      let* _ := assert 1065 (bool_decide (hit = None)) in
      Returns (Some i)
    else Returns hit)
    (enumerate pool) None.

(** Lines 1059-1075: the inner [for (;;)] of AsVertexLoopsOrdered.  Every
    turn erases one segment of [pool]. *)
Fixpoint FollowLoop (fuel : nat) (pool : list (N * N)) (workingLoop : list N)
  : Outcome (list (N * N) * list N) :=
  match fuel with
  | O => OutOfFuel
  | Datatypes.S fuel' =>
    let* _ := assert 1060 (negb (bool_decide (pool = []))) in
    match last workingLoop with
    | None => UndefinedBehaviour
    | Some searching =>
      let* hit := FindHit pool searching in
      let* _ := assert 1069 (bool_decide (hit <> None)) in
      match hit with
      | None => UndefinedBehaviour
      | Some hit =>
        let* seg := at_nat pool hit in
        let newVert := seg.2 in
        let pool := erase_at hit pool in
        if bool_decide (newVert ∈ workingLoop) then Returns (pool, workingLoop)
        else FollowLoop fuel' pool (workingLoop ++ [newVert])
      end
    end
  end.

(** Lines 1051-1077: the outer [while (!pool.empty())]. *)
Fixpoint CollectLoops (fuel : nat) (pool : list (N * N)) (result : list (list N))
  : Outcome (list (list N)) :=
  match last pool with
  | None => Returns result
  | Some i =>
    match fuel with
    | O => OutOfFuel
    | Datatypes.S fuel' =>
      let workingLoop := [i.1; i.2] in
      let pool := removelast pool in
      let* (pool, workingLoop) := FollowLoop (Datatypes.S (length pool)) pool workingLoop in
      CollectLoops fuel' pool (result ++ [workingLoop])
    end
  end.

Definition AsVertexLoopsOrdered (segments : list (N * N)) : Outcome (list (list N)) :=
  CollectLoops (length segments) segments [].

Definition WavefrontAsVertexLoops (skeleton : Skeleton) : Outcome (list (list N)) :=
  let segmentSoup :=
    flat_map (fun f =>
      flat_map (fun e =>
        if bool_decide (Edge._type e = Wavefront)
        then [(Edge._head e, Edge._tail e)] else [])
        (Face._edges f))
      (StraightSkeleton._faces skeleton) in
  AsVertexLoopsOrdered segmentSoup.

End Code.

(** ** The [double] instantiation

    [Primitive = double] over the kernel's binary64 numbers.  The constants
    are written in hexadecimal so that they are exact: [1e-8] is the
    [double] nearest to it, [1e-6f] and [1e-3f] are the [float] values
    nearest to them, converted to [double].

    Modelled from the spec: [Equivalent] and [Normalize] are those of
    Math/Vector.h, which is not among the sources; [Equivalent] compares
    "within epsilon" (a difference strictly inside the tolerance, which for
    the integer epsilon 1 is exact comparison, as the design document says),
    and [Normalize] divides a vector by its length. *)

Module Double.
Local Open Scope float_scope.

Definition conv (n : N) : float := PrimFloat.of_uint63 (Uint63.of_Z (Z.of_N n)).
Definition max : float := 0x1.fffffffffffffp+1023.
Definition epsilon : float := 0x1.5798ee2308c3ap-27.
Definition f_1e_6 : float := 0x1.0c6f7ap-20.
Definition f_1e_3 : float := 0x1.0624dep-10.
Definition root (plus : bool) (a b K : float) : float :=
  let Q := PrimFloat.sqrt K in
  if plus then (- b + Q) / (2 * a) else (- b - Q) / (2 * a).
Definition equivalent (a b tolerance : float) : bool :=
  let d := a - b in (d <? tolerance) && (- tolerance <? d).
Definition normalize (v : Vector2T float) : Vector2T float :=
  let length := PrimFloat.sqrt (x2 v * x2 v + y2 v * y2 v) in
  Vec2 (x2 v / length) (y2 v / length).

#[export] Instance scalar : Scalar := {|
  Primitive := float;
  of_unsigned := conv;
  padd := PrimFloat.add;
  psub := PrimFloat.sub;
  pmul := PrimFloat.mul;
  pdiv := PrimFloat.div;
  pneg := PrimFloat.opp;
  pabs := PrimFloat.abs;
  plt := PrimFloat.ltb;
  ple := PrimFloat.leb;
  peq := PrimFloat.eqb;
  numeric_max := max;
  GetEpsilon := epsilon;
  lit_1e_6f := f_1e_6;
  lit_1e_3f := f_1e_3;
  lt_1e_3f := fun x => x <? f_1e_3;
  quadratic_root := root;
  IsFiniteNumber := PrimFloat.is_finite;
  Equivalent := equivalent;
  Normalize := normalize
|}.

Definition UnitSquare : list (Vector2T float) :=
  [Vec2 0 0; Vec2 1 0; Vec2 1 1; Vec2 0 1].

(** An L-shaped hexagon: the vertex 3, at (1,1), is the reflex one. *)
Definition LShape : list (Vector2T float) :=
  [Vec2 0 0; Vec2 2 0; Vec2 2 1; Vec2 1 1; Vec2 1 2; Vec2 0 2].

(** The vertices 0 and 1 of the graph of the unit square: the ends of its
    first edge. *)
Definition SquareVertex0 : Vertex.t float :=
  Vertex.mk (Vec2 0 0) 2147483648%N 0 (Vec2 1 1).
Definition SquareVertex1 : Vertex.t float :=
  Vertex.mk (Vec2 1 0) 2147483649%N 0 (Vec2 (-1) 1).

(** The vertices 2 and 4 of the graph of the L-shape: they move in
    parallel. *)
Definition LShapeVertex2 : Vertex.t float :=
  Vertex.mk (Vec2 2 1) 2147483650%N 0 (Vec2 (-1) (-1)).
Definition LShapeVertex4 : Vertex.t float :=
  Vertex.mk (Vec2 1 2) 2147483652%N 0 (Vec2 (-1) (-1)).

(** What [m] returns, for the [m] that are run here. *)
Definition returned {A} (m : Outcome A) (default : A) : A :=
  match m with Returns a => a | _ => default end.

Definition EmptyGraph : Graph.t float := Graph.mk [] [] [] [].

Definition LShapeGraph : Graph.t float :=
  Eval vm_compute in returned (BuildGraphFromVertexLoop DebugBuild LShape) EmptyGraph.

Definition UnitSquareGraph : Graph.t float :=
  Eval vm_compute in returned (BuildGraphFromVertexLoop DebugBuild UnitSquare) EmptyGraph.

(** The L-shape in the event loop: as the loop is entered, after its first
    turn (the crash of the motorcycle) and after its second (the
    collapses). *)
Definition LShapeSim0 : Sim := InitialSim LShapeGraph.

Definition LShapeSim1 : Sim :=
  Eval vm_compute in
    match returned (Iteration DebugBuild max LShapeSim0) None with
    | Some s => s
    | None => LShapeSim0
    end.

Definition LShapeSim2 : Sim :=
  Eval vm_compute in
    match returned (Iteration DebugBuild max LShapeSim1) None with
    | Some s => s
    | None => LShapeSim1
    end.

(** The vertex 3 of the L-shape as the crash leaves it. *)
Definition LShapeFrozenVertex : Vertex.t float :=
  Vertex.mk (Vec2 0.5 0.5) not0u 0.5 (Vec2 0 0).

(** The reflex vertex of the L-shape, as the builder leaves it. *)
Definition LShapeReflexVertex : Vertex.t float :=
  Vertex.mk (Vec2 1 1) 2147483651%N 0 (Vec2 (-1) (-1)).

Definition EmptySkeleton : StraightSkeleton.t float := StraightSkeleton.mk [] [] [].

Definition LShapeSkeleton : StraightSkeleton.t float :=
  Eval vm_compute in
    returned (CalculateStraightSkeleton DebugBuild 100 LShape max) EmptySkeleton.

Definition UnitSquareSkeleton : StraightSkeleton.t float :=
  Eval vm_compute in
    returned (CalculateStraightSkeleton DebugBuild 100 UnitSquare max) EmptySkeleton.

(** A dart: a counter-clockwise quadrilateral whose vertex 2, at (1,1), is
    the reflex one. *)
Definition Dart : list (Vector2T float) :=
  [Vec2 0 0; Vec2 2 1; Vec2 1 1; Vec2 1 2].

Definition DartGraph : Graph.t float :=
  Eval vm_compute in returned (BuildGraphFromVertexLoop ReleaseBuild Dart) EmptyGraph.

(** The dart in the event loop, without assertions: as the loop is
    entered, after its first turn (the crash of the motorcycle) and after
    its second (the collapses). *)
Definition DartSim0 : Sim := InitialSim DartGraph.

Definition DartSim1 : Sim :=
  Eval vm_compute in
    match returned (Iteration ReleaseBuild max DartSim0) None with
    | Some s => s
    | None => DartSim0
    end.

Definition DartSim2 : Sim :=
  Eval vm_compute in
    match returned (Iteration ReleaseBuild max DartSim1) None with
    | Some s => s
    | None => DartSim1
    end.

(** A dart of the size 2^32: its motorcycle crashes at a time at which
    the time plus epsilon is the time. *)
Definition BigDart : list (Vector2T float) :=
  [Vec2 0 0; Vec2 0x1p32 0x1p30; Vec2 0x1p30 0x1p30; Vec2 0x1p30 0x1p32].

Definition BigDartGraph : Graph.t float :=
  Eval vm_compute in returned (BuildGraphFromVertexLoop DebugBuild BigDart) EmptyGraph.

(** The first turn of the event loop on the big dart: [bestCollapseTime],
    and the crash of the motorcycle. *)
Definition BigDartCollapseTime : float :=
  Eval vm_compute in (returned (FindCollapses DebugBuild BigDartGraph 0) ([], 0)).2.

Definition BigDartCrash : CrashEvent.t float :=
  Eval vm_compute in
    match returned (FindCrashes DebugBuild BigDartGraph 0 BigDartCollapseTime) ([], 0) with
    | ((crash, _) :: _, _) => crash
    | _ => CrashEvent.mk 0 0%N
    end.


(** A thin trapezoid, counter-clockwise. *)
Definition ThinTrapezoid : list (Vector2T float) :=
  [Vec2 0 0; Vec2 4 0; Vec2 3 0x1p-20; Vec2 1 0x1p-20].

(** The unit square at the inset zero, without assertions. *)
Definition UnitSquareAtZero : StraightSkeleton.t float :=
  Eval vm_compute in
    returned (CalculateStraightSkeleton ReleaseBuild 100 UnitSquare 0) EmptySkeleton.

End Double.

(** ** Vocabulary of the properties *)

(** *** Loops of segments *)

(** The segments between the consecutive vertices of a chain. *)
Fixpoint PathSegments (w : list N) : list (N * N) :=
  match w with
  | a :: (b :: _) as w' => (a, b) :: PathSegments w'
  | _ => []
  end.

(** The segments of the closed loop through the vertices [w]: those of the
    chain, and the one from the last vertex back to the first. *)
Definition LoopSegments (w : list N) : list (N * N) :=
  match w with
  | [] => []
  | first :: _ => PathSegments (w ++ [first])
  end.

(** A set of segments that contains an open chain: the tail of one of its
    segments is the head of none. *)
Definition HasOpenChain (segments : list (N * N)) : Prop :=
  exists s, s ∈ segments /\ s.2 ∉ segments.*1.

(** A set of segments that forms closed chains only, without junctions: no
    vertex is the head of two segments or the tail of two, every tail is a
    head, and no segment ends where it starts. *)
Definition ClosedChains (segments : list (N * N)) : Prop :=
  NoDup segments.*1 /\ NoDup segments.*2
  /\ Forall (fun x => x ∈ segments.*1) segments.*2
  /\ Forall (fun s => s.1 <> s.2) segments.

(** The scan of FindHit from the position [k], with [hit] found before. *)
Definition ScanFrom (build : Build) (searching : N) (k : nat) (pool : list (N * N)) (hit : option nat)
  : Outcome (option nat) :=
  foldM (fun hit '(i, seg) =>
    if (seg.1 =? searching)%N then
      let* _ := assert_ build 1065 (bool_decide (hit = None)) in
      Returns (Some i)
    else Returns hit)
    (imap (fun i x => ((k + i)%nat, x)) pool) hit.

Section Vocabulary.
Context {S : Scalar}.
Local Open Scope prim_scope.

(** *** Collapse times, in the words of the design document *)

Inductive Axis := AxisX | AxisY.

Definition coord (a : Axis) (v : Vector2T Primitive) : Primitive :=
  match a with AxisX => x2 v | AxisY => y2 v end.

Definition other_axis (a : Axis) : Axis :=
  match a with AxisX => AxisY | AxisY => AxisX end.

(** "either vertex's velocity is within epsilon of zero (frozen)" *)
Definition WithinEpsilonOfZero (v : Vertex.t Primitive) : bool :=
  Equivalent2 (Vertex._velocity v) Zero2 GetEpsilon.

(** "the common calculation time" and the position of a vertex at it *)
Definition CommonTime (v0 v1 : Vertex.t Primitive) : Primitive :=
  std_min (Vertex._initialTime v0) (Vertex._initialTime v1).

Definition PositionAtCommonTime (v : Vertex.t Primitive) (calcTime : Primitive)
  : Vector2T Primitive :=
  vadd2 (Vertex._position v)
    (scalev2 (calcTime - Vertex._initialTime v) (Vertex._velocity v)).

(** "the single axis with the larger absolute velocity-difference
    component" (the y axis when the two are equal) *)
Definition LargerDifferenceAxis (v0 v1 : Vertex.t Primitive) : Axis :=
  if pabs (x2 (Vertex._velocity v0) - x2 (Vertex._velocity v1))
     >? pabs (y2 (Vertex._velocity v0) - y2 (Vertex._velocity v1))
  then AxisX else AxisY.

(** The [t] with [p0 + t*v0 == p1 + t*v1] on the axis [a]. *)
Definition MeetingTime (a : Axis) (v0 v1 : Vertex.t Primitive) : Primitive :=
  let calcTime := CommonTime v0 v1 in
  (coord a (PositionAtCommonTime v1 calcTime) - coord a (PositionAtCommonTime v0 calcTime))
  / (coord a (Vertex._velocity v0) - coord a (Vertex._velocity v1)).

(** The distance of the two vertices on the axis [a] at the time [t]. *)
Definition SeparationAt (a : Axis) (v0 v1 : Vertex.t Primitive) (t : Primitive) : Primitive :=
  let calcTime := CommonTime v0 v1 in
  coord a (PositionAtCommonTime v0 calcTime) + t * coord a (Vertex._velocity v0)
  - coord a (PositionAtCommonTime v1 calcTime) - t * coord a (Vertex._velocity v1).

(** "the two trajectories never meet within tolerance": the velocities
    differ by less than epsilon on the chosen axis, or at the meeting time
    of that axis the vertices are 1e-3 or more apart on the other axis. *)
Definition NeverMeet (v0 v1 : Vertex.t Primitive) : bool :=
  let a := LargerDifferenceAxis v0 v1 in
  (pabs (coord a (Vertex._velocity v0) - coord a (Vertex._velocity v1)) <? GetEpsilon)
  || negb (lt_1e_3f (pabs (SeparationAt (other_axis a) v0 v1 (MeetingTime a v0 v1)))).

(** *** Reflex vertices *)

(** The winding of the input vertex [v] with its predecessor and its
    successor on the loop. *)
Definition WindingAt (vertices : list (Vector2T Primitive)) (v : N) : option WindingType :=
  let n := size vertices in
  p0 ← vertices !! N.to_nat ((v + n - 1) mod n)%N;
  p1 ← vertices !! N.to_nat v;
  p2 ← vertices !! N.to_nat ((v + 1) mod n)%N;
  Some (CalculateWindingType p0 p1 p2 lit_1e_6f).

(** The input vertices that wind to the right, in the order of the loop. *)
Definition ReflexVertices (vertices : list (Vector2T Primitive)) : list N :=
  filter (fun v => WindingAt vertices v = Some Right) (indices (size vertices)).

(** The anchor of the input vertex [v] at the position [p], and the
    motorcycle segment from [v] to the anchor stored at [fixedVertex]. *)
Definition AnchorVertex (p : Vector2T Primitive) (v : N) : Vertex.t Primitive :=
  Vertex.mk p (N.lor BoundaryVertexFlag (u32 v)) P0 Zero2.

Definition MotorcycleOf (n : N) (v : N) (fixedVertex : nat) : MotorcycleSegment.t :=
  MotorcycleSegment.mk (u32 v) (u32 (N.of_nat fixedVertex)) (u32 ((v + n - 1) mod n)%N) (u32 v).

(** *** Skeleton edges *)

(** Every edge that the skeleton stores: the edge lists of the faces, then
    the unplaced edges. *)
Definition AllEdges (sk : StraightSkeleton.t Primitive) : list Edge.t :=
  concat (Face._edges <$> StraightSkeleton._faces sk)
  ++ StraightSkeleton._unplacedEdges sk.

(** The edges of one type as unordered pairs of indices (smaller first),
    each pair once: an edge is stored once for the face on each side, head
    and tail exchanged. *)
Definition UndirectedEdges (type : EdgeType) (sk : StraightSkeleton.t Primitive)
  : list (N * N) :=
  remove_dups
    ((fun e => (N.min (Edge._head e) (Edge._tail e), N.max (Edge._head e) (Edge._tail e)))
       <$> filter (fun e => Edge._type e = type) (AllEdges sk)).

(** The skeleton-vertex id of the input corner [v]. *)
Definition BoundaryVertex (v : N) : N := N.lor BoundaryVertexFlag v.

(** The (head, tail) pair of an edge: what AddUnique compares. *)
Definition EdgeKey (e : Edge.t) : N * N := (Edge._head e, Edge._tail e).

(** Every edge list of the skeleton, of a face or the unplaced one,
    satisfies [P]. *)
Definition EdgeLists (P : list Edge.t -> Prop) (sk : StraightSkeleton.t Primitive) : Prop :=
  Forall (fun f => P (Face._edges f)) (StraightSkeleton._faces sk)
  /\ P (StraightSkeleton._unplacedEdges sk).

(** *** The event loop *)

(** The sentinel is the largest time: a time below the sentinel plus epsilon
    does not exceed the sentinel.  (In floating point the sentinel plus
    epsilon is the sentinel.) *)
Definition SentinelIsLargest : Prop :=
  forall c : Primitive, (c <? numeric_max + GetEpsilon) = true -> (numeric_max <? c) = false.

(** The crashes within epsilon of [bestMotorcycleCrashTime] (lines 543-547). *)
Definition TiedCrashes (crashes : list (CrashEvent.t Primitive * nat))
    (bestMotorcycleCrashTime : Primitive) : list (CrashEvent.t Primitive * nat) :=
  List.filter (fun e => CrashEvent._time e.1 <? bestMotorcycleCrashTime + GetEpsilon) crashes.

(** A vertex as FreezeInPlace leaves it at the time [t]. *)
Definition FrozenAt (t : Primitive) (v : Vertex.t Primitive) : Prop :=
  Vertex._velocity v = Zero2 /\ Vertex._skeletonVertexId v = not0u
  /\ Vertex._initialTime v = t.

(** The vertices [vs] against the vertices [start] of the beginning of a
    turn of the event loop: a vertex of [start] is as it was, or it is one
    of the vertices [W] and frozen at the time [t]. *)
Definition Evolves (W : nat -> Prop) (t : Primitive) (start vs : list (Vertex.t Primitive))
  : Prop :=
  forall i v, start !! i = Some v ->
    vs !! i = Some v \/ (W i /\ exists v', vs !! i = Some v' /\ FrozenAt t v').

(** No event is due at the time zero: the first turn of the event loop
    on the graph of [vertices], with the time limit zero, finds no event to
    process and ends the loop. *)
Definition NoEventAtTimeZero (build : Build) (vertices : list (Vector2T Primitive)) : bool :=
  match BuildGraphFromVertexLoop build vertices with
  | Returns graph =>
    match Iteration build P0 (InitialSim graph) with
    | Returns None => true
    | _ => false
    end
  | _ => false
  end.

(** *** Further vocabulary: the graph, the skeleton and the loops *)

(** The wavefront edge of the input vertex [v] of a loop of [n] vertices:
    from [v], its tail, to the next vertex of the loop, its head, with the
    face [v] on its right and no face on its left (lines 168-173). *)
Definition LoopEdge (n v : N) : Segment.t :=
  Segment.mk (u32 ((v + 1) mod n)) (u32 v) not0u (u32 v).

(** The graph vertex [vert] is the one of the input vertex [v] (lines
    174-178): at its position, named by its boundary id, starting at the
    time zero with the velocity that its two neighbours on the loop give. *)
Definition LoopVertex (build : Build) (vertices : list (Vector2T Primitive)) (v : N)
    (vert : Vertex.t Primitive) : Prop :=
  let n := size vertices in
  exists p0 p1 p2,
    vertices !! N.to_nat ((v + n - 1) mod n) = Some p0
    /\ vertices !! N.to_nat v = Some p1
    /\ vertices !! N.to_nat ((v + 1) mod n) = Some p2
    /\ CalculateVertexVelocity build p0 p1 p2 = Returns (Vertex._velocity vert)
    /\ Vertex._position vert = p1
    /\ Vertex._skeletonVertexId vert = BoundaryVertex (u32 v)
    /\ Vertex._initialTime vert = P0.

(** What a scan that keeps the last segment satisfying [p] has picked from
    [edges]: no segment satisfies [p], or the one at the position picked
    does and none after it; in a build with assertions (the scan asserts
    that it picks once) none before it either. *)
Definition Picked (build : Build) (p : Segment.t -> bool) (edges : list Segment.t)
    (r : option nat) : Prop :=
  match r with
  | None => Forall (fun s => p s = false) edges
  | Some i =>
    exists s, edges !! i = Some s /\ p s = true
      /\ Forall (fun s => p s = false) (drop (Datatypes.S i) edges)
      /\ (NDEBUG build = false -> Forall (fun s => p s = false) (take i edges))
  end.

(** The (head, tail) pairs of all the edges of the skeleton. *)
Definition EdgeKeys (sk : StraightSkeleton.t Primitive) : list (N * N) :=
  EdgeKey <$> AllEdges sk.

(** Every edge is stored in both directions. *)
Definition HalfEdgePairs (sk : StraightSkeleton.t Primitive) : Prop :=
  forall h t, (h, t) ∈ EdgeKeys sk -> (t, h) ∈ EdgeKeys sk.

(** What the three assertions of AddSteinerVertex (lines 255-257) ask of a
    Steiner vertex. *)
Definition PassesSteinerAssertions (vertex : Vector3T Primitive) : bool :=
  (z3 vertex !=? P0)
  && (IsFiniteNumber (x3 vertex) && IsFiniteNumber (y3 vertex) && IsFiniteNumber (z3 vertex))
  && ((x3 vertex !=? numeric_max) && (y3 vertex !=? numeric_max)
      && (z3 vertex !=? numeric_max)).

(** The two ends of a segment are positions in a vector of [n] vertices. *)
Definition EndsWithin (n : nat) (head tail : N) : Prop :=
  (N.to_nat head < n)%nat /\ (N.to_nat tail < n)%nat.

(** Every wavefront edge and every motorcycle segment of the graph refers
    to vertices that the graph has. *)
Definition RefersToVertices (graph : Graph.t Primitive) : Prop :=
  Forall (fun e => EndsWithin (length (Graph._vertices graph))
                     (Segment._head e) (Segment._tail e))
    (Graph._wavefrontEdges graph)
  /\ Forall (fun m => EndsWithin (length (Graph._vertices graph))
                        (MotorcycleSegment._head m) (MotorcycleSegment._tail m))
       (Graph._motorcycleSegments graph).

(** What is left to do in the event loop: every crash uses up a motorcycle
    and adds at most two wavefront edges, every turn of collapses uses up
    wavefront edges. *)
Definition EventsLeft (graph : Graph.t Primitive) : nat :=
  3 * length (Graph._motorcycleSegments graph) + length (Graph._wavefrontEdges graph).

(** The segment [c] closes the chain [w]: it leaves the last vertex of the
    chain and ends on a vertex of the chain (lines 1071-1073). *)
Definition ClosesChain (w : list N) (c : N * N) : Prop :=
  last w = Some c.1 /\ c.2 ∈ w /\ (2 <= length w)%nat.

(** *** Further vocabulary: groups, ends and names of vertices *)

(** The entry [c] of [collapseGroups] names a group. *)
Definition Grouped (collapseGroups : list N) (c : nat) : Prop :=
  exists g, collapseGroups !! c = Some g /\ g <> not0u.

(** Both ends of a segment satisfy [P]. *)
Definition BothEnds (P : N -> Prop) (s : Segment.t) : Prop :=
  P (Segment._head s) /\ P (Segment._tail s).

(** The id of a skeleton vertex names a vertex: an input vertex, with
    BoundaryVertexFlag set and the position among the [n] input vertices in
    the other bits (line 1023), or one of the [m] Steiner vertices, by its
    position, with the flag clear. *)
Definition NamesVertex (n m id : N) : Prop :=
  (N.land id BoundaryVertexFlag <> 0
   /\ N.land id (N.lxor not0u BoundaryVertexFlag) < n)%N
  \/ (N.land id BoundaryVertexFlag = 0 /\ id < m)%N.

(** The skeleton has not lost a Steiner vertex or a face. *)
Definition Grows (sk sk' : StraightSkeleton.t Primitive) : Prop :=
  (length (StraightSkeleton._steinerVertices sk)
   <= length (StraightSkeleton._steinerVertices sk'))%nat
  /\ length (StraightSkeleton._faces sk') = length (StraightSkeleton._faces sk).

(** The skeleton has at most [m] Steiner vertices. *)
Definition Fits (m : N) (sk : StraightSkeleton.t Primitive) : Prop :=
  (size (StraightSkeleton._steinerVertices sk) <= m)%N.

(** Both ends of every edge of the skeleton name a vertex. *)
Definition EdgesNamed (n m : N) (sk : StraightSkeleton.t Primitive) : Prop :=
  forall k, k ∈ EdgeKeys sk -> NamesVertex n m k.1 /\ NamesVertex n m k.2.

(** Every vertex of the graph is frozen (its id is [~0u]) or has the id of
    a skeleton vertex. *)
Definition VertsNamed (n m : N) (vs : list (Vertex.t Primitive)) : Prop :=
  Forall (fun v => Vertex._skeletonVertexId v = not0u
                   \/ NamesVertex n m (Vertex._skeletonVertexId v)) vs.

End Vocabulary.

(** ** Proofs *)

(** *** The outcome monad *)

Lemma obind_Returns {A B} (m : Outcome A) (k : A -> Outcome B) (b : B) :
  obind m k = Returns b -> exists a, m = Returns a /\ k a = Returns b.
Proof. destruct m; simpl; intros H; try discriminate. eauto. Qed.

Lemma assert_true (b : Build) (line : N) (c : bool) :
  NDEBUG b = false -> assert_ b line c = Returns tt -> c = true.
Proof.
  unfold assert_. intros ->. destruct c; [reflexivity | discriminate].
Qed.

Lemma assert_false (b : Build) (line : N) :
  NDEBUG b = false -> assert_ b line false = AssertionFailed line.
Proof. unfold assert_. intros ->. reflexivity. Qed.

Lemma assert_pass (b : Build) (line : N) : assert_ b line true = Returns tt.
Proof. unfold assert_. destruct (NDEBUG b); reflexivity. Qed.

(** Takes a hypothesis [H : m = Returns v] apart along the binds of [m]. *)
Ltac inv_ret H :=
  let a := fresh "a" in
  let H1 := fresh "E" in
  lazymatch type of H with
  | obind _ _ = Returns _ =>
    apply obind_Returns in H; destruct H as (a & H1 & H); inv_ret H
  | _ => idtac
  end.

Lemma Returns_inj {A} (a b : A) : Returns a = Returns b -> a = b.
Proof. congruence. Qed.

(** Takes [H : m = Returns v] apart along the binds, the conditionals and the
    matches of [m], down to the calls of named functions. *)
Ltac mdestruct H :=
  lazymatch type of H with
  | obind _ _ = Returns _ =>
    let a := fresh "a" in
    let E := fresh "E" in
    apply obind_Returns in H; destruct H as (a & E & H); mdestruct E; mdestruct H
  | Returns _ = Returns _ => apply Returns_inj in H
  | AssertionFailed _ = Returns _ => discriminate H
  | UndefinedBehaviour = Returns _ => discriminate H
  | OutOfFuel = Returns _ => discriminate H
  | (if ?c then _ else _) = Returns _ => destruct c eqn:?; mdestruct H
  | (match ?x with _ => _ end) = Returns _ => destruct x eqn:?; mdestruct H
  | _ => idtac
  end.

Lemma foldM_preserves {A St} (P : St -> Prop) (body : St -> A -> Outcome St) l s s' :
  (forall s x s', P s -> body s x = Returns s' -> P s') ->
  P s -> foldM body l s = Returns s' -> P s'.
Proof.
  intros Hbody. revert s. induction l as [| x l IH]; intros s Hs H; simpl in H.
  - injection H as <-. exact Hs.
  - apply obind_Returns in H as (s1 & H1 & H). eauto.
Qed.

(** *** C3: collapse times *)

Section CollapseTime.
Context {S : Scalar}.
Local Open Scope prim_scope.

(** What CalculateCollapseTime returns for the two vertices of an edge:
    the sentinel [numeric_max] when a velocity is within epsilon of zero,
    and otherwise the common calculation time plus what the overload on
    positions and velocities returns: the [t] that solves
    [p0 + t*v0 == p1 + t*v1] on the axis of the larger velocity difference,
    or, for trajectories that never meet, the sentinel.  So for
    trajectories that never meet the result is the sentinel only when the
    sentinel absorbs the calculation time (line 242 adds the one to the
    other). *)
Theorem CalculateCollapseTime_cases (v0 v1 : Vertex.t Primitive) :
  (WithinEpsilonOfZero v0 = true \/ WithinEpsilonOfZero v1 = true ->
   CalculateCollapseTime v0 v1 = numeric_max)
  /\ (WithinEpsilonOfZero v0 = false -> WithinEpsilonOfZero v1 = false ->
      NeverMeet v0 v1 = true ->
      CalculateCollapseTime v0 v1 = CommonTime v0 v1 + numeric_max
      /\ (CommonTime v0 v1 + numeric_max = numeric_max ->
          CalculateCollapseTime v0 v1 = numeric_max))
  /\ (WithinEpsilonOfZero v0 = false -> WithinEpsilonOfZero v1 = false ->
      NeverMeet v0 v1 = false ->
      CalculateCollapseTime v0 v1
      = CommonTime v0 v1 + MeetingTime (LargerDifferenceAxis v0 v1) v0 v1).
Proof.
  unfold CalculateCollapseTime, WithinEpsilonOfZero.
  split; [| split].
  - intros [-> | H1]; [reflexivity |].
    destruct (Equivalent2 (Vertex._velocity v0) Zero2 GetEpsilon); [reflexivity |].
    rewrite H1. reflexivity.
  - intros -> ->. unfold NeverMeet, LargerDifferenceAxis, CalculateCollapseTime_pv.
    fold (CommonTime v0 v1). intros H.
    assert (forall r, r = CommonTime v0 v1 + numeric_max ->
              r = CommonTime v0 v1 + numeric_max
              /\ (CommonTime v0 v1 + numeric_max = numeric_max -> r = numeric_max))
      as Hboth by (intros r ->; auto).
    apply Hboth. clear Hboth.
    destruct (pabs (x2 (Vertex._velocity v0) - x2 (Vertex._velocity v1))
              >? pabs (y2 (Vertex._velocity v0) - y2 (Vertex._velocity v1))); simpl in *.
    + destruct (pabs (x2 (Vertex._velocity v0) - x2 (Vertex._velocity v1)) <? GetEpsilon);
        [reflexivity |].
      simpl in H. unfold SeparationAt, MeetingTime in H. simpl in H.
      apply negb_true_iff in H. unfold PositionAtCommonTime in H. rewrite H.
      reflexivity.
    + destruct (pabs (y2 (Vertex._velocity v0) - y2 (Vertex._velocity v1)) <? GetEpsilon);
        [reflexivity |].
      simpl in H. unfold SeparationAt, MeetingTime in H. simpl in H.
      apply negb_true_iff in H. unfold PositionAtCommonTime in H. rewrite H.
      reflexivity.
  - intros -> ->. unfold NeverMeet, LargerDifferenceAxis, CalculateCollapseTime_pv.
    fold (CommonTime v0 v1). intros H.
    destruct (pabs (x2 (Vertex._velocity v0) - x2 (Vertex._velocity v1))
              >? pabs (y2 (Vertex._velocity v0) - y2 (Vertex._velocity v1))); simpl in *.
    + apply orb_false_iff in H as [-> H]. apply negb_false_iff in H.
      unfold SeparationAt, MeetingTime, PositionAtCommonTime in H. simpl in H.
      rewrite H. reflexivity.
    + apply orb_false_iff in H as [-> H]. apply negb_false_iff in H.
      unfold SeparationAt, MeetingTime, PositionAtCommonTime in H. simpl in H.
      rewrite H. reflexivity.
Qed.

End CollapseTime.

(** *** C2: reflex vertices and motorcycles *)

Section Builder.
Context {S : Scalar}.
Variable build : Build.
Local Open Scope prim_scope.

Lemma at_Returns {A} (l : list A) (i : N) (x : A) :
  at_ l i = Returns x <-> l !! N.to_nat i = Some x.
Proof.
  unfold at_, at_nat. destruct (l !! N.to_nat i); split; intros H; congruence.
Qed.

Lemma BuildEdgeAndVertex_length vertices l edges verts edges' verts' :
  foldM (BuildEdgeAndVertex build vertices) l (edges, verts) = Returns (edges', verts') ->
  length verts' = (length verts + length l)%nat.
Proof.
  revert edges verts. induction l as [| v l IH]; intros edges verts H; simpl in H.
  - injection H as _ <-. simpl. lia.
  - apply obind_Returns in H as ([edges1 verts1] & Hstep & H).
    apply IH in H. rewrite H. unfold BuildEdgeAndVertex in Hstep. inv_ret Hstep.
    injection Hstep as _ <-. rewrite length_app. simpl. lia.
Qed.

(** The second loop appends, for the reflex vertices among [l] and in their
    order, one anchor each and one motorcycle segment each. *)
Lemma BuildMotorcycle_spec vertices l verts ms verts' ms' :
  foldM (BuildMotorcycle vertices) l (verts, ms) = Returns (verts', ms') ->
  let reflex := filter (fun v => WindingAt vertices v = Some Right) l in
  exists anchors,
    verts' = verts ++ anchors
    /\ Forall2 (fun v a => exists p, vertices !! N.to_nat v = Some p /\ a = AnchorVertex p v)
         reflex anchors
    /\ ms' = ms ++ imap (fun k v => MotorcycleOf (size vertices) v (length verts + k)) reflex.
Proof.
  revert verts ms. induction l as [| v l IH]; intros verts ms H; simpl in H.
  - injection H as <- <-. exists []. rewrite !app_nil_r. repeat split. constructor.
  - apply obind_Returns in H as ([verts1 ms1] & Hstep & H).
    apply IH in H as (anchors & -> & Hanchors & ->). clear IH.
    unfold BuildMotorcycle in Hstep.
    apply obind_Returns in Hstep as (p0 & Hp0 & Hstep).
    apply obind_Returns in Hstep as (p1 & Hp1 & Hstep).
    apply obind_Returns in Hstep as (p2 & Hp2 & Hstep).
    apply at_Returns in Hp0, Hp1, Hp2.
    assert (Hw : WindingAt vertices v = Some (CalculateWindingType p0 p1 p2 lit_1e_6f)).
    { unfold WindingAt. rewrite Hp0. simpl. rewrite Hp1. simpl. rewrite Hp2. reflexivity. }
    simpl. rewrite filter_cons. destruct (decide (CalculateWindingType p0 p1 p2 lit_1e_6f = Right)) as [Hr | Hr].
    + apply obind_Returns in Hstep as (p & Hp & Hstep). apply at_Returns in Hp.
      injection Hstep as <- <-.
      rewrite decide_True by (rewrite Hw, Hr; reflexivity).
      eexists (_ :: anchors). rewrite <- !app_assoc. simpl. split; [reflexivity |]. split.
      * constructor; [| exact Hanchors]. eauto.
      * f_equal. f_equal.
        -- unfold MotorcycleOf, size. rewrite Nat.add_0_r. reflexivity.
        -- apply imap_ext. intros k x _. simpl. rewrite length_app. simpl.
           f_equal. lia.
    + injection Hstep as <- <-.
      rewrite decide_False by (rewrite Hw; congruence).
      exists anchors. auto.
Qed.

(** C2.  BuildGraphFromVertexLoop appends, after the [n] vertices of the
    loop, one anchor vertex for every input vertex that winds to the right
    (at its position, with zero velocity and initial time 0), and creates
    one motorcycle segment from that vertex to its anchor, and nothing else;
    so a loop with no vertex winding to the right gets no motorcycle
    segment. *)
Theorem reflex_vertices_get_motorcycles (vertices : list (Vector2T Primitive))
    (g : Graph.t Primitive) :
  BuildGraphFromVertexLoop build vertices = Returns g ->
  let n := length vertices in
  let reflex := ReflexVertices vertices in
  length (Graph._vertices g) = (n + length reflex)%nat
  /\ length (Graph._motorcycleSegments g) = length reflex
  /\ (forall k v, reflex !! k = Some v ->
        exists p, vertices !! N.to_nat v = Some p
          /\ Graph._vertices g !! (n + k)%nat = Some (AnchorVertex p v)
          /\ Graph._motorcycleSegments g !! k
             = Some (MotorcycleOf (size vertices) v (n + k)))
  /\ (reflex = [] -> Graph._motorcycleSegments g = []).
Proof.
  intros H n reflex. unfold BuildGraphFromVertexLoop in H.
  apply obind_Returns in H as (_ & _ & H).
  apply obind_Returns in H as ([edges verts] & Hfirst & H).
  apply obind_Returns in H as ([verts' ms] & Hsecond & H).
  injection H as <-. simpl.
  apply BuildEdgeAndVertex_length in Hfirst. simpl in Hfirst.
  assert (Hn : length verts = n).
  { rewrite Hfirst. unfold indices, size. rewrite length_fmap, length_seq. lia. }
  apply BuildMotorcycle_spec in Hsecond as (anchors & -> & Hanchors & ->).
  fold (ReflexVertices vertices) in Hanchors. fold reflex in Hanchors |- *.
  pose proof (Forall2_length _ _ _ Hanchors) as Hlen.
  simpl. rewrite length_app, length_imap, Hn. repeat split.
  - lia.
  - intros k v Hk.
    destruct (Forall2_lookup_l _ _ _ _ _ Hanchors Hk) as (a & Ha & p & Hp & ->).
    exists p. split; [exact Hp |]. split.
    + rewrite lookup_app_r by lia. replace (n + k - length verts)%nat with k by lia.
      exact Ha.
    + rewrite list_lookup_imap. unfold reflex, ReflexVertices in Hk. rewrite Hk.
      reflexivity.
  - intros Hr. unfold reflex, ReflexVertices in Hr. rewrite Hr. reflexivity.
Qed.

End Builder.

(** *** C8: loops from a soup of segments *)

Section Loops.
Variable build : Build.

Abbreviation ScanFrom := (ScanFrom build).

Lemma FindHit_ScanFrom pool searching :
  FindHit build pool searching = ScanFrom searching 0 pool None.
Proof. reflexivity. Qed.

Lemma ScanFrom_cons searching k x pool hit :
  ScanFrom searching k (x :: pool) hit =
  if (x.1 =? searching)%N then
    let* _ := assert_ build 1065 (bool_decide (hit = None)) in
    ScanFrom searching (Datatypes.S k) pool (Some k)
  else ScanFrom searching (Datatypes.S k) pool hit.
Proof.
  unfold ScanFrom. simpl. rewrite Nat.add_0_r.
  assert (E : imap ((fun i x => ((k + i)%nat, x)) ∘ Datatypes.S) pool
              = imap (fun i (x : N * N) => ((Datatypes.S k + i)%nat, x)) pool).
  { apply imap_ext. intros i y _. simpl. f_equal. lia. }
  rewrite E. destruct (x.1 =? searching)%N; [| reflexivity].
  destruct (assert_ build 1065 (bool_decide (hit = None))); reflexivity.
Qed.

Lemma ScanFrom_no_match searching k pool hit :
  searching ∉ pool.*1 -> ScanFrom searching k pool hit = Returns hit.
Proof.
  revert k. induction pool as [| x pool IH]; intros k Hn; [reflexivity |].
  rewrite ScanFrom_cons. rewrite fmap_cons, not_elem_of_cons in Hn. destruct Hn as [Hx Hn].
  destruct (N.eqb_spec x.1 searching) as [E | _]; [congruence |]. auto.
Qed.

Lemma ScanFrom_unique searching k pool i y :
  NoDup pool.*1 -> pool !! i = Some (searching, y) ->
  ScanFrom searching k pool None = Returns (Some (k + i)%nat).
Proof.
  revert k i. induction pool as [| x pool IH]; intros k i Hnd Hi; [discriminate |].
  rewrite ScanFrom_cons. rewrite fmap_cons in Hnd. apply NoDup_cons in Hnd as [Hx Hnd].
  destruct i as [| i]; simpl in Hi.
  - injection Hi as ->. simpl. rewrite N.eqb_refl, assert_pass. simpl.
    rewrite ScanFrom_no_match by exact Hx. f_equal. f_equal. lia.
  - destruct (N.eqb_spec x.1 searching) as [E | _].
    + exfalso. apply Hx. rewrite E. apply list_elem_of_fmap. exists (searching, y).
      split; [reflexivity |]. eapply list_elem_of_lookup_2; eassumption.
    + rewrite (IH (Datatypes.S k) i Hnd Hi). f_equal. f_equal. lia.
Qed.

(** What the scan can give: the hit it had when nothing of [pool] starts
    at [searching], a position of [pool] where such a segment is, or the
    failure of the assertion of line 1065. *)
Lemma ScanFrom_cases searching k pool hit :
  (ScanFrom searching k pool hit = Returns hit /\ searching ∉ pool.*1)
  \/ (exists i y, ScanFrom searching k pool hit = Returns (Some (k + i)%nat)
                 /\ pool !! i = Some (searching, y))
  \/ ScanFrom searching k pool hit = AssertionFailed 1065.
Proof.
  revert k hit. induction pool as [| x pool IH]; intros k hit.
  - left. split; [reflexivity | apply not_elem_of_nil].
  - rewrite ScanFrom_cons. destruct (N.eqb_spec x.1 searching) as [E | E].
    + unfold assert_. destruct (NDEBUG build) eqn:Hb; simpl.
      * destruct (IH (Datatypes.S k) (Some k)) as [[H1 H2] | [(i & y & H1 & H2) | H]].
        -- right. left. exists 0%nat, x.2. rewrite H1, Nat.add_0_r. split; [reflexivity |].
           simpl. destruct x; simpl in *; congruence.
        -- right. left. exists (Datatypes.S i), y. rewrite H1. split; [| exact H2].
           f_equal. f_equal. lia.
        -- auto.
      * destruct hit as [h |]; simpl; [auto |].
        destruct (IH (Datatypes.S k) (Some k)) as [[H1 H2] | [(i & y & H1 & H2) | H]].
        -- right. left. exists 0%nat, x.2. rewrite H1, Nat.add_0_r. split; [reflexivity |].
           simpl. destruct x; simpl in *; congruence.
        -- right. left. exists (Datatypes.S i), y. rewrite H1. split; [| exact H2].
           f_equal. f_equal. lia.
        -- auto.
    + destruct (IH (Datatypes.S k) hit) as [[H1 H2] | [(i & y & H1 & H2) | H]].
      * left. split; [exact H1 |]. rewrite fmap_cons, not_elem_of_cons. auto.
      * right. left. exists (Datatypes.S i), y. rewrite H1. split; [| exact H2].
        f_equal. f_equal. lia.
      * auto.
Qed.


Lemma assert_cases (line : N) (c : bool) :
  assert_ build line c = Returns tt \/ assert_ build line c = AssertionFailed line.
Proof. unfold assert_. destruct (NDEBUG build), c; auto. Qed.

Lemma FindHit_cases searching pool :
  (ScanFrom searching 0 pool None = Returns None /\ searching ∉ pool.*1)
  \/ (exists i y, ScanFrom searching 0 pool None = Returns (Some i)
                 /\ pool !! i = Some (searching, y))
  \/ ScanFrom searching 0 pool None = AssertionFailed 1065.
Proof. exact (ScanFrom_cases searching 0 pool None). Qed.

Ltac case_assert :=
  match goal with
  | |- context [assert_ build ?l ?c] =>
    destruct (assert_cases l c) as [-> | ->]; cbn [obind]
  end.

Ltac case_assert_in H :=
  let E := fresh "E" in
  match type of H with
  | context [assert_ build ?l ?c] =>
    destruct (assert_cases l c) as [E | E]; rewrite E in H; clear E; cbn [obind] in H
  end.

(** One turn of FollowLoop, by the cases of the scan. *)
Lemma FollowLoop_turn fuel pool w searching :
  last w = Some searching ->
  FollowLoop build (Datatypes.S fuel) pool w =
  let* _ := assert_ build 1060 (negb (bool_decide (pool = []))) in
  let* hit := ScanFrom searching 0 pool None in
  let* _ := assert_ build 1069 (bool_decide (hit <> None)) in
  match hit with
  | None => UndefinedBehaviour
  | Some hit =>
    let* seg := at_nat pool hit in
    if bool_decide (seg.2 ∈ w) then Returns (erase_at hit pool, w)
    else FollowLoop build fuel (erase_at hit pool) (w ++ [seg.2])
  end.
Proof. intros H. simpl. rewrite H. reflexivity. Qed.

Lemma FollowLoop_total fuel pool w :
  (length pool < fuel)%nat -> FollowLoop build fuel pool w <> OutOfFuel.
Proof.
  revert pool w. induction fuel as [| fuel IH]; intros pool w Hlen; [lia |].
  destruct (last w) as [searching |] eqn:Hlast;
    [| simpl; rewrite Hlast; case_assert; discriminate].
  rewrite (FollowLoop_turn _ _ _ _ Hlast).
  case_assert; [| discriminate].
  destruct (FindHit_cases searching pool) as [[-> _] | [(i & y & -> & Hi) | ->]];
    cbn [obind]; [| | discriminate].
  - case_assert; discriminate.
  - case_assert; [| discriminate].
    unfold at_nat. rewrite Hi. cbn [obind snd]. destruct (bool_decide (y ∈ w)); [discriminate |].
    apply IH. unfold erase_at. rewrite length_delete by eauto.
    apply lookup_lt_Some in Hi. lia.
Qed.

Lemma FollowLoop_shrinks fuel pool w pool' w' :
  FollowLoop build fuel pool w = Returns (pool', w') -> (length pool' < length pool)%nat.
Proof.
  revert pool w. induction fuel as [| fuel IH]; intros pool w H; [discriminate |].
  destruct (last w) as [searching |] eqn:Hlast;
    [| simpl in H; rewrite Hlast in H; case_assert_in H; discriminate].
  rewrite (FollowLoop_turn _ _ _ _ Hlast) in H.
  case_assert_in H; [| discriminate].
  destruct (FindHit_cases searching pool) as [[E1 _] | [(i & y & E1 & Hi) | E1]];
    rewrite E1 in H; cbn [obind] in H; [| | discriminate].
  - case_assert_in H; discriminate.
  - case_assert_in H; [| discriminate].
    unfold at_nat in H. rewrite Hi in H. cbn [obind snd] in H.
    pose proof (lookup_lt_Some _ _ _ Hi) as Hlt.
    assert (Hd : length (erase_at i pool) = (length pool - 1)%nat).
    { unfold erase_at. apply length_delete. eauto. }
    destruct (bool_decide (y ∈ w)).
    + injection H as <- <-. lia.
    + apply IH in H. lia.
Qed.

Lemma CollectLoops_turn fuel pool result i :
  last pool = Some i ->
  CollectLoops build (Datatypes.S fuel) pool result =
  let* (pool', w) := FollowLoop build (Datatypes.S (length (removelast pool)))
                       (removelast pool) [i.1; i.2] in
  CollectLoops build fuel pool' (result ++ [w]).
Proof. intros H. cbn [CollectLoops]. rewrite H. reflexivity. Qed.

Lemma CollectLoops_nil fuel result : CollectLoops build fuel [] result = Returns result.
Proof. destruct fuel; reflexivity. Qed.

Lemma length_removelast {A} (l : list A) : length (removelast l) = (length l - 1)%nat.
Proof.
  destruct l as [| x l] using rev_ind; [reflexivity |].
  rewrite removelast_last, length_app. simpl. lia.
Qed.

Lemma CollectLoops_total fuel pool result :
  (length pool <= fuel)%nat -> CollectLoops build fuel pool result <> OutOfFuel.
Proof.
  revert pool result. induction fuel as [| fuel IH]; intros pool result Hlen.
  - destruct pool; [simpl; discriminate | simpl in Hlen; lia].
  - destruct (last pool) as [i |] eqn:Hlast.
    + rewrite (CollectLoops_turn _ _ _ _ Hlast).
      pose proof (length_removelast pool) as Hrl.
      destruct (FollowLoop build (Datatypes.S (length (removelast pool))) (removelast pool)
                  [i.1; i.2]) as [[pool' w'] | | |] eqn:E; cbn [obind]; try discriminate.
      * apply IH. apply FollowLoop_shrinks in E. lia.
      * exfalso. revert E. apply FollowLoop_total. lia.
    + apply last_None in Hlast as ->. rewrite CollectLoops_nil. discriminate.
Qed.

(** AsVertexLoopsOrdered always ends. *)
Lemma AsVertexLoopsOrdered_total segments :
  AsVertexLoopsOrdered build segments <> OutOfFuel.
Proof. apply CollectLoops_total. lia. Qed.


(** **** Chains and loops of segments *)

Lemma PathSegments_snoc w vk y :
  last w = Some vk -> PathSegments (w ++ [y]) = PathSegments w ++ [(vk, y)].
Proof.
  induction w as [| a [| b w] IH]; intros H; [discriminate | |].
  - injection H as ->. reflexivity.
  - change (PathSegments ((a :: b :: w) ++ [y]))
      with ((a, b) :: PathSegments ((b :: w) ++ [y])).
    rewrite IH by exact H. reflexivity.
Qed.

Lemma PathSegments_fst w : (PathSegments w).*1 = removelast w.
Proof.
  induction w as [| a [| b w] IH]; [reflexivity | reflexivity |].
  change (PathSegments (a :: b :: w)) with ((a, b) :: PathSegments (b :: w)).
  rewrite fmap_cons, IH. reflexivity.
Qed.

Lemma PathSegments_snd w : (PathSegments w).*2 = tail w.
Proof.
  induction w as [| a [| b w] IH]; [reflexivity | reflexivity |].
  change (PathSegments (a :: b :: w)) with ((a, b) :: PathSegments (b :: w)).
  rewrite fmap_cons, IH. reflexivity.
Qed.

Lemma LoopSegments_last first w vk :
  last (first :: w) = Some vk ->
  LoopSegments (first :: w) = PathSegments (first :: w) ++ [(vk, first)].
Proof. intros H. unfold LoopSegments. apply PathSegments_snoc, H. Qed.

Lemma LoopSegments_fst w : (LoopSegments w).*1 = w.
Proof.
  destruct w as [| first w]; [reflexivity |].
  unfold LoopSegments. rewrite PathSegments_fst. apply removelast_last.
Qed.

Lemma LoopSegments_snd w : (LoopSegments w).*2 ≡ₚ w.
Proof.
  destruct w as [| first w]; [reflexivity |].
  unfold LoopSegments. rewrite PathSegments_snd. simpl.
  symmetry. apply Permutation_cons_append.
Qed.

Lemma ClosedChains_rest orig w pool :
  ClosedChains orig -> LoopSegments w ++ pool ≡ₚ orig -> ClosedChains pool.
Proof.
  intros (Hh & Ht & Hc & Hs) Hp.
  assert (Hp1 : (LoopSegments w).*1 ++ pool.*1 ≡ₚ orig.*1)
    by (rewrite <- fmap_app; apply fmap_Permutation, Hp).
  assert (Hp2 : (LoopSegments w).*2 ++ pool.*2 ≡ₚ orig.*2)
    by (rewrite <- fmap_app; apply fmap_Permutation, Hp).
  rewrite <- Hp1 in Hh. rewrite <- Hp2 in Ht.
  apply NoDup_app in Hh as (_ & _ & Hh). apply NoDup_app in Ht as (_ & Hdisj & Ht').
  repeat split; [exact Hh | exact Ht' | |].
  - rewrite Forall_forall. intros x Hx.
    assert (Hx1 : x ∈ orig.*1).
    { rewrite Forall_forall in Hc. apply Hc. rewrite <- Hp2. apply elem_of_app. auto. }
    rewrite <- Hp1 in Hx1. apply elem_of_app in Hx1 as [Hx1 | Hx1]; [| exact Hx1].
    exfalso. apply (Hdisj x); [| exact Hx].
    rewrite LoopSegments_snd. rewrite LoopSegments_fst in Hx1. exact Hx1.
  - rewrite <- Hp in Hs. apply Forall_app in Hs as [_ Hs]. exact Hs.
Qed.

Lemma FollowLoop_closed orig fuel pool w :
  ClosedChains orig -> (length pool < fuel)%nat -> NoDup w -> (2 <= length w)%nat ->
  PathSegments w ++ pool ≡ₚ orig ->
  exists pool' w',
    FollowLoop build fuel pool w = Returns (pool', w')
    /\ NoDup w' /\ (2 <= length w')%nat /\ LoopSegments w' ++ pool' ≡ₚ orig.
Proof.
  intros Hclosed. pose proof Hclosed as (Hh & Ht & Hc & _).
  revert pool w. induction fuel as [| fuel IH]; intros pool w Hlen Hnd Hw Hp; [lia |].
  destruct w as [| first w']; [simpl in Hw; lia |].
  destruct (last (first :: w')) as [vk |] eqn:Hlast;
    [| apply last_None in Hlast; discriminate].
  pose proof Hlast as (w0 & Hw0)%last_Some.
  assert (Hp1 : removelast (first :: w') ++ pool.*1 ≡ₚ orig.*1).
  { rewrite <- PathSegments_fst, <- fmap_app. apply fmap_Permutation, Hp. }
  assert (Hp2 : tail (first :: w') ++ pool.*2 ≡ₚ orig.*2).
  { rewrite <- PathSegments_snd, <- fmap_app. apply fmap_Permutation, Hp. }
  rewrite Hw0 in Hp1. rewrite removelast_last in Hp1.
  (* the last vertex is the tail of a segment of the chain *)
  assert (Hvk : vk ∈ pool.*1).
  { assert (H2 : vk ∈ orig.*2).
    { rewrite <- Hp2. apply elem_of_app. left. simpl.
      destruct w0 as [| a w0]; [simpl in Hw0; injection Hw0 as -> ->; simpl in Hw; lia |].
      simpl in Hw0. injection Hw0 as -> ->. apply elem_of_app. right. apply list_elem_of_singleton.
      reflexivity. }
    rewrite Forall_forall in Hc. apply Hc in H2. rewrite <- Hp1 in H2.
    apply elem_of_app in H2 as [H2 | H2]; [| exact H2].
    exfalso. rewrite Hw0 in Hnd. apply NoDup_app in Hnd as (_ & Hd & _).
    apply (Hd vk H2). apply list_elem_of_singleton. reflexivity. }
  apply list_elem_of_fmap in Hvk as ([x y] & Hx & Hin). simpl in Hx. subst x.
  apply list_elem_of_lookup in Hin as (i & Hi).
  assert (Hndp : NoDup pool.*1).
  { rewrite <- Hp1 in Hh. apply NoDup_app in Hh as (_ & _ & Hh). exact Hh. }
  rewrite (FollowLoop_turn _ _ _ _ Hlast).
  match goal with |- context [assert_ build 1060 ?c] => replace c with true end.
  2:{ symmetry. apply negb_true_iff, bool_decide_eq_false. intros ->. discriminate. }
  rewrite assert_pass. cbn [obind].
  rewrite (ScanFrom_unique vk 0 pool i y Hndp Hi). cbn [obind]. simpl (0 + i)%nat.
  match goal with |- context [assert_ build 1069 ?c] => replace c with true end.
  2:{ symmetry. apply bool_decide_eq_true. discriminate. }
  rewrite assert_pass. cbn [obind]. unfold at_nat. rewrite Hi. cbn [obind snd].
  assert (Hdel : pool ≡ₚ (vk, y) :: erase_at i pool).
  { unfold erase_at. apply delete_Permutation, Hi. }
  pose proof (lookup_lt_Some _ _ _ Hi) as Hlt.
  assert (Hdlen : length (erase_at i pool) = (length pool - 1)%nat).
  { unfold erase_at. apply length_delete. eauto. }
  destruct (bool_decide_reflect (y ∈ first :: w')) as [Hy | Hy].
  - (* the loop is closed: [y] can only be the first vertex *)
    assert (y = first) as ->.
    { apply elem_of_cons in Hy as [Hy | Hy]; [exact Hy |]. exfalso.
      rewrite <- Hp2 in Ht. apply NoDup_app in Ht as (_ & Hd & _).
      apply (Hd y); [exact Hy |]. apply list_elem_of_fmap. exists (vk, y).
      split; [reflexivity |]. eapply list_elem_of_lookup_2, Hi. }
    exists (erase_at i pool), (first :: w'). split; [reflexivity |].
    split; [exact Hnd |]. split; [exact Hw |].
    rewrite (LoopSegments_last _ _ _ Hlast), <- Hp, <- app_assoc.
    apply Permutation_app_head. symmetry. exact Hdel.
  - destruct (IH (erase_at i pool) ((first :: w') ++ [y])) as (pool' & w'' & E & H1 & H2 & H3).
    + lia.
    + apply NoDup_app. split; [exact Hnd |]. split; [| apply NoDup_singleton].
      intros z Hz Hz'. apply list_elem_of_singleton in Hz'. subst z. auto.
    + rewrite length_app. simpl. lia.
    + rewrite (PathSegments_snoc _ _ _ Hlast), <- Hp, <- app_assoc.
      apply Permutation_app_head. symmetry. exact Hdel.
    + exists pool', w''. auto.
Qed.

Lemma CollectLoops_closed fuel pool result :
  ClosedChains pool -> (length pool <= fuel)%nat ->
  exists loops,
    CollectLoops build fuel pool result = Returns (result ++ loops)
    /\ concat (LoopSegments <$> loops) ≡ₚ pool
    /\ Forall (fun w => NoDup w /\ (2 <= length w)%nat) loops.
Proof.
  revert pool result. induction fuel as [| fuel IH]; intros pool result Hclosed Hlen.
  - destruct pool; [| simpl in Hlen; lia]. exists []. rewrite app_nil_r.
    split; [reflexivity |]. split; [reflexivity | constructor].
  - destruct (last pool) as [[a b] |] eqn:Hlast.
    + rewrite (CollectLoops_turn _ _ _ _ Hlast). cbn [fst snd].
      pose proof Hlast as (rest & ->)%last_Some. rewrite removelast_last.
      rewrite length_app in Hlen. simpl in Hlen.
      destruct (FollowLoop_closed (rest ++ [(a, b)]) (Datatypes.S (length rest)) rest [a; b])
        as (pool' & w & E & Hnd & Hw & Hp); [exact Hclosed | lia | | simpl; lia | |].
      * destruct Hclosed as (_ & _ & _ & Hs).
        rewrite Forall_app, Forall_singleton in Hs. destruct Hs as [_ Hs]. simpl in Hs.
        apply NoDup_cons. split; [| apply NoDup_singleton].
        intros H. apply list_elem_of_singleton in H. auto.
      * simpl. apply Permutation_cons_append.
      * rewrite E. cbn [obind].
        destruct (IH pool' (result ++ [w])) as (loops & E' & Hp' & Hall).
        -- eapply ClosedChains_rest; eassumption.
        -- apply FollowLoop_shrinks in E. lia.
        -- exists (w :: loops). rewrite E', <- app_assoc. split; [reflexivity |].
           split; [| constructor; auto].
           rewrite fmap_cons. simpl. rewrite Hp'. exact Hp.
    + apply last_None in Hlast as ->. rewrite CollectLoops_nil. exists [].
      rewrite app_nil_r. split; [reflexivity |]. split; [reflexivity | constructor].
Qed.


(** **** Open chains, in a build with assertions *)

Lemma assert_Returns_true (line : N) (c : bool) (u : unit) :
  NDEBUG build = false -> assert_ build line c = Returns u -> c = true.
Proof. destruct u. apply assert_true. Qed.

Lemma FollowLoop_defined fuel pool w :
  NDEBUG build = false -> w <> [] -> FollowLoop build fuel pool w <> UndefinedBehaviour.
Proof.
  intros Hd. revert pool w. induction fuel as [| fuel IH]; intros pool w Hw; [discriminate |].
  destruct (last w) as [searching |] eqn:Hlast; [| apply last_None in Hlast; contradiction].
  rewrite (FollowLoop_turn _ _ _ _ Hlast).
  case_assert; [| discriminate].
  destruct (FindHit_cases searching pool) as [[-> _] | [(i & y & -> & Hi) | ->]];
    cbn [obind]; [| | discriminate].
  - rewrite assert_false by exact Hd. discriminate.
  - case_assert; [| discriminate].
    unfold at_nat. rewrite Hi. cbn [obind snd]. destruct (bool_decide (y ∈ w)); [discriminate |].
    apply IH. destruct w; discriminate.
Qed.

Lemma CollectLoops_defined fuel pool result :
  NDEBUG build = false -> CollectLoops build fuel pool result <> UndefinedBehaviour.
Proof.
  intros Hd. revert pool result. induction fuel as [| fuel IH]; intros pool result.
  - simpl. destruct (last pool); discriminate.
  - destruct (last pool) as [i |] eqn:Hlast.
    + rewrite (CollectLoops_turn _ _ _ _ Hlast).
      destruct (FollowLoop build (Datatypes.S (length (removelast pool))) (removelast pool)
                  [i.1; i.2]) as [[pool' w'] | | |] eqn:E; cbn [obind]; try discriminate.
      * apply IH.
      * exfalso. revert E. apply FollowLoop_defined; [exact Hd | discriminate].
    + apply last_None in Hlast as ->. rewrite CollectLoops_nil. discriminate.
Qed.

(** While the segment [(h, t)] whose tail starts no segment is in the pool, a
    loop can only close without it; once its tail is the vertex searched
    for, the search fails. *)
Lemma FollowLoop_open segments h t fuel pool w pool' w' :
  NDEBUG build = false -> (t ∉ segments.*1) -> pool ⊆ segments ->
  last w = Some t \/ ((t ∉ w) /\ ((h, t) ∈ pool)) ->
  FollowLoop build fuel pool w = Returns (pool', w') ->
  (h, t) ∈ pool' /\ pool' ⊆ pool.
Proof.
  intros Hd Ht. revert pool w. induction fuel as [| fuel IH]; intros pool w Hsub Hcase H;
    [discriminate |].
  assert (Htp : t ∉ pool.*1).
  { intros Hin. apply Ht. apply list_elem_of_fmap in Hin as (s & -> & Hs).
    apply list_elem_of_fmap. exists s. split; [reflexivity |]. apply Hsub, Hs. }
  destruct (last w) as [searching |] eqn:Hlast;
    [| simpl in H; rewrite Hlast in H; case_assert_in H; discriminate].
  rewrite (FollowLoop_turn _ _ _ _ Hlast) in H.
  case_assert_in H; [| discriminate].
  destruct (FindHit_cases searching pool) as [[E1 _] | [(i & y & E1 & Hi) | E1]];
    rewrite E1 in H; cbn [obind] in H; [| | discriminate].
  { rewrite assert_false in H by exact Hd. discriminate. }
  case_assert_in H; [| discriminate].
  unfold at_nat in H. rewrite Hi in H. cbn [obind snd] in H.
  assert (Hin : (searching, y) ∈ pool) by (eapply list_elem_of_lookup_2, Hi).
  destruct Hcase as [Hcase | [Htw Hbad]].
  { exfalso. apply Htp. injection Hcase as ->.
    apply list_elem_of_fmap. exists (t, y). auto. }
  assert (Hdel : pool ≡ₚ (searching, y) :: erase_at i pool).
  { unfold erase_at. apply delete_Permutation, Hi. }
  assert (Hsub' : erase_at i pool ⊆ pool).
  { intros s Hs. rewrite Hdel. apply elem_of_cons. auto. }
  rewrite Hdel in Hbad. apply elem_of_cons in Hbad as [Hbad | Hbad].
  - (* the segment erased is [(h, t)] itself: [t] is new, and searched next *)
    injection Hbad as <- <-.
    rewrite bool_decide_eq_false_2 in H by exact Htw.
    apply IH in H as [H1 H2].
    + split; [exact H1 |]. intros s Hs. apply Hsub', H2, Hs.
    + intros s Hs. apply Hsub, Hsub', Hs.
    + left. apply last_snoc.
  - destruct (bool_decide_reflect (y ∈ w)) as [Hy | Hy].
    + injection H as <- <-. auto.
    + apply IH in H as [H1 H2].
      * split; [exact H1 |]. intros s Hs. apply Hsub', H2, Hs.
      * intros s Hs. apply Hsub, Hsub', Hs.
      * destruct (decide (y = t)) as [-> | Hyt]; [left; apply last_snoc |].
        right. split; [| exact Hbad]. rewrite elem_of_app, list_elem_of_singleton.
        intros [? | ?]; auto.
Qed.

Lemma CollectLoops_open segments h t fuel pool result loops :
  NDEBUG build = false -> (t ∉ segments.*1) -> pool ⊆ segments -> (h, t) ∈ pool ->
  CollectLoops build fuel pool result <> Returns loops.
Proof.
  intros Hd Ht. revert pool result.
  induction fuel as [| fuel IH]; intros pool result Hsub Hbad.
  - simpl. destruct (last pool) eqn:Hlast; [discriminate |].
    apply last_None in Hlast. subst pool. apply elem_of_nil in Hbad. contradiction.
  - destruct (last pool) as [i |] eqn:Hlast;
      [| apply last_None in Hlast; subst pool; apply elem_of_nil in Hbad; contradiction].
    rewrite (CollectLoops_turn _ _ _ _ Hlast).
    pose proof Hlast as (rest & ->)%last_Some. rewrite removelast_last.
    destruct (FollowLoop build (Datatypes.S (length rest)) rest [i.1; i.2])
      as [[pool' w'] | | |] eqn:E; cbn [obind]; try discriminate.
    assert (Hrest : rest ⊆ segments).
    { intros s Hs. apply Hsub, elem_of_app. auto. }
    apply (FollowLoop_open segments h t) in E as [H1 H2]; [| exact Hd | exact Ht | exact Hrest |].
    + apply IH; [| exact H1]. intros s Hs. apply Hrest, H2, Hs.
    + destruct (decide (i.2 = t)) as [E2 | E2]; [left; simpl; congruence |].
      right. split.
      * rewrite !elem_of_cons. intros [E1 | [E1 | E1]]; [| congruence | apply elem_of_nil in E1; exact E1].
        apply Ht. rewrite E1. apply list_elem_of_fmap. exists i. split; [reflexivity |].
        apply Hsub, elem_of_app. right. apply list_elem_of_singleton. reflexivity.
      * apply elem_of_app in Hbad as [Hbad | Hbad]; [exact Hbad |].
        apply list_elem_of_singleton in Hbad. subst i. simpl in E2. congruence.
Qed.


(** C8, as amended.  AsVertexLoopsOrdered always ends.  In a build with
    assertions it fails an assertion when the segments contain an open
    chain.  When the segments form closed chains only and no vertex starts
    two segments, it returns loops of at least two distinct vertices each
    whose segments are, together, exactly the segments given: one sequence
    for every closed loop. *)
Theorem loop_reconstruction (segments : list (N * N)) :
  AsVertexLoopsOrdered build segments <> OutOfFuel
  /\ (NDEBUG build = false -> HasOpenChain segments ->
       exists line, AsVertexLoopsOrdered build segments = AssertionFailed line)
  /\ (ClosedChains segments ->
       exists loops,
         AsVertexLoopsOrdered build segments = Returns loops
         /\ concat (LoopSegments <$> loops) ≡ₚ segments
         /\ Forall (fun w => NoDup w /\ (2 <= length w)%nat) loops).
Proof.
  split; [apply AsVertexLoopsOrdered_total |]. split.
  - intros Hd ([h t] & Hin & Ht). simpl in Ht.
    destruct (AsVertexLoopsOrdered build segments) as [loops | line | |] eqn:E.
    + exfalso. revert E. unfold AsVertexLoopsOrdered.
      apply (CollectLoops_open segments h t); auto.
    + eauto.
    + exfalso. revert E. apply CollectLoops_defined, Hd.
    + exfalso. revert E. apply AsVertexLoopsOrdered_total.
  - intros Hclosed.
    destruct (CollectLoops_closed (length segments) segments [] Hclosed) as (loops & E & H);
      [lia |].
    exists loops. split; [exact E | exact H].
Qed.

End Loops.

(** Two closed loops through the vertex 0. *)
Lemma loops_sharing_a_vertex :
  AsVertexLoopsOrdered DebugBuild [(0, 1); (1, 0); (0, 2); (2, 0)] = AssertionFailed 1065.
Proof. reflexivity. Qed.

(** *** C9 and C10: the edge lists of the skeleton *)

(** A property of the skeleton that AddSteinerVertex and AddEdge keep is
    kept by every step of the computation: nothing else writes to the
    skeleton. *)
Section SkeletonInvariant.
Context {S : Scalar}.
Variable build : Build.
Variable Inv : StraightSkeleton.t Primitive -> Prop.
Hypothesis Inv_AddSteinerVertex : forall sk v i sk',
  AddSteinerVertex build sk v = Returns (i, sk') -> Inv sk -> Inv sk'.
Hypothesis Inv_AddEdge : forall sk h t l r ty sk',
  AddEdge build sk h t l r ty = Returns sk' -> Inv sk -> Inv sk'.

Lemma Inv_AddEdgeForVertexPath graph dst v final dst' :
  AddEdgeForVertexPath build graph dst v final = Returns dst' -> Inv dst -> Inv dst'.
Proof.
  unfold AddEdgeForVertexPath. intros H Hi. mdestruct H; simplify_eq; eauto.
Qed.


Lemma Inv_CrashOutSide graph result motor crashSegment crashPt crashPtSkeleton time
    graph' result' :
  CrashOutSide build graph result motor crashSegment crashPt crashPtSkeleton time
  = Returns (graph', result') ->
  Inv result -> Inv result'.
Proof.
  unfold CrashOutSide. intros H Hi. mdestruct H; simplify_eq;
    eauto 10 using Inv_AddEdgeForVertexPath.
Qed.

Lemma Inv_CrashInSide graph result motor crashSegment crashPt crashPtSkeleton time
    graph' result' :
  CrashInSide build graph result motor crashSegment crashPt crashPtSkeleton time
  = Returns (graph', result') ->
  Inv result -> Inv result'.
Proof.
  unfold CrashInSide. intros H Hi. mdestruct H; simplify_eq;
    eauto 10 using Inv_AddEdgeForVertexPath.
Qed.

Lemma Inv_ProcessMotorcycleCrash graph result crashes time graph' result' time' :
  ProcessMotorcycleCrash build graph result crashes time = Returns (graph', result', time') ->
  Inv result -> Inv result'.
Proof.
  unfold ProcessMotorcycleCrash. intros H Hi. mdestruct H; simplify_eq;
    eauto 10 using Inv_CrashOutSide, Inv_CrashInSide.
Qed.

Lemma Inv_CollapseOneGroup graph result bestCollapse time groups group graph' result' new :
  CollapseOneGroup build graph result bestCollapse time groups group
  = Returns (graph', result', new) ->
  Inv result -> Inv result'.
Proof.
  unfold CollapseOneGroup. intros H Hi. mdestruct H; simplify_eq.
  - match goal with
    | H : foldM _ _ (?r, _) = Returns (result', _) |- _ =>
      apply (foldM_preserves (fun st => Inv st.1)) in H; [exact H | | simpl; eauto]
    end.
    intros [r vs] seg [r' vs'] Hr H. simpl in *. mdestruct H; simplify_eq.
    eauto using Inv_AddEdgeForVertexPath.
  - match goal with
    | H : foldM _ _ (?r, _) = Returns (result', _) |- _ =>
      apply (foldM_preserves (fun st => Inv st.1)) in H; [exact H | | simpl; eauto]
    end.
    intros [r vs] seg [r' vs'] Hr H. simpl in *. mdestruct H; simplify_eq.
    eauto using Inv_AddEdgeForVertexPath.
Qed.


Lemma Inv_ProcessCollapses graph result bestCollapse time graph' result' :
  ProcessCollapses build graph result bestCollapse time = Returns (graph', result') ->
  Inv result -> Inv result'.
Proof.
  unfold ProcessCollapses. intros H Hi. mdestruct H; simplify_eq.
  match goal with
  | H : foldM _ (indices _) _ = Returns (_, result', _) |- _ =>
    apply (foldM_preserves (fun st => Inv st.1.2)) in H; [exact H | | simpl; eauto]
  end.
  intros [[g r] infos] group [[g' r'] infos'] Hr H. simpl in *.
  mdestruct H; simplify_eq. eauto using Inv_CollapseOneGroup.
Qed.

Lemma Inv_Iteration maxTime s s' :
  Iteration build maxTime s = Returns (Some s') -> Inv (result_ s) -> Inv (result_ s').
Proof.
  unfold Iteration. intros H Hi. mdestruct H; simplify_eq; simpl;
    eauto using Inv_ProcessMotorcycleCrash, Inv_ProcessCollapses.
Qed.

Lemma Inv_EventLoop fuel maxTime s s' :
  EventLoop build fuel maxTime s = Returns s' -> Inv (result_ s) -> Inv (result_ s').
Proof.
  revert s. induction fuel as [| fuel IH]; intros s H Hi; [discriminate |].
  simpl in H. apply obind_Returns in H as ([s1 |] & H1 & H).
  - eauto using Inv_Iteration.
  - injection H as <-. exact Hi.
Qed.

Lemma Inv_WriteWavefront fuel graph result time result' :
  WriteWavefront build fuel graph result time = Returns result' ->
  Inv result -> Inv result'.
Proof.
  unfold WriteWavefront. intros H Hi. mdestruct H; simplify_eq.
  match goal with
  | H : foldM _ _ (result, []) = Returns (?r, _) |- _ =>
    apply (foldM_preserves (fun st => Inv st.1)) in H; [simpl in H | | exact Hi]
  end.
  2:{ intros [r st] seg [r' st'] Hr H'. simpl in *. mdestruct H'; simplify_eq; eauto. }
  match goal with
  | H1 : foldM _ ?fs ?r = Returns ?r1, H2 : foldM _ _ ?r1 = Returns result' |- _ =>
    apply (foldM_preserves Inv) in H1; [| | assumption];
    [apply (foldM_preserves Inv) in H2; [exact H2 | | exact H1] |]
  end.
  - intros r seg r' Hr H'.
    apply (foldM_preserves Inv) in H'; [exact H' | | exact Hr].
    intros r1 v r2 Hr1 H''. mdestruct H''; simplify_eq.
    eauto using Inv_AddEdgeForVertexPath.
  - intros r seg r' Hr H'. mdestruct H'; simplify_eq. eauto.
Qed.

Lemma Inv_CalculateSkeleton fuel graph maxTime sk :
  CalculateSkeleton build fuel graph maxTime = Returns sk ->
  Inv (StraightSkeleton.mk []
         (replicate (length (Graph._boundaryPoints graph)) (Face.mk [])) []) ->
  Inv sk.
Proof.
  unfold CalculateSkeleton. intros H Hi.
  apply obind_Returns in H as (s & H1 & H).
  apply Inv_EventLoop in H1; [| exact Hi]. eauto using Inv_WriteWavefront.
Qed.

End SkeletonInvariant.

Lemma find_if_None {A} (p : A -> bool) (l : list A) :
  find_if p l = None <-> Forall (fun x => p x = false) l.
Proof.
  induction l as [| x l IH]; simpl.
  - split; [constructor | reflexivity].
  - destruct (p x) eqn:E.
    + split; [discriminate |]. intros H. apply Forall_cons in H as [H _]. congruence.
    + rewrite Forall_cons, <- IH. destruct (find_if p l); simpl; split; try discriminate; auto.
      intros [_ H]. discriminate.
Qed.

Lemma find_if_Some {A} (p : A -> bool) (l : list A) (i : nat) :
  find_if p l = Some i ->
  exists x, l !! i = Some x /\ p x = true /\ Forall (fun y => p y = false) (take i l).
Proof.
  revert i. induction l as [| x l IH]; intros i H; simpl in H; [discriminate |].
  destruct (p x) eqn:E.
  - injection H as <-. exists x. repeat split; [exact E | constructor].
  - destruct (find_if p l) as [j |] eqn:Ej; [| discriminate]. simpl in H. injection H as <-.
    destruct (IH j eq_refl) as (y & H1 & H2 & H3). exists y. simpl.
    repeat split; [exact H1 | exact H2 |]. constructor; assumption.
Qed.

Section EdgeInvariants.
Context {S : Scalar}.
Variable build : Build.

(** What AddUnique can return. *)
Lemma AddUnique_cases dst edge dst' :
  AddUnique build dst edge = Returns dst' ->
  (dst' = dst ++ [edge] /\ EdgeKey edge ∉ EdgeKey <$> dst)
  \/ (dst' = dst /\ EdgeKey edge ∈ EdgeKey <$> dst).
Proof.
  unfold AddUnique. intros H.
  destruct (find_if _ dst) as [i |] eqn:E.
  - right. mdestruct H. subst. split; [reflexivity |].
    apply find_if_Some in E as (x & Hx & Hp & _).
    apply andb_true_iff in Hp as [H1 H2]. apply N.eqb_eq in H1, H2.
    apply list_elem_of_fmap. exists x. split.
    + unfold EdgeKey. congruence.
    + eapply list_elem_of_lookup_2, Hx.
  - left. injection H as <-. split; [reflexivity |].
    apply find_if_None in E. intros Hin.
    apply list_elem_of_fmap in Hin as (x & Hk & Hx).
    rewrite Forall_forall in E. specialize (E x Hx). simpl in E.
    injection Hk as H1 H2. rewrite H1, H2, !N.eqb_refl in E. discriminate.
Qed.

(** A property of edge lists that an insertion by AddUnique keeps, for the
    edges that AddEdge inserts. *)
Variable P : list Edge.t -> Prop.
Hypothesis P_insert : forall dst h t type,
  h <> t -> P dst -> EdgeKey (Edge.mk h t type) ∉ EdgeKey <$> dst ->
  P (dst ++ [Edge.mk h t type]).

Lemma P_AddUnique dst h t type dst' :
  h <> t -> AddUnique build dst (Edge.mk h t type) = Returns dst' -> P dst -> P dst'.
Proof.
  intros Hne H Hd. apply AddUnique_cases in H as [[-> Hk] | [-> _]]; auto.
Qed.

Lemma EdgeLists_AddUnique_face sk face h t type sk' :
  h <> t -> AddUnique_face build sk face (Edge.mk h t type) = Returns sk' ->
  EdgeLists P sk -> EdgeLists P sk'.
Proof.
  unfold AddUnique_face. intros Hne H [Hf Hu]. mdestruct H. subst sk'.
  split; simpl; [| exact Hu].
  apply Forall_insert; [exact Hf |]. simpl.
  eapply P_AddUnique; [exact Hne | eassumption |].
  apply at_Returns in E. rewrite Forall_forall in Hf. apply Hf.
  eapply list_elem_of_lookup_2, E.
Qed.

Lemma EdgeLists_AddUnique_unplaced sk h t type sk' :
  h <> t -> AddUnique_unplaced build sk (Edge.mk h t type) = Returns sk' ->
  EdgeLists P sk -> EdgeLists P sk'.
Proof.
  unfold AddUnique_unplaced. intros Hne H [Hf Hu]. mdestruct H. subst sk'.
  split; simpl; [exact Hf |]. eapply P_AddUnique; eassumption.
Qed.

Lemma EdgeLists_AddEdge sk h t l r type sk' :
  AddEdge build sk h t l r type = Returns sk' -> EdgeLists P sk -> EdgeLists P sk'.
Proof.
  unfold AddEdge. intros H Hi. destruct (N.eqb_spec h t) as [| Hne]; [congruence |].
  assert (Hne' : t <> h) by congruence.
  mdestruct H;
    eauto using EdgeLists_AddUnique_face, EdgeLists_AddUnique_unplaced.
Qed.

Lemma EdgeLists_AddSteinerVertex sk v i sk' :
  AddSteinerVertex build sk v = Returns (i, sk') -> EdgeLists P sk -> EdgeLists P sk'.
Proof.
  unfold AddSteinerVertex. intros H Hi. mdestruct H; simplify_eq; exact Hi.
Qed.

Hypothesis P_nil : P [].

(** The edge lists of every skeleton that CalculateStraightSkeleton returns
    satisfy [P]. *)
Lemma EdgeLists_CalculateStraightSkeleton fuel vertices maxInset sk :
  CalculateStraightSkeleton build fuel vertices maxInset = Returns sk -> EdgeLists P sk.
Proof.
  unfold CalculateStraightSkeleton. intros H.
  apply obind_Returns in H as (graph & _ & H).
  eapply (Inv_CalculateSkeleton build (EdgeLists P)) in H; [exact H | | |].
  - apply EdgeLists_AddSteinerVertex.
  - apply EdgeLists_AddEdge.
  - split; simpl; [| exact P_nil]. apply Forall_replicate. exact P_nil.
Qed.

End EdgeInvariants.

Section Edges.
Context {S : Scalar}.
Variable build : Build.

(** C9.  AddEdge with the head equal to the tail returns the skeleton as it
    was, and no edge list of a skeleton that CalculateStraightSkeleton
    returns holds an edge whose head is its tail. *)
Theorem no_degenerate_edges fuel vertices maxInset (sk : StraightSkeleton.t Primitive) :
  CalculateStraightSkeleton build fuel vertices maxInset = Returns sk ->
  (forall dest v leftEdge rightEdge type,
     AddEdge build dest v v leftEdge rightEdge type = Returns dest)
  /\ Forall (fun e => Edge._head e <> Edge._tail e) (AllEdges sk).
Proof.
  intros H. split.
  - intros. unfold AddEdge. rewrite N.eqb_refl. reflexivity.
  - apply (EdgeLists_CalculateStraightSkeleton build
             (Forall (fun e => Edge._head e <> Edge._tail e))) in H.
    + destruct H as [Hf Hu]. unfold AllEdges. apply Forall_app. split; [| exact Hu].
      apply Forall_concat, Forall_fmap. exact Hf.
    + intros dst h t type Hne Hd _. apply Forall_app. split; [exact Hd |].
      apply Forall_singleton. exact Hne.
    + constructor.
Qed.

Lemma AddUnique_existing dst edge existing :
  NoDup (EdgeKey <$> dst) -> existing ∈ dst -> EdgeKey existing = EdgeKey edge ->
  AddUnique build dst edge =
  let* _ := assert_ build 422 (bool_decide (Edge._type existing = Edge._type edge)) in
  Returns dst.
Proof.
  intros Hnd Hin Hk. unfold AddUnique.
  destruct (find_if _ dst) as [i |] eqn:E.
  - apply find_if_Some in E as (x & Hx & Hp & _).
    apply andb_true_iff in Hp as [H1 H2]. apply N.eqb_eq in H1, H2.
    assert (x = existing) as ->.
    { apply list_elem_of_lookup in Hin as (j & Hj).
      assert (i = j) as ->; [| congruence].
      eapply NoDup_lookup; [exact Hnd | |].
      - rewrite list_lookup_fmap, Hx. reflexivity.
      - rewrite list_lookup_fmap, Hj. unfold EdgeKey in *. simpl. congruence. }
    unfold at_nat. rewrite Hx. reflexivity.
  - exfalso. apply find_if_None in E. rewrite Forall_forall in E. specialize (E _ Hin).
    simpl in E. injection Hk as H1 H2. rewrite H1, H2, !N.eqb_refl in E. discriminate.
Qed.

(** C10.  An insertion by AddUnique keeps an edge list free of two edges
    with the same (head, tail); where the pair is there already the list
    stays as it was when the types agree, and the assertion fails when they
    differ; and every edge list of a skeleton that CalculateStraightSkeleton
    returns (all are filled through AddUnique) has at most one edge for a
    pair. *)
Theorem edge_lists_hold_a_pair_once :
  (forall dst edge dst',
     AddUnique build dst edge = Returns dst' ->
     NoDup (EdgeKey <$> dst) -> NoDup (EdgeKey <$> dst'))
  /\ (forall dst edge dst',
        EdgeKey edge ∈ EdgeKey <$> dst ->
        AddUnique build dst edge = Returns dst' -> dst' = dst)
  /\ (forall dst edge existing,
        NoDup (EdgeKey <$> dst) -> existing ∈ dst -> EdgeKey existing = EdgeKey edge ->
        (Edge._type existing = Edge._type edge -> AddUnique build dst edge = Returns dst)
        /\ (Edge._type existing <> Edge._type edge -> NDEBUG build = false ->
            AddUnique build dst edge = AssertionFailed 422))
  /\ (forall fuel vertices maxInset (sk : StraightSkeleton.t Primitive),
        CalculateStraightSkeleton build fuel vertices maxInset = Returns sk ->
        EdgeLists (fun dst => NoDup (EdgeKey <$> dst)) sk).
Proof.
  split; [| split; [| split]].
  - intros dst edge dst' H Hnd. apply AddUnique_cases in H as [[-> Hk] | [-> _]]; [| exact Hnd].
    rewrite fmap_app. apply NoDup_app. split; [exact Hnd |]. split; [| apply NoDup_singleton].
    intros k Hk1 Hk2. apply list_elem_of_singleton in Hk2. subst k. auto.
  - intros dst edge dst' Hin H. apply AddUnique_cases in H as [[_ Hk] | [-> _]];
      [contradiction | reflexivity].
  - intros dst edge existing Hnd Hin Hk.
    rewrite (AddUnique_existing dst edge existing Hnd Hin Hk). split.
    + intros E. rewrite bool_decide_eq_true_2 by exact E. rewrite assert_pass. reflexivity.
    + intros E Hd. rewrite bool_decide_eq_false_2 by exact E.
      rewrite assert_false by exact Hd. reflexivity.
  - intros fuel vertices maxInset sk H.
    apply (EdgeLists_CalculateStraightSkeleton build (fun dst => NoDup (EdgeKey <$> dst)))
      in H; [exact H | | constructor].
    intros dst h t type _ Hd Hk. rewrite fmap_app. apply NoDup_app.
    split; [exact Hd |]. split; [| apply NoDup_singleton].
    intros k Hk1 Hk2. apply list_elem_of_singleton in Hk2. subst k. auto.
Qed.

End Edges.

(** *** C1 and C4: the times of the events, and the crash first *)

Section EventTimes.
Context {S : Scalar}.
Variable build : Build.
Local Open Scope prim_scope.

(** In a build with assertions, the assertions that were passed hold. *)
Ltac use_asserts Hd :=
  repeat match goal with
         | H : assert_ _ _ _ = Returns _ |- _ =>
           apply assert_Returns_true in H; [| exact Hd]
         end.

Lemma std_min_cases (a b : Primitive) : std_min a b = a \/ std_min a b = b.
Proof. unfold std_min. destruct (b <? a); auto. Qed.

Lemma Forall_filter_bool {A} (P : A -> Prop) (f : A -> bool) (l : list A) :
  Forall P l -> Forall P (List.filter f l).
Proof.
  induction 1 as [| x l Hx Hl IH]; simpl; [constructor |].
  destruct (f x); [constructor |]; assumption.
Qed.

(** Lines 486-487: a collapse time that becomes a candidate has passed the
    assertion.  With the sentinel the largest time, [bestCollapseTime] is
    the time of a candidate as soon as there is one. *)
Lemma FindCollapses_accepted graph lastEventTime bestCollapse bestCollapseTime :
  NDEBUG build = false ->
  FindCollapses build graph lastEventTime = Returns (bestCollapse, bestCollapseTime) ->
  Forall (fun e => (e.1 >=? lastEventTime) = true) bestCollapse
  /\ (SentinelIsLargest -> bestCollapse <> [] -> (bestCollapseTime >=? lastEventTime) = true).
Proof.
  intros Hd H. unfold FindCollapses in H.
  apply obind_Returns in H as ([bc best] & Hfold & H). injection H as <- <-.
  apply (foldM_preserves (fun st =>
           Forall (fun e => (e.1 >=? lastEventTime) = true) st.1
           /\ (SentinelIsLargest ->
               (st.1 = [] /\ st.2 = numeric_max)
               \/ (st.2 >=? lastEventTime) = true))) in Hfold.
  - simpl in Hfold. destruct Hfold as [Hall Hbest]. split.
    + apply Forall_filter_bool, Hall.
    + intros Hs Hne. destruct (Hbest Hs) as [[-> _] | Hge]; [| exact Hge].
      simpl in Hne. contradiction.
  - intros [bc0 best0] [e seg] [bc1 best1] [Hall Hbest] Hstep. simpl in *.
    mdestruct Hstep; simplify_eq; simpl; use_asserts Hd.
    + auto.
    + split; [repeat constructor; assumption | auto].
    + split; [apply Forall_app; split; [exact Hall | repeat constructor; assumption] |].
      intros Hs. right. destruct (Hbest Hs) as [[-> ->] | Hge].
      * unfold std_min.
        match goal with
        | H : (_ <? numeric_max + GetEpsilon) = true |- _ => rewrite (Hs _ H)
        end.
        assumption.
      * match goal with
        | |- (std_min ?c ?b >=? _) = true =>
          destruct (std_min_cases c b) as [-> | ->]; assumption
        end.
    + auto.
  - simpl. split; [constructor | auto].
Qed.


(** Lines 517-526: a crash that becomes a candidate has passed the assertion
    and is earlier than [bestCollapseTime] plus epsilon. *)
Lemma FindCrashes_accepted graph lastEventTime bestCollapseTime crashes crashTime :
  NDEBUG build = false ->
  FindCrashes build graph lastEventTime bestCollapseTime = Returns (crashes, crashTime) ->
  Forall (fun e => (CrashEvent._time e.1 >=? lastEventTime) = true
                   /\ (CrashEvent._time e.1 <? bestCollapseTime + GetEpsilon) = true)
    crashes.
Proof.
  intros Hd H. unfold FindCrashes in H.
  apply (foldM_preserves (fun st =>
           Forall (fun e => (CrashEvent._time e.1 >=? lastEventTime) = true
                            /\ (CrashEvent._time e.1 <? bestCollapseTime + GetEpsilon) = true)
             st.1)) in H; [exact H | | constructor].
  intros [bm0 t0] [m motor] [bm1 t1] Hall Hstep. simpl in *.
  mdestruct Hstep; simplify_eq; simpl; use_asserts Hd; try assumption.
  - repeat constructor; assumption.
  - apply Forall_app. split; [exact Hall |]. repeat constructor; assumption.
Qed.

Lemma CrashOutSide_frame graph result motor crashSegment crashPt crashPtSkeleton time
    graph' result' :
  CrashOutSide build graph result motor crashSegment crashPt crashPtSkeleton time
  = Returns (graph', result') ->
  Graph._motorcycleSegments graph' = Graph._motorcycleSegments graph
  /\ Graph._boundaryPoints graph' = Graph._boundaryPoints graph.
Proof. unfold CrashOutSide. intros H. mdestruct H; simplify_eq; auto. Qed.

Lemma CrashInSide_frame graph result motor crashSegment crashPt crashPtSkeleton time
    graph' result' :
  CrashInSide build graph result motor crashSegment crashPt crashPtSkeleton time
  = Returns (graph', result') ->
  Graph._motorcycleSegments graph' = Graph._motorcycleSegments graph
  /\ Graph._boundaryPoints graph' = Graph._boundaryPoints graph.
Proof. unfold CrashInSide. intros H. mdestruct H; simplify_eq; auto. Qed.

(** What a processed crash is: the one at the front of the tied crashes; its
    time is the new [lastEventTime], and its motorcycle is erased, and no
    other. *)
Lemma ProcessMotorcycleCrash_front graph result crashes crashTime graph' result' time' :
  ProcessMotorcycleCrash build graph result crashes crashTime
  = Returns (graph', result', time') ->
  exists front,
    TiedCrashes crashes crashTime !! 0%nat = Some front
    /\ time' = CrashEvent._time front.1
    /\ (NDEBUG build = false -> TiedCrashes crashes crashTime = [front])
    /\ Graph._motorcycleSegments graph'
       = erase_at front.2 (Graph._motorcycleSegments graph)
    /\ (front.2 < length (Graph._motorcycleSegments graph))%nat.
Proof.
  unfold ProcessMotorcycleCrash. fold (TiedCrashes crashes crashTime). intros H.
  apply obind_Returns in H as (u & Hassert & H).
  apply obind_Returns in H as (front & Hfront & H).
  exists front. unfold at_nat in Hfront.
  destruct (TiedCrashes crashes crashTime !! 0%nat) as [f |] eqn:E0; [| discriminate].
  injection Hfront as ->. split; [reflexivity |].
  apply obind_Returns in H as (motor & Hmotor & H).
  assert (Hlt : (front.2 < length (Graph._motorcycleSegments graph))%nat).
  { unfold at_nat in Hmotor.
    destruct (Graph._motorcycleSegments graph !! front.2) eqn:E; [| discriminate].
    eapply lookup_lt_Some, E. }
  mdestruct H. simplify_eq. simpl.
  repeat match goal with
         | H : CrashOutSide _ _ _ _ _ _ _ _ = Returns _ |- _ =>
           apply CrashOutSide_frame in H as [? _]
         | H : CrashInSide _ _ _ _ _ _ _ _ = Returns _ |- _ =>
           apply CrashInSide_frame in H as [? _]
         end.
  simpl in *. split; [reflexivity |]. split; [| split; [congruence | exact Hlt]].
  intros Hd. apply assert_Returns_true in Hassert; [| exact Hd].
  apply bool_decide_eq_true in Hassert.
  destruct (TiedCrashes crashes crashTime) as [| x [| y l]]; simpl in *; try discriminate.
  congruence.
Qed.


Lemma Forall_filter_true {A} (f : A -> bool) (l : list A) :
  Forall (fun x => f x = true) (List.filter f l).
Proof.
  induction l as [| x l IH]; simpl; [constructor |].
  destruct (f x) eqn:E; [constructor |]; assumption.
Qed.

(** The turn of the loop when there is a crash to process. *)
Lemma Iteration_crash maxTime s bestCollapse bestCollapseTime crashes crashTime :
  FindCollapses build (graph_ s) (lastEventTime s)
  = Returns (bestCollapse, bestCollapseTime) ->
  FindCrashes build (graph_ s) (lastEventTime s) bestCollapseTime
  = Returns (crashes, crashTime) ->
  crashes <> [] -> (crashTime >? maxTime) = false ->
  Iteration build maxTime s =
  let* (graph, result, time) :=
    ProcessMotorcycleCrash build (graph_ s) (result_ s) crashes crashTime in
  Returns (Some (mkSim graph result time 1)).
Proof.
  intros H1 H2 Hne Hmax. unfold Iteration. rewrite H1. cbn [obind]. rewrite H2. cbn [obind].
  rewrite bool_decide_eq_false_2 by exact Hne. cbn [negb]. rewrite Hmax. reflexivity.
Qed.

(** What the assertions of lines 487 and 518 buy.  In a build with
    assertions, and with the sentinel the largest time: every collapse time
    and every crash time of a search for candidates that returns is at
    least [lastEventTime], and a turn of the event loop that returns an
    event leaves a [lastEventTime] (the time of that event) that is at
    least the one it found.  Nothing here says that the searches return:
    on the dart the assertion of line 487 fails. *)
Theorem event_times_never_decrease (maxTime : Primitive) (s : Sim) :
  NDEBUG build = false -> SentinelIsLargest ->
  (forall bestCollapse bestCollapseTime,
     FindCollapses build (graph_ s) (lastEventTime s)
     = Returns (bestCollapse, bestCollapseTime) ->
     Forall (fun e => (e.1 >=? lastEventTime s) = true) bestCollapse)
  /\ (forall bestCollapseTime crashes crashTime,
        FindCrashes build (graph_ s) (lastEventTime s) bestCollapseTime
        = Returns (crashes, crashTime) ->
        Forall (fun e => (CrashEvent._time e.1 >=? lastEventTime s) = true) crashes)
  /\ (forall s',
        Iteration build maxTime s = Returns (Some s') ->
        (lastEventTime s' >=? lastEventTime s) = true).
Proof.
  intros Hd Hs. split; [| split].
  - intros bc bct H. apply (FindCollapses_accepted _ _ _ _ Hd H).
  - intros bct bm bmt H. apply FindCrashes_accepted in H; [| exact Hd].
    eapply Forall_impl; [exact H |]. intros e [He _]. exact He.
  - intros s' H. unfold Iteration in H.
    apply obind_Returns in H as ([bc bct] & Hc & H).
    apply obind_Returns in H as ([bm bmt] & Hm & H).
    destruct (negb (bool_decide (bm = []))).
    + destruct (bmt >? maxTime); [discriminate |].
      apply obind_Returns in H as ([[g r] t] & Hp & H). injection H as <-. simpl.
      apply ProcessMotorcycleCrash_front in Hp as (front & Hfront & -> & _).
      apply FindCrashes_accepted in Hm; [| exact Hd].
      apply Forall_filter_bool with (f := fun e => CrashEvent._time e.1 <? bmt + GetEpsilon)
        in Hm.
      rewrite Forall_forall in Hm. apply Hm. eapply list_elem_of_lookup_2, Hfront.
    + destruct (bool_decide_reflect (bc = [])) as [| Hne]; [discriminate |].
      destruct (bct >? maxTime); [discriminate |].
      apply obind_Returns in H as ([g r] & Hp & H). injection H as <-. simpl.
      apply (FindCollapses_accepted _ _ _ _ Hd Hc); assumption.
Qed.

(** Lines 519-526, in any build: a crash that becomes a candidate is
    earlier than [bestCollapseTime] plus epsilon. *)
Lemma FindCrashes_candidates graph lastEventTime bestCollapseTime crashes crashTime :
  FindCrashes build graph lastEventTime bestCollapseTime = Returns (crashes, crashTime) ->
  Forall (fun e => (CrashEvent._time e.1 <? bestCollapseTime + GetEpsilon) = true) crashes.
Proof.
  intros H. unfold FindCrashes in H.
  apply (foldM_preserves (fun st =>
           Forall (fun e => (CrashEvent._time e.1 <? bestCollapseTime + GetEpsilon) = true)
             st.1)) in H; [exact H | | constructor].
  intros [bm0 t0] [m motor] [bm1 t1] Hall Hstep. simpl in *.
  mdestruct Hstep; simplify_eq; simpl; try assumption.
  - repeat constructor; assumption.
  - apply Forall_app. split; [exact Hall |]. repeat constructor; assumption.
Qed.

(** C4, as amended.  A turn of the event loop in which the search for
    crashes has a candidate, that is a crash earlier than
    [bestCollapseTime] plus epsilon, in any build.  When the time of the
    earliest crash is beyond the time limit, the loop ends and no event is
    processed (line 541).  Otherwise the crashes within epsilon of
    [bestMotorcycleCrashTime] are formed, and the turn is the processing of
    a crash and nothing else, whatever the collapses are; in a build with
    assertions more than one crash in that tied set fails the assertion of
    line 552; and a turn that completes has processed exactly one crash,
    the first of the tied set (in a build with assertions the only one):
    the motorcycle of that crash is erased and no other, its time is the
    time of the event, and the event is recorded as a crash. *)
Theorem crashes_take_priority (maxTime : Primitive) (s : Sim) bestCollapse bestCollapseTime
    crashes crashTime :
  FindCollapses build (graph_ s) (lastEventTime s)
  = Returns (bestCollapse, bestCollapseTime) ->
  FindCrashes build (graph_ s) (lastEventTime s) bestCollapseTime
  = Returns (crashes, crashTime) ->
  crashes <> [] ->
  Forall (fun e => (CrashEvent._time e.1 <? bestCollapseTime + GetEpsilon) = true) crashes
  /\ ((crashTime >? maxTime) = true -> Iteration build maxTime s = Returns None)
  /\ ((crashTime >? maxTime) = false ->
      Forall (fun e => (CrashEvent._time e.1 <? crashTime + GetEpsilon) = true)
        (TiedCrashes crashes crashTime)
      /\ Iteration build maxTime s
         = (let* (graph, result, time) :=
              ProcessMotorcycleCrash build (graph_ s) (result_ s) crashes crashTime in
            Returns (Some (mkSim graph result time 1)))
      /\ (NDEBUG build = false ->
          (1 < length (TiedCrashes crashes crashTime))%nat ->
          Iteration build maxTime s = AssertionFailed 552)
      /\ (forall next,
            Iteration build maxTime s = Returns next ->
            exists s' crash m,
              next = Some s'
              /\ TiedCrashes crashes crashTime !! 0%nat = Some (crash, m)
              /\ (NDEBUG build = false -> TiedCrashes crashes crashTime = [(crash, m)])
              /\ lastEvent s' = 1%N
              /\ lastEventTime s' = CrashEvent._time crash
              /\ Graph._motorcycleSegments (graph_ s')
                 = erase_at m (Graph._motorcycleSegments (graph_ s))
              /\ length (Graph._motorcycleSegments (graph_ s))
                 = Datatypes.S (length (Graph._motorcycleSegments (graph_ s'))))).
Proof.
  intros Hc Hm Hne. split; [| split].
  - exact (FindCrashes_candidates _ _ _ _ _ Hm).
  - intros Hmax. unfold Iteration. rewrite Hc. cbn [obind]. rewrite Hm. cbn [obind].
    rewrite bool_decide_eq_false_2 by exact Hne. cbn [negb]. rewrite Hmax. reflexivity.
  - intros Hmax.
    pose proof (Iteration_crash maxTime s _ _ _ _ Hc Hm Hne Hmax) as Hturn.
    split; [| split; [| split]].
    + apply Forall_filter_true.
    + exact Hturn.
    + intros Hd Hlen. rewrite Hturn. unfold ProcessMotorcycleCrash.
      fold (TiedCrashes crashes crashTime).
      rewrite bool_decide_eq_false_2 by lia. rewrite assert_false by exact Hd.
      reflexivity.
    + intros next H. rewrite Hturn in H.
      apply obind_Returns in H as ([[g r] t] & Hp & H). injection H as <-.
      apply ProcessMotorcycleCrash_front in Hp as ([crash m] & Hfront & -> & Hone & Hers & Hlt).
      exists (mkSim g r (CrashEvent._time crash) 1), crash, m. simpl in *.
      split; [reflexivity |]. split; [exact Hfront |]. split; [exact Hone |].
      split; [reflexivity |]. split; [reflexivity |]. split; [exact Hers |].
      rewrite Hers. unfold erase_at. rewrite length_delete.
      * lia.
      * apply lookup_lt_is_Some_2, Hlt.
Qed.

End EventTimes.

(** *** C7: frozen vertices *)

Section Frozen.
Context {S : Scalar}.
Variable build : Build.
Local Open Scope prim_scope.

Lemma FreezeInPlace_FrozenAt v t v' :
  FreezeInPlace build v t = Returns v' -> FrozenAt t v'.
Proof. unfold FreezeInPlace. intros H. mdestruct H. subst v'. repeat split. Qed.

Lemma set_at_Returns {A} (l : list A) (i : N) (x : A) l' :
  set_at l i x = Returns l' ->
  l' = <[N.to_nat i := x]> l /\ (N.to_nat i < length l)%nat.
Proof.
  unfold set_at. intros H. mdestruct H. split; [congruence |].
  apply at_Returns in E. eapply lookup_lt_Some, E.
Qed.

Lemma Evolves_refl W t start : Evolves W t start start.
Proof. intros i v H. left. exact H. Qed.

Lemma Evolves_app W t start vs extra :
  Evolves W t start vs -> Evolves W t start (vs ++ extra).
Proof.
  intros H i v Hi. destruct (H i v Hi) as [H1 | (Hw & v' & H1 & H2)].
  - left. apply lookup_app_l_Some, H1.
  - right. split; [exact Hw |]. exists v'. split; [| exact H2]. apply lookup_app_l_Some, H1.
Qed.

Lemma Evolves_freeze (W : nat -> Prop) t start vs k x :
  Evolves W t start vs -> W k -> FrozenAt t x -> Evolves W t start (<[k := x]> vs).
Proof.
  intros H Hw Hx i v Hi. destruct (decide (i = k)) as [-> | Hne].
  - right. split; [exact Hw |]. exists x. split; [| exact Hx].
    apply list_lookup_insert_eq.
    destruct (H k v Hi) as [H1 | (_ & v' & H1 & _)]; eapply lookup_lt_Some; eassumption.
  - rewrite list_lookup_insert_ne by congruence. apply H, Hi.
Qed.

Lemma Evolves_beyond W t start vs k x :
  Evolves W t start vs -> (length start <= k)%nat -> Evolves W t start (<[k := x]> vs).
Proof.
  intros H Hk i v Hi. pose proof (lookup_lt_Some _ _ _ Hi).
  rewrite list_lookup_insert_ne by lia. apply H, Hi.
Qed.

Lemma Evolves_length W t start vs : Evolves W t start vs -> (length start <= length vs)%nat.
Proof.
  intros H. destruct (decide (length start <= length vs)%nat) as [| Hn]; [assumption |].
  exfalso. destruct (lookup_lt_is_Some_2 start (length vs)) as [v Hv]; [lia |].
  destruct (H _ _ Hv) as [H1 | (_ & v' & H1 & _)]; apply lookup_lt_Some in H1; lia.
Qed.

(** **** A crash *)

Lemma CrashOutSide_vertices graph result motor crashSegment crashPt crashPtSkeleton time
    graph' result' :
  CrashOutSide build graph result motor crashSegment crashPt crashPtSkeleton time
  = Returns (graph', result') ->
  exists extra, Graph._vertices graph' = Graph._vertices graph ++ extra.
Proof.
  unfold CrashOutSide. intros H. mdestruct H; simplify_eq; simpl;
    solve [exists []; rewrite app_nil_r; reflexivity | eexists [_]; reflexivity].
Qed.

Lemma CrashInSide_vertices graph result motor crashSegment crashPt crashPtSkeleton time
    graph' result' :
  CrashInSide build graph result motor crashSegment crashPt crashPtSkeleton time
  = Returns (graph', result') ->
  exists extra, Graph._vertices graph' = Graph._vertices graph ++ extra.
Proof.
  unfold CrashInSide. intros H. mdestruct H; simplify_eq; simpl;
    solve [exists []; rewrite app_nil_r; reflexivity | eexists [_]; reflexivity].
Qed.

Lemma ProcessMotorcycleCrash_vertices graph result crashes crashTime graph' result' time' :
  ProcessMotorcycleCrash build graph result crashes crashTime
  = Returns (graph', result', time') ->
  exists front motor,
    TiedCrashes crashes crashTime !! 0%nat = Some front
    /\ Graph._motorcycleSegments graph !! front.2 = Some motor
    /\ Evolves (eq (N.to_nat (MotorcycleSegment._head motor))) time'
         (Graph._vertices graph) (Graph._vertices graph').
Proof.
  unfold ProcessMotorcycleCrash. fold (TiedCrashes crashes crashTime). intros H.
  apply obind_Returns in H as (u & _ & H).
  apply obind_Returns in H as (front & Hfront & H).
  apply obind_Returns in H as (motor & Hmotor & H).
  exists front, motor. unfold at_nat in Hfront, Hmotor.
  destruct (TiedCrashes crashes crashTime !! 0%nat) as [f |]; [| discriminate].
  injection Hfront as ->. split; [reflexivity |].
  destruct (Graph._motorcycleSegments graph !! front.2) as [m |]; [| discriminate].
  injection Hmotor as ->. split; [reflexivity |].
  mdestruct H. simplify_eq. simpl.
  repeat match goal with
         | H : CrashOutSide _ _ _ _ _ _ _ _ = Returns _ |- _ =>
           apply CrashOutSide_vertices in H as [? ?]
         | H : CrashInSide _ _ _ _ _ _ _ _ = Returns _ |- _ =>
           apply CrashInSide_vertices in H as [? ?]
         | H : set_at _ _ _ = Returns _ |- _ => apply set_at_Returns in H as [-> _]
         | H : FreezeInPlace _ _ _ = Returns _ |- _ => apply FreezeInPlace_FrozenAt in H
         end.
  simpl in *.
  apply Evolves_freeze; [| reflexivity | assumption].
  match goal with
  | H1 : Graph._vertices ?g2 = Graph._vertices ?g1 ++ _,
    H2 : Graph._vertices ?g1 = Graph._vertices graph ++ _ |- _ =>
    rewrite H1, H2
  end.
  apply Evolves_app, Evolves_app, Evolves_refl.
Qed.


(** **** A group of collapses *)

Lemma foldM_preserves_elem {A St} (P : St -> Prop) (body : St -> A -> Outcome St) l s s' :
  (forall s x s', x ∈ l -> P s -> body s x = Returns s' -> P s') ->
  P s -> foldM body l s = Returns s' -> P s'.
Proof.
  revert s. induction l as [| x l IH]; intros s Hbody Hs H; simpl in H.
  - injection H as <-. exact Hs.
  - apply obind_Returns in H as (s1 & H1 & H).
    apply (IH s1); [| | exact H].
    + intros s2 y s3 Hy. apply Hbody. apply elem_of_cons. auto.
    + eapply Hbody; [| exact Hs | exact H1]. apply elem_of_cons. auto.
Qed.

Lemma GroupCollapses_infos edges bestCollapse groups infos next :
  GroupCollapses build edges bestCollapse = Returns (groups, infos, next) ->
  Forall (fun info => CollapseGroupInfo._newVertex info = not0u) infos.
Proof.
  unfold GroupCollapses. intros H.
  apply (foldM_preserves (fun st =>
           Forall (fun info => CollapseGroupInfo._newVertex info = not0u) st.1.2)) in H;
    [exact H | | constructor].
  intros [[gs infos0] n] c [[gs' infos1] n'] Hi Hstep. simpl in *.
  mdestruct Hstep; simplify_eq; try assumption;
    (apply Forall_app; split; [assumption |]; repeat constructor).
Qed.

Lemma GroupMembers_spec edges (bestCollapse : list (Primitive * nat)) groups group members :
  GroupMembers edges bestCollapse groups group = Returns members ->
  Forall (fun seg => exists c t e, bestCollapse !! c = Some (t, e) /\ edges !! e = Some seg)
    members.
Proof.
  unfold GroupMembers. intros H.
  apply (foldM_preserves (Forall (fun seg =>
           exists c t e, bestCollapse !! c = Some (t, e) /\ edges !! e = Some seg))) in H;
    [exact H | | constructor].
  intros ms c ms' Hms Hstep. mdestruct Hstep; simplify_eq; [assumption |].
  apply Forall_app. split; [assumption |]. repeat constructor.
  unfold CollapsedEdge in *.
  match goal with H : obind _ _ = Returns _ |- _ => mdestruct H end.
  repeat match goal with
         | H : at_nat _ _ = Returns _ |- _ =>
           unfold at_nat in H;
           match type of H with
           | match ?l !! ?i with _ => _ end = _ => destruct (l !! i) eqn:?; [| discriminate]
           end; injection H as ?
         end.
  subst. match goal with H : bestCollapse !! _ = Some ?p |- _ => destruct p end.
  eauto.
Qed.

Lemma CollapseOneGroup_vertices (W : nat -> Prop) start graph result bestCollapse
    bestCollapseTime groups group graph' result' new :
  CollapseOneGroup build graph result bestCollapse bestCollapseTime groups group
  = Returns (graph', result', new) ->
  (forall c t e seg, bestCollapse !! c = Some (t, e) ->
     Graph._wavefrontEdges graph !! e = Some seg ->
     W (N.to_nat (Segment._head seg)) /\ W (N.to_nat (Segment._tail seg))) ->
  Evolves W bestCollapseTime start (Graph._vertices graph) ->
  Graph._wavefrontEdges graph' = Graph._wavefrontEdges graph
  /\ exists vs x,
       Graph._vertices graph' = vs ++ [x] /\ new = u32 (size vs)
       /\ length vs = length (Graph._vertices graph)
       /\ Evolves W bestCollapseTime start vs.
Proof.
  unfold CollapseOneGroup. intros H HW Hev.
  apply obind_Returns in H as (members & Hmembers & H).
  apply GroupMembers_spec in Hmembers.
  assert (Hends : Forall (fun seg => W (N.to_nat (Segment._head seg))
                                     /\ W (N.to_nat (Segment._tail seg))) members).
  { eapply Forall_impl; [exact Hmembers |]. intros seg (c & t & e & H1 & H2). eauto. }
  clear Hmembers.
  mdestruct H; simplify_eq; simpl; (split; [reflexivity |]);
    match goal with
    | Hf : foldM _ members (_, Graph._vertices graph) = Returns (_, ?vs) |- _ =>
      exists vs; eexists; split; [reflexivity |]; split; [reflexivity |];
      apply (foldM_preserves_elem (fun st =>
               length st.2 = length (Graph._vertices graph)
               /\ Evolves W bestCollapseTime start st.2)) in Hf;
      [exact Hf | | split; [reflexivity | exact Hev]]
    end;
    intros [r vs0] seg [r' vs1] Hseg [Hlen Hcur] Hstep; simpl in *;
    rewrite Forall_forall in Hends; destruct (Hends seg Hseg) as [Hh Ht];
    mdestruct Hstep; simplify_eq;
    repeat match goal with
           | H : set_at _ _ _ = Returns _ |- _ => apply set_at_Returns in H as [-> _]
           | H : FreezeInPlace _ _ _ = Returns _ |- _ => apply FreezeInPlace_FrozenAt in H
           end;
    (split; [rewrite !length_insert; exact Hlen |]);
    (apply Evolves_freeze; [apply Evolves_freeze | |]; assumption).
Qed.

Lemma RelinkGroup_vertices graph group graph' :
  RelinkGroup build graph group = Returns graph' ->
  Graph._vertices graph' = Graph._vertices graph
  \/ exists x, Graph._vertices graph'
               = <[N.to_nat (CollapseGroupInfo._newVertex group) := x]> (Graph._vertices graph)
               /\ (N.to_nat (CollapseGroupInfo._newVertex group)
                   < length (Graph._vertices graph))%nat.
Proof.
  unfold RelinkGroup. intros H. mdestruct H; simplify_eq; simpl; [auto |].
  right. match goal with
         | H : set_at _ _ _ = Returns _ |- _ => apply set_at_Returns in H as [-> ?]
         end.
  eauto.
Qed.


Lemma Evolves_nil W t vs : Evolves W t [] vs.
Proof. intros i v H. discriminate. Qed.

Lemma u32_small n : n < 4294967296 -> u32 n = n.
Proof. intros H. unfold u32. apply N.mod_small, H. Qed.

(** The new vertex of a group is recorded by its index; a vertex of the
    beginning of the turn is never at that index, as long as the indices
    fit in 32 bits. *)
Lemma ProcessCollapses_vertices (W : nat -> Prop) graph result bestCollapse bestCollapseTime
    graph' result' :
  ProcessCollapses build graph result bestCollapse bestCollapseTime
  = Returns (graph', result') ->
  (forall c t e seg, bestCollapse !! c = Some (t, e) ->
     Graph._wavefrontEdges graph !! e = Some seg ->
     W (N.to_nat (Segment._head seg)) /\ W (N.to_nat (Segment._tail seg))) ->
  size (Graph._vertices graph') < 4294967296 ->
  Evolves W bestCollapseTime (Graph._vertices graph) (Graph._vertices graph').
Proof.
  unfold ProcessCollapses. intros H HW Hsize.
  set (start := Graph._vertices graph).
  set (Good := fun info => CollapseGroupInfo._newVertex info = not0u
                           \/ (length start <= N.to_nat (CollapseGroupInfo._newVertex info))%nat).
  apply obind_Returns in H as ([[groups infos0] next] & Hgroups & H).
  apply obind_Returns in H as ([[graph1 result1] infos1] & Hloop & H).
  apply obind_Returns in H as (edges2 & _ & H).
  apply obind_Returns in H as (graph2 & Hrelink & H). injection H as <- <-.
  apply GroupCollapses_infos in Hgroups.
  apply (foldM_preserves (fun st =>
           Graph._wavefrontEdges st.1.1 = Graph._wavefrontEdges graph
           /\ (4294967296 <= size (Graph._vertices st.1.1)
               \/ (Evolves W bestCollapseTime start (Graph._vertices st.1.1)
                   /\ Forall Good st.2)))) in Hloop.
  - simpl in Hloop. destruct Hloop as [_ Hloop].
    apply (foldM_preserves_elem (fun g =>
             4294967296 <= size (Graph._vertices g)
             \/ (Evolves W bestCollapseTime start (Graph._vertices g)
                 /\ Forall Good infos1))) in Hrelink.
    + destruct Hrelink as [Hbig | [Hev _]]; [lia | exact Hev].
    + intros g group g' Hin Hg Hstep.
      apply RelinkGroup_vertices in Hstep as [-> | (x & -> & Hlt)]; [exact Hg |].
      unfold size in *. rewrite length_insert.
      destruct Hg as [Hbig | [Hev Hgood]]; [left; exact Hbig |].
      pose proof Hgood as Hgood'. rewrite Forall_forall in Hgood'.
      destruct (Hgood' group Hin) as [Hn | Hn].
      * left. rewrite Hn in Hlt. unfold not0u in Hlt. lia.
      * right. split; [| exact Hgood]. apply Evolves_beyond; assumption.
    + simpl. exact Hloop.
  - intros [[g r] infos] group [[g' r'] infos'] [Hedges Hinv] Hstep. simpl in *.
    apply obind_Returns in Hstep as ([[g1 r1] new] & Hone & Hstep).
    apply obind_Returns in Hstep as (info & _ & Hstep).
    apply obind_Returns in Hstep as (infos2 & Hset & Hstep). injection Hstep as <- <- <-.
    apply set_at_Returns in Hset as [-> _].
    destruct Hinv as [Hbig | [Hev Hgood]].
    + apply (CollapseOneGroup_vertices W []) in Hone as (He & vs & x & -> & _ & Hlen & _);
        [| rewrite Hedges; exact HW | apply Evolves_nil].
      split; [congruence |]. left. unfold size in *. rewrite length_app, Hlen. lia.
    + apply (CollapseOneGroup_vertices W start) in Hone as (He & vs & x & -> & -> & Hlen & Hvs);
        [| rewrite Hedges; exact HW | exact Hev].
      split; [congruence |].
      destruct (N.lt_ge_cases (size vs) 4294967296) as [Hsmall | Hbig].
      * right. split; [apply Evolves_app, Hvs |].
        apply Forall_insert; [exact Hgood |]. right. simpl.
        rewrite (u32_small _ Hsmall). unfold size. rewrite Nat2N.id.
        apply (Evolves_length _ _ _ _ Hvs).
      * left. unfold size in *. rewrite length_app. lia.
  - simpl. split; [reflexivity |]. right. split; [apply Evolves_refl |].
    eapply Forall_impl; [exact Hgroups |]. intros info Hi. left. exact Hi.
Qed.


(** **** The candidates *)

Lemma elem_of_enumerate {A} (l : list A) (i : nat) (x : A) :
  (i, x) ∈ enumerate l -> l !! i = Some x.
Proof.
  unfold enumerate. intros H. apply elem_of_lookup_imap_1 in H as (j & y & E & H).
  injection E as -> ->. exact H.
Qed.

(** A collapse candidate belongs to a wavefront edge: its time is the
    collapse time of the two vertices of the edge, and is within epsilon of
    [bestCollapseTime]. *)
Lemma FindCollapses_entries graph lastEventTime bestCollapse bestCollapseTime :
  FindCollapses build graph lastEventTime = Returns (bestCollapse, bestCollapseTime) ->
  Forall (fun entry =>
            (entry.1 <? bestCollapseTime + GetEpsilon) = true
            /\ exists seg v0 v1,
                 Graph._wavefrontEdges graph !! entry.2 = Some seg
                 /\ Graph._vertices graph !! N.to_nat (Segment._head seg) = Some v0
                 /\ Graph._vertices graph !! N.to_nat (Segment._tail seg) = Some v1
                 /\ entry.1 = CalculateCollapseTime v0 v1)
    bestCollapse.
Proof.
  intros H. unfold FindCollapses in H.
  apply obind_Returns in H as ([bc best] & Hfold & H). injection H as <- <-.
  apply (foldM_preserves_elem (fun st =>
           Forall (fun entry =>
                     exists seg v0 v1,
                       Graph._wavefrontEdges graph !! entry.2 = Some seg
                       /\ Graph._vertices graph !! N.to_nat (Segment._head seg) = Some v0
                       /\ Graph._vertices graph !! N.to_nat (Segment._tail seg) = Some v1
                       /\ entry.1 = CalculateCollapseTime v0 v1) st.1)) in Hfold.
  - simpl in Hfold. induction Hfold as [| entry bc Hentry Hbc IH]; simpl; [constructor |].
    destruct (entry.1 <? best + GetEpsilon) eqn:E; [| exact IH].
    constructor; [| exact IH]. split; assumption.
  - intros [bc0 best0] [e seg] [bc1 best1] Hin Hall Hstep. simpl in *.
    apply elem_of_enumerate in Hin.
    mdestruct Hstep; simplify_eq; simpl; try assumption;
      repeat match goal with
             | H : at_ _ _ = Returns _ |- _ => apply at_Returns in H
             end.
    + repeat constructor. simpl. eauto 10.
    + apply Forall_app. split; [assumption |]. repeat constructor. simpl. eauto 10.
  - constructor.
Qed.

(** A crash candidate belongs to a motorcycle whose head moves. *)
Lemma FindCrashes_entries graph lastEventTime bestCollapseTime crashes crashTime :
  FindCrashes build graph lastEventTime bestCollapseTime = Returns (crashes, crashTime) ->
  Forall (fun entry =>
            exists motor head,
              Graph._motorcycleSegments graph !! entry.2 = Some motor
              /\ Graph._vertices graph !! N.to_nat (MotorcycleSegment._head motor) = Some head
              /\ Equivalent2 (Vertex._velocity head) Zero2 GetEpsilon = false)
    crashes.
Proof.
  intros H. unfold FindCrashes in H.
  apply (foldM_preserves_elem (fun st =>
           Forall (fun entry =>
                     exists motor head,
                       Graph._motorcycleSegments graph !! entry.2 = Some motor
                       /\ Graph._vertices graph !! N.to_nat (MotorcycleSegment._head motor)
                          = Some head
                       /\ Equivalent2 (Vertex._velocity head) Zero2 GetEpsilon = false)
             st.1)) in H; [exact H | | constructor].
  intros [bm0 t0] [m motor] [bm1 t1] Hin Hall Hstep. simpl in *.
  apply elem_of_enumerate in Hin.
  mdestruct Hstep; simplify_eq; simpl; try assumption;
    repeat match goal with
           | H : at_ _ _ = Returns _ |- _ => apply at_Returns in H
           end.
  - repeat constructor. simpl. eauto 10.
  - apply Forall_app. split; [assumption |]. repeat constructor. simpl. eauto 10.
Qed.

Lemma CalculateCollapseTime_zero_velocity v0 v1 :
  Equivalent P0 P0 GetEpsilon = true ->
  Vertex._velocity v0 = Zero2 \/ Vertex._velocity v1 = Zero2 ->
  CalculateCollapseTime v0 v1 = numeric_max.
Proof.
  intros Hz H. unfold CalculateCollapseTime.
  assert (E : Equivalent2 Zero2 Zero2 GetEpsilon = true).
  { unfold Equivalent2, Zero2. simpl. rewrite Hz. reflexivity. }
  destruct H as [-> | ->].
  - rewrite E. reflexivity.
  - rewrite E. destruct (Equivalent2 (Vertex._velocity v0) Zero2 GetEpsilon); reflexivity.
Qed.

Lemma Forall_filter_elem {A} (P : A -> Prop) (f : A -> bool) (l : list A) x :
  x ∈ List.filter f l -> x ∈ l.
Proof. rewrite !list_elem_of_In. intros H. apply List.filter_In in H as [H _]. exact H. Qed.

(** C7.  A turn of the event loop that processes an event, seen from its
    vertices.  What FreezeInPlace leaves is a vertex with the velocity zero,
    the skeleton-vertex id [~0u] and the time of the freeze.  Every vertex
    is after the turn as it was before, or left by FreezeInPlace at the time
    of the event.  And a vertex whose velocity is zero before the turn is
    after it as it was, in position, velocity, initial time and
    skeleton-vertex id: the zero velocity is within epsilon of zero, so its
    edges have the sentinel for collapse time and its motorcycle is skipped,
    and the sentinel is not within epsilon of the time of the collapses
    (in floating point the sentinel plus epsilon is the sentinel).  The
    indices of the vertices are taken to fit in 32 bits. *)
Theorem frozen_vertices_stay (maxTime : Primitive) (s s' : Sim) :
  Iteration build maxTime s = Returns (Some s') ->
  Equivalent P0 P0 GetEpsilon = true ->
  (forall bestCollapse bestCollapseTime,
     FindCollapses build (graph_ s) (lastEventTime s)
     = Returns (bestCollapse, bestCollapseTime) ->
     (numeric_max <? bestCollapseTime + GetEpsilon) = false) ->
  size (Graph._vertices (graph_ s')) < 4294967296 ->
  (forall v atTime v', FreezeInPlace build v atTime = Returns v' -> FrozenAt atTime v')
  /\ (forall i v, Graph._vertices (graph_ s) !! i = Some v ->
        exists v', Graph._vertices (graph_ s') !! i = Some v'
                   /\ (v' = v \/ FrozenAt (lastEventTime s') v'))
  /\ (forall i v, Graph._vertices (graph_ s) !! i = Some v ->
        Vertex._velocity v = Zero2 ->
        Graph._vertices (graph_ s') !! i = Some v).
Proof.
  intros H Hz Hsentinel Hsize.
  split; [intros v t v'; apply FreezeInPlace_FrozenAt |].
  unfold Iteration in H.
  apply obind_Returns in H as ([bc bct] & Hc & H).
  apply obind_Returns in H as ([bm bmt] & Hm & H).
  specialize (Hsentinel _ _ Hc).
  (* the vertices that the turn may freeze have a velocity that is not zero *)
  assert (Hev : exists W : nat -> Prop,
            Evolves W (lastEventTime s') (Graph._vertices (graph_ s))
              (Graph._vertices (graph_ s'))
            /\ forall i v, W i -> Graph._vertices (graph_ s) !! i = Some v ->
                  Vertex._velocity v <> Zero2).
  { destruct (negb (bool_decide (bm = []))).
    - destruct (bmt >? maxTime); [discriminate |].
      apply obind_Returns in H as ([[g r] t] & Hp & H). injection H as <-. simpl in *.
      apply ProcessMotorcycleCrash_vertices in Hp as (front & motor & Hfront & Hmotor & Hev).
      exists (eq (N.to_nat (MotorcycleSegment._head motor))). split; [exact Hev |].
      intros i v <- Hv Hzero.
      apply FindCrashes_entries in Hm. rewrite Forall_forall in Hm.
      destruct (Hm front) as (motor' & head & H1 & H2 & H3).
      { eapply (Forall_filter_elem (fun _ => True)), list_elem_of_lookup_2, Hfront. }
      assert (motor' = motor) by congruence. subst motor'.
      assert (head = v) by congruence. subst head.
      rewrite Hzero in H3. unfold Equivalent2, Zero2 in H3. simpl in H3.
      rewrite Hz in H3. discriminate.
    - destruct (bool_decide (bc = [])); [discriminate |].
      destruct (bct >? maxTime); [discriminate |].
      apply obind_Returns in H as ([g r] & Hp & H). injection H as <-. simpl in *.
      pose proof (FindCollapses_entries _ _ _ _ Hc) as Hentries.
      rewrite Forall_forall in Hentries.
      exists (fun i => exists entry seg,
                entry ∈ bc /\ Graph._wavefrontEdges (graph_ s) !! entry.2 = Some seg
                /\ (i = N.to_nat (Segment._head seg) \/ i = N.to_nat (Segment._tail seg))).
      split.
      + eapply ProcessCollapses_vertices; [exact Hp | | exact Hsize].
        intros c t e seg Hce Hseg.
        assert (Hin : (t, e) ∈ bc) by (eapply list_elem_of_lookup_2, Hce).
        split; exists (t, e), seg; auto.
      + intros i v (entry & seg & Hin & Hseg & Hi) Hv Hzero.
        destruct (Hentries entry Hin) as (Hlt & seg' & v0 & v1 & H1 & H2 & H3 & H4).
        assert (seg' = seg) by congruence. subst seg'.
        rewrite CalculateCollapseTime_zero_velocity in H4; [| exact Hz |].
        * rewrite H4 in Hlt. congruence.
        * destruct Hi as [-> | ->]; [left | right]; congruence. }
  destruct Hev as (W & Hev & HW). split.
  - intros i v Hv. destruct (Hev i v Hv) as [Hsame | (_ & v' & H1 & H2)]; eauto.
  - intros i v Hv Hzero. destruct (Hev i v Hv) as [Hsame | (Hw & _)]; [exact Hsame |].
    exfalso. exact (HW i v Hw Hv Hzero).
Qed.

End Frozen.

(** *** C6: the inset zero *)

Section ZeroInset.
Context {S : Scalar}.
Variable build : Build.
Hypothesis Hd : NDEBUG build = false.
Local Open Scope prim_scope.

Lemma BuildEdgeAndVertex_inv vertices l edges verts edges' verts' :
  foldM (BuildEdgeAndVertex build vertices) l (edges, verts) = Returns (edges', verts') ->
  Forall (fun v => Vertex._initialTime v = P0) verts ->
  Forall (fun v => Vertex._initialTime v = P0) verts'
  /\ length edges' = (length edges + length l)%nat.
Proof.
  revert edges verts. induction l as [| v l IH]; intros edges verts H Hall; simpl in H.
  - injection H as <- <-. split; [exact Hall | simpl; lia].
  - apply obind_Returns in H as ([edges1 verts1] & Hstep & H).
    unfold BuildEdgeAndVertex in Hstep. mdestruct Hstep.
    injection Hstep as <- <-.
    apply IH in H.
    + destruct H as [H1 H2]. split; [exact H1 |]. rewrite H2, length_app. simpl. lia.
    + apply Forall_app. split; [exact Hall |]. repeat constructor.
Qed.

Lemma BuildMotorcycle_inv vertices l verts ms verts' ms' :
  foldM (BuildMotorcycle vertices) l (verts, ms) = Returns (verts', ms') ->
  Forall (fun v => Vertex._initialTime v = P0) verts ->
  Forall (fun v => Vertex._initialTime v = P0) verts'.
Proof.
  intros H Hall.
  apply (foldM_preserves (fun st => Forall (fun v => Vertex._initialTime v = P0) st.1))
    in H; [exact H | | exact Hall].
  clear. intros [vs m] x [vs' m'] Hs Hstep. simpl in *.
  unfold BuildMotorcycle in Hstep. mdestruct Hstep; simplify_eq; [| exact Hs].
  apply Forall_app. split; [exact Hs |]. repeat constructor.
Qed.

Lemma BuildGraphFromVertexLoop_initial vertices graph :
  BuildGraphFromVertexLoop build vertices = Returns graph ->
  Graph._wavefrontEdges graph <> []
  /\ Forall (fun v => Vertex._initialTime v = P0) (Graph._vertices graph).
Proof.
  unfold BuildGraphFromVertexLoop. intros H.
  apply obind_Returns in H as (u & Ha & H).
  apply assert_Returns_true in Ha; [| exact Hd].
  apply obind_Returns in H as ([edges verts] & H1 & H).
  apply obind_Returns in H as ([verts' ms] & H2 & H).
  injection H as <-. simpl.
  apply BuildEdgeAndVertex_inv in H1; [| constructor]. destruct H1 as [Hv He].
  split.
  - intros ->. simpl in He. unfold indices in He.
    rewrite length_fmap, length_seq in He.
    apply N.leb_le in Ha. lia.
  - eapply BuildMotorcycle_inv; eassumption.
Qed.

Lemma ClampedPositionAtTime_cases v time :
  ClampedPositionAtTime build v time = AssertionFailed 285
  \/ exists p, ClampedPositionAtTime build v time = Returns p
               /\ (z3 p = Vertex._initialTime v \/ z3 p = time).
Proof.
  unfold ClampedPositionAtTime, PositionAtTime.
  destruct (Equivalent2 _ _ _); [right; eexists; split; [reflexivity | simpl; auto] |].
  match goal with
  | |- context [assert_ build ?l ?c] => destruct (assert_cases build l c) as [-> | ->]
  end; cbn [obind]; [right; eexists; split; [reflexivity | simpl; auto] | left; reflexivity].
Qed.

Lemma AddSteinerVertex_zero sk p :
  (z3 p =? P0) = true -> AddSteinerVertex build sk p = AssertionFailed 255.
Proof.
  intros Hz. unfold AddSteinerVertex. rewrite Hz. cbn [negb].
  rewrite (assert_false build 255 Hd). reflexivity.
Qed.

Lemma WriteWavefront_zero_fails fuel graph result e rest hv tv :
  (P0 =? P0) = true ->
  Graph._wavefrontEdges graph = e :: rest ->
  at_ (Graph._vertices graph) (Segment._head e) = Returns hv ->
  at_ (Graph._vertices graph) (Segment._tail e) = Returns tv ->
  Vertex._initialTime hv = P0 -> Vertex._initialTime tv = P0 ->
  WriteWavefront build fuel graph result P0 = AssertionFailed 255
  \/ WriteWavefront build fuel graph result P0 = AssertionFailed 285.
Proof.
  intros Hz He Hhv Htv Hh0 Ht0. unfold WriteWavefront. rewrite He. cbn [foldM].
  rewrite Hhv. cbn [obind].
  destruct (ClampedPositionAtTime_cases hv P0) as [-> | (A & -> & HA)]; cbn [obind];
    [right; reflexivity |].
  rewrite Htv. cbn [obind].
  destruct (ClampedPositionAtTime_cases tv P0) as [-> | (B & -> & HB)]; cbn [obind];
    [right; reflexivity |].
  rewrite AddSteinerVertex_zero; [left; reflexivity |].
  rewrite Hh0 in HA. destruct HA as [-> | ->]; exact Hz.
Qed.

Lemma elem_of_indices (n v : N) : v ∈ indices n -> v < n.
Proof.
  unfold indices. intros H. apply list_elem_of_fmap in H as (k & -> & Hk).
  apply elem_of_seq in Hk. lia.
Qed.

Lemma u32_le (n : N) : u32 n <= n.
Proof. unfold u32. apply N.Div0.mod_le. Qed.

Lemma BuildEdgeAndVertex_built vertices l edges verts edges' verts' :
  let Built := fun st : list Segment.t * list (Vertex.t Primitive) =>
    Forall (fun e => Segment._head e < size vertices /\ Segment._tail e < size vertices) st.1
    /\ Forall (fun v => Vertex._initialTime v = P0) st.2 in
  foldM (BuildEdgeAndVertex build vertices) l (edges, verts) = Returns (edges', verts') ->
  Forall (fun v => v < size vertices) l ->
  Built (edges, verts) -> Built (edges', verts').
Proof.
  intros Built H Hl Hs.
  apply (foldM_preserves_elem Built) in H; [exact H | | exact Hs].
  intros [es vs] v [es' vs'] Hv [Hes Hvs] Hstep. rewrite Forall_forall in Hl.
  apply Hl in Hv. unfold BuildEdgeAndVertex in Hstep. mdestruct Hstep.
  injection Hstep as <- <-. split; simpl.
  - apply Forall_app. split; [exact Hes |]. repeat constructor; simpl.
    + pose proof (u32_le ((v + 1) mod size vertices)).
      assert ((v + 1) mod size vertices < size vertices) by (apply N.mod_lt; lia). lia.
    + pose proof (u32_le v). lia.
  - apply Forall_app. split; [exact Hvs |]. repeat constructor.
Qed.

Lemma BuildGraphFromVertexLoop_first vertices graph :
  BuildGraphFromVertexLoop build vertices = Returns graph ->
  exists e rest hv tv,
    Graph._wavefrontEdges graph = e :: rest
    /\ at_ (Graph._vertices graph) (Segment._head e) = Returns hv
    /\ at_ (Graph._vertices graph) (Segment._tail e) = Returns tv
    /\ Vertex._initialTime hv = P0 /\ Vertex._initialTime tv = P0.
Proof.
  intros H. pose proof (BuildGraphFromVertexLoop_initial _ _ H) as [Hne Hall].
  unfold BuildGraphFromVertexLoop in H.
  apply obind_Returns in H as (u & _ & H).
  apply obind_Returns in H as ([edges verts] & H1 & H).
  apply obind_Returns in H as ([verts' ms] & H2 & H).
  injection H as <-. simpl in *.
  pose proof (BuildEdgeAndVertex_length build _ _ _ _ _ _ H1) as Hlen.
  apply BuildEdgeAndVertex_built in H1;
    [| apply Forall_forall; intros v; apply elem_of_indices | split; constructor].
  destruct H1 as [Hedges _]. simpl in Hedges.
  apply BuildMotorcycle_spec in H2 as (anchors & -> & _).
  destruct edges as [| e rest]; [congruence |].
  apply Forall_cons in Hedges as [[Hh Ht] _].
  unfold indices in Hlen. rewrite length_fmap, length_seq in Hlen. simpl in Hlen.
  unfold size in Hh, Ht.
  assert (Hin : forall i : N, i < N.of_nat (length vertices) ->
                  exists v, at_ (verts ++ anchors) i = Returns v
                            /\ Vertex._initialTime v = P0).
  { intros i Hi. destruct ((verts ++ anchors) !! N.to_nat i) as [v |] eqn:Hv.
    - exists v. split; [apply at_Returns; exact Hv |].
      rewrite Forall_forall in Hall. apply Hall. eapply list_elem_of_lookup_2, Hv.
    - apply lookup_ge_None in Hv. rewrite length_app in Hv. unfold size in Hlen. lia. }
  destruct (Hin _ Hh) as (hv & Hhv & Hh0). destruct (Hin _ Ht) as (tv & Htv & Ht0).
  exists e, rest, hv, tv. auto.
Qed.

Lemma CalculateSkeleton_no_event fuel graph maxTime :
  Iteration build maxTime (InitialSim graph) = Returns None ->
  CalculateSkeleton build (Datatypes.S fuel) graph maxTime
  = WriteWavefront build (Datatypes.S fuel) graph (result_ (InitialSim graph))
      (if maxTime =? numeric_max then P0 else maxTime).
Proof.
  intros Hit. unfold CalculateSkeleton. cbn [EventLoop].
  change (mkSim graph _ P0 0) with (InitialSim graph). rewrite Hit. reflexivity.
Qed.

Lemma zero_inset_fails fuel vertices :
  (P0 =? P0) = true ->
  NoEventAtTimeZero build vertices = true ->
  CalculateStraightSkeleton build (Datatypes.S fuel) vertices P0 = AssertionFailed 255
  \/ CalculateStraightSkeleton build (Datatypes.S fuel) vertices P0 = AssertionFailed 285.
Proof.
  intros Hz Hno. unfold NoEventAtTimeZero in Hno. unfold CalculateStraightSkeleton.
  destruct (BuildGraphFromVertexLoop build vertices) as [graph | | |] eqn:Hg;
    try discriminate.
  destruct (Iteration build P0 (InitialSim graph)) as [[s |] | | |] eqn:Hit;
    try discriminate.
  cbn [obind]. rewrite (CalculateSkeleton_no_event _ _ _ Hit).
  assert ((if P0 =? numeric_max then P0 else P0) = P0) as ->
    by (destruct (P0 =? numeric_max); reflexivity).
  destruct (BuildGraphFromVertexLoop_first _ _ Hg) as (e & rest & hv & tv & He & Hhv & Htv & Hh0 & Ht0).
  eapply WriteWavefront_zero_fails; eassumption.
Qed.
End ZeroInset.

(** *** C5 and C6: the unit square, run *)

Section UnitSquare.
Local Existing Instance Double.scalar.

(** C5.  For the counter-clockwise unit square and [maxInset] the sentinel,
    whatever the build: at the first turn of the event loop the four
    wavefront edges are the collapses, all at the time 0.5; the skeleton has
    the one Steiner vertex (0.5, 0.5, 0.5); its edges are four vertex paths,
    one from each input corner to that vertex (each stored for the two
    faces beside it), and nothing else. *)
Theorem unit_square_collapses_to_centre (build : Build) (fuel : nat) :
  BuildGraphFromVertexLoop build Double.UnitSquare = Returns Double.UnitSquareGraph
  /\ FindCollapses build Double.UnitSquareGraph 0%float
     = Returns ([(0.5%float, 0%nat); (0.5%float, 1%nat); (0.5%float, 2%nat);
                 (0.5%float, 3%nat)], 0.5%float)
  /\ exists sk,
       CalculateStraightSkeleton build (2 + fuel) Double.UnitSquare Double.max = Returns sk
       /\ StraightSkeleton._steinerVertices sk = [Vec3 0.5 0.5 0.5]%float
       /\ UndirectedEdges VertexPath sk
          = [(0, BoundaryVertex 1); (0, BoundaryVertex 2);
             (0, BoundaryVertex 0); (0, BoundaryVertex 3)]
       /\ UndirectedEdges Wavefront sk = []
       /\ length (AllEdges sk) = 8%nat.
Proof.
  destruct build as [[|] [|]]; (split; [vm_compute; reflexivity |]);
    (split; [vm_compute; reflexivity |]); eexists;
    (split; [vm_compute; reflexivity |]); repeat apply conj; vm_compute; reflexivity.
Qed.

(** C6.  The closure round trip at the inset zero fails on the unit
    square: in a build with assertions CalculateStraightSkeleton with
    [maxInset = 0] returns no skeleton, and so no loops to compare with the
    input.  WriteWavefront hands to AddSteinerVertex the corners at the time
    zero, and AddSteinerVertex refuses a vertex of the time zero by its
    first assertion (line 255). *)
Theorem unit_square_zero_inset_asserts :
  CalculateStraightSkeleton DebugBuild 100 Double.UnitSquare 0%float = AssertionFailed 255.
Proof. vm_compute. reflexivity. Qed.

(** The unit square is no exception.  In a build with assertions, on every
    input for which no event is due at the time zero,
    CalculateStraightSkeleton with [maxInset = 0] fails an assertion:
    WriteWavefront hands to AddSteinerVertex a vertex of the time zero,
    which its first assertion (line 255) refuses, unless a position is not
    finite (line 285).  Without assertions the unit square comes back: the
    wavefront of its skeleton is one loop through four Steiner vertices,
    which are its four corners at the time zero (the loop runs through them
    clockwise). *)
Theorem zero_inset_wavefront (build : Build) (fuel : nat)
    (vertices : list (Vector2T float)) :
  (NDEBUG build = false -> NoEventAtTimeZero build vertices = true ->
   CalculateStraightSkeleton build (Datatypes.S fuel) vertices 0%float = AssertionFailed 255
   \/ CalculateStraightSkeleton build (Datatypes.S fuel) vertices 0%float
      = AssertionFailed 285)
  /\ CalculateStraightSkeleton ReleaseBuild 100 Double.UnitSquare 0%float
     = Returns Double.UnitSquareAtZero
  /\ WavefrontAsVertexLoops ReleaseBuild Double.UnitSquareAtZero = Returns [[1; 3; 2; 0]]
  /\ StraightSkeleton._steinerVertices Double.UnitSquareAtZero
     = [Vec3 1 0 0; Vec3 0 0 0; Vec3 1 1 0; Vec3 0 1 0]%float.
Proof.
  split.
  - intros Hd Hno.
    exact (zero_inset_fails (S := Double.scalar) build Hd fuel vertices eq_refl Hno).
  - repeat apply conj; vm_compute; reflexivity.
Qed.

(** Without assertions, at the inset zero: the L-shape comes back, one
    loop through its six corners at the time zero, and for the thin
    trapezoid the reconstruction of the loops reads a segment that is not
    there. *)
Lemma zero_inset_without_assertions :
  (exists sk,
     CalculateStraightSkeleton ReleaseBuild 100 Double.LShape 0%float = Returns sk
     /\ WavefrontAsVertexLoops ReleaseBuild sk = Returns [[1; 5; 4; 3; 2; 0]]
     /\ StraightSkeleton._steinerVertices sk
        = [Vec3 2 0 0; Vec3 0 0 0; Vec3 2 1 0; Vec3 1 1 0; Vec3 1 2 0; Vec3 0 2 0]%float)
  /\ (exists sk,
        CalculateStraightSkeleton ReleaseBuild 100 Double.ThinTrapezoid 0%float = Returns sk
        /\ WavefrontAsVertexLoops ReleaseBuild sk = UndefinedBehaviour).
Proof.
  split; eexists; (split; [vm_compute; reflexivity |]);
    repeat apply conj; vm_compute; reflexivity.
Qed.

End UnitSquare.

(** ** Further properties of the code *)

(** *** The wavefront graph builder *)

Section Builder2.
Context {S : Scalar}.
Variable build : Build.
Local Open Scope prim_scope.

Lemma BuildEdgeAndVertex_spec vertices l edges verts edges' verts' :
  foldM (BuildEdgeAndVertex build vertices) l (edges, verts) = Returns (edges', verts') ->
  edges' = edges ++ (LoopEdge (size vertices) <$> l)
  /\ exists vs, verts' = verts ++ vs
       /\ Forall2 (fun v vert =>
                     LoopVertex build vertices v vert
                     /\ (NDEBUG build = false ->
                         Equivalent2 (Vertex._velocity vert) Zero2 GetEpsilon = false))
            l vs.
Proof.
  revert edges verts. induction l as [| v l IH]; intros edges verts H; simpl in H.
  - injection H as <- <-. rewrite app_nil_r. split; [reflexivity |].
    exists []. rewrite app_nil_r. split; [reflexivity | constructor].
  - apply obind_Returns in H as ([edges1 verts1] & Hstep & H).
    apply IH in H as (-> & vs & -> & Hvs). clear IH.
    unfold BuildEdgeAndVertex in Hstep.
    apply obind_Returns in Hstep as (p0 & Hp0 & Hstep).
    apply obind_Returns in Hstep as (p1 & Hp1 & Hstep).
    apply obind_Returns in Hstep as (p2 & Hp2 & Hstep).
    apply obind_Returns in Hstep as (velocity & Hvel & Hstep).
    apply obind_Returns in Hstep as (u & Hassert & Hstep).
    apply obind_Returns in Hstep as (p & Hp & Hstep).
    injection Hstep as <- <-.
    apply at_Returns in Hp0, Hp1, Hp2, Hp.
    split; [rewrite <- app_assoc; reflexivity |].
    eexists (_ :: vs). split; [rewrite <- app_assoc; reflexivity |].
    constructor; [| exact Hvs]. split.
    + exists p0, p1, p2. simpl. repeat split; try assumption. congruence.
    + intros Hd. simpl. apply (assert_Returns_true build) in Hassert; [| exact Hd].
      apply negb_true_iff in Hassert. exact Hassert.
Qed.

(** X1.  The graph that BuildGraphFromVertexLoop returns is the input loop:
    its boundary points are the input vertices, its wavefront edges are one
    edge per input vertex, from the vertex to the next one of the loop, in
    the order of the loop, and its first vertices are the input vertices,
    each at its position, with its boundary id, the initial time zero and
    the velocity that CalculateVertexVelocity returns for it and its two
    neighbours; in a build with assertions that velocity is not within
    epsilon of zero. *)
Theorem builder_follows_the_loop (vertices : list (Vector2T Primitive))
    (graph : Graph.t Primitive) :
  BuildGraphFromVertexLoop build vertices = Returns graph ->
  Graph._boundaryPoints graph = vertices
  /\ Graph._wavefrontEdges graph = LoopEdge (size vertices) <$> indices (size vertices)
  /\ (forall v : nat, (v < length vertices)%nat ->
        exists vert,
          Graph._vertices graph !! v = Some vert
          /\ LoopVertex build vertices (N.of_nat v) vert
          /\ (NDEBUG build = false ->
              Equivalent2 (Vertex._velocity vert) Zero2 GetEpsilon = false)).
Proof.
  unfold BuildGraphFromVertexLoop. intros H.
  apply obind_Returns in H as (u & _ & H).
  apply obind_Returns in H as ([edges verts] & H1 & H).
  apply obind_Returns in H as ([verts' ms] & H2 & H).
  injection H as <-. simpl.
  apply BuildEdgeAndVertex_spec in H1 as (-> & vs & -> & Hvs). simpl in *.
  apply BuildMotorcycle_spec in H2 as (anchors & -> & _).
  split; [reflexivity |]. split; [reflexivity |].
  intros v Hv.
  assert (indices (size vertices) !! v = Some (N.of_nat v)) as Hi.
  { unfold indices, size. rewrite list_lookup_fmap, Nat2N.id.
    rewrite lookup_seq_lt by exact Hv. reflexivity. }
  destruct (Forall2_lookup_l _ _ _ _ _ Hvs Hi) as (vert & Hvert & Hspec & Hnz).
  exists vert. split; [| split; assumption].
  apply lookup_app_l_Some. exact Hvert.
Qed.

(** X2.  In a build with assertions BuildGraphFromVertexLoop fails the
    assertion of line 158 on fewer than two vertices.  Without assertions
    the empty loop gives the empty graph, and CalculateStraightSkeleton
    gives the empty skeleton for it. *)
Theorem builder_needs_two_vertices (vertices : list (Vector2T Primitive)) :
  (NDEBUG build = false -> (length vertices < 2)%nat ->
   BuildGraphFromVertexLoop build vertices = AssertionFailed 158)
  /\ (NDEBUG build = true ->
      BuildGraphFromVertexLoop build [] = Returns (Graph.mk [] [] [] [])
      /\ forall fuel maxInset,
           CalculateStraightSkeleton build (Datatypes.S fuel) [] maxInset
           = Returns (StraightSkeleton.mk [] [] [])).
Proof.
  split.
  - intros Hd Hlen. unfold BuildGraphFromVertexLoop.
    assert ((2 <=? size vertices)%N = false) as ->.
    { apply N.leb_gt. unfold size. lia. }
    rewrite (assert_false build 158 Hd). reflexivity.
  - intros Hr.
    assert (forall line c, assert_ build line c = Returns tt) as Hassert.
    { intros line c. unfold assert_. rewrite Hr. reflexivity. }
    assert (BuildGraphFromVertexLoop build [] = Returns (Graph.mk [] [] [] [])) as Hg.
    { unfold BuildGraphFromVertexLoop. rewrite Hassert. reflexivity. }
    split; [exact Hg |]. intros fuel maxInset.
    unfold CalculateStraightSkeleton. rewrite Hg. reflexivity.
Qed.
End Builder2.

(** *** The scan for the edges at a vertex *)

Section Scans.
Context {S : Scalar}.
Variable build : Build.
Local Open Scope prim_scope.

Lemma FindInAndOut_scan pivot (l : list Segment.t) (k : nat) first0 second0 first second :
  let isIn := fun s => (Segment._head s =? pivot)%N in
  let isOut := fun s => negb (Segment._head s =? pivot)%N && (Segment._tail s =? pivot)%N in
  let picked := fun (p : Segment.t -> bool) (r0 r : option nat) =>
    (r = r0 /\ Forall (fun s => p s = false) l)
    \/ (exists i x, r = Some (k + i)%nat /\ l !! i = Some x /\ p x = true
          /\ Forall (fun s => p s = false) (drop (Datatypes.S i) l)
          /\ (NDEBUG build = false ->
              r0 = None /\ Forall (fun s => p s = false) (take i l))) in
  foldM (fun '(first, second) '(i, s) =>
    if (Segment._head s =? pivot)%N then
      let* _ := assert_ build 394 (bool_decide (first = None)) in
      Returns (Some i, second)
    else if (Segment._tail s =? pivot)%N then
      let* _ := assert_ build 397 (bool_decide (second = None)) in
      Returns (first, Some i)
    else Returns (first, second))
    (imap (fun i x => ((k + i)%nat, x)) l) (first0, second0) = Returns (first, second) ->
  picked isIn first0 first /\ picked isOut second0 second.
Proof.
  intros isIn isOut picked. subst picked. cbv beta.
  revert k first0 second0. induction l as [| x l IH]; intros k first0 second0 H.
  - simpl in H. injection H as <- <-. split; left; (split; [reflexivity | constructor]).
  - rewrite imap_cons in H. cbn [foldM] in H.
    apply obind_Returns in H as ([first1 second1] & Hstep & H).
    rewrite (imap_ext _ (fun i x => ((Datatypes.S k + i)%nat, x))) in H
      by (intros; simpl; f_equal; lia).
    apply IH in H as [Hin Hout]. clear IH.
    rewrite Nat.add_0_r in Hstep.
    assert (Hshift : forall (p : Segment.t -> bool) r0 r1 r,
              ((p x = false /\ r1 = r0)
               \/ (p x = true /\ r1 = Some k /\ (NDEBUG build = false -> r0 = None))) ->
              ((r = r1 /\ Forall (fun s => p s = false) l)
               \/ (exists i y, r = Some (Datatypes.S k + i)%nat /\ l !! i = Some y /\ p y = true
                     /\ Forall (fun s => p s = false) (drop (Datatypes.S i) l)
                     /\ (NDEBUG build = false ->
                         r1 = None /\ Forall (fun s => p s = false) (take i l)))) ->
              (r = r0 /\ Forall (fun s => p s = false) (x :: l))
              \/ (exists i y, r = Some (k + i)%nat /\ (x :: l) !! i = Some y /\ p y = true
                    /\ Forall (fun s => p s = false) (drop (Datatypes.S i) (x :: l))
                    /\ (NDEBUG build = false ->
                        r0 = None /\ Forall (fun s => p s = false) (take i (x :: l))))).
    { intros p r0 r1 r [[Hx ->] | (Hx & -> & Hd0)] [[-> Hl] | (i & y & -> & Hy & Hpy & Hafter & Hd)].
      - left. split; [reflexivity |]. constructor; assumption.
      - right. exists (Datatypes.S i), y. split; [f_equal; lia |]. split; [exact Hy |].
        split; [exact Hpy |]. split; [exact Hafter |].
        intros Hdbg. destruct (Hd Hdbg) as [-> Hbefore]. split; [reflexivity |].
        simpl. constructor; assumption.
      - right. exists 0%nat, x. split; [f_equal; lia |]. split; [reflexivity |].
        split; [exact Hx |]. split; [exact Hl |].
        intros Hdbg. split; [auto | constructor].
      - right. exists (Datatypes.S i), y. split; [f_equal; lia |]. split; [exact Hy |].
        split; [exact Hpy |]. split; [exact Hafter |].
        intros Hdbg. destruct (Hd Hdbg) as [Hnone _]. discriminate. }
    subst isIn isOut. cbv beta in *.
    destruct (Segment._head x =? pivot)%N eqn:Eh.
    + apply obind_Returns in Hstep as (u & Ha & Hstep). injection Hstep as <- <-.
      split; (eapply Hshift; [| eassumption]).
      * right. split; [exact Eh |]. split; [reflexivity |].
        intros Hdbg. apply (assert_Returns_true build) in Ha; [| exact Hdbg].
        apply bool_decide_eq_true in Ha. exact Ha.
      * left. rewrite Eh. auto.
    + destruct (Segment._tail x =? pivot)%N eqn:Et.
      * apply obind_Returns in Hstep as (u & Ha & Hstep). injection Hstep as <- <-.
        split; (eapply Hshift; [| eassumption]).
        -- left. auto.
        -- right. rewrite Eh, Et. split; [reflexivity |]. split; [reflexivity |].
           intros Hdbg. apply (assert_Returns_true build) in Ha; [| exact Hdbg].
           apply bool_decide_eq_true in Ha. exact Ha.
      * injection Hstep as <- <-.
        split; (eapply Hshift; [| eassumption]); left; rewrite ?Eh, ?Et; auto.
Qed.

(** X3.  FindInAndOut returns, as [first], the position of the last edge
    whose head is the pivot vertex, and as [second] the position of the last
    edge whose tail is the pivot and whose head is not; a null pointer says
    that there is no such edge.  In a build with assertions the edge found
    is the only one. *)
Theorem FindInAndOut_picks edges pivotVertex first second :
  FindInAndOut build edges pivotVertex = Returns (first, second) ->
  Picked build (fun s => (Segment._head s =? pivotVertex)%N) edges first
  /\ Picked build (fun s => negb (Segment._head s =? pivotVertex)%N
                            && (Segment._tail s =? pivotVertex)%N) edges second.
Proof.
  unfold FindInAndOut, enumerate. intros H.
  rewrite (imap_ext _ (fun i x => ((0 + i)%nat, x))) in H by reflexivity.
  apply FindInAndOut_scan in H as [Hin Hout].
  split.
  - destruct Hin as [[-> Hl] | (i & x & -> & Hx & Hp & Hafter & Hd)]; simpl; [exact Hl |].
    exists x. repeat split; try assumption. intros Hdbg. apply Hd, Hdbg.
  - destruct Hout as [[-> Hl] | (i & x & -> & Hx & Hp & Hafter & Hd)]; simpl; [exact Hl |].
    exists x. repeat split; try assumption. intros Hdbg. apply Hd, Hdbg.
Qed.
End Scans.

(** *** Steiner vertices and edges of the skeleton *)

Section Skeleton.
Context {S : Scalar}.
Variable build : Build.
Local Open Scope prim_scope.

(** **** What AddSteinerVertex does to the skeleton *)

Lemma AddSteinerVertex_cases sk vertex i sk' :
  AddSteinerVertex build sk vertex = Returns (i, sk') ->
  StraightSkeleton._faces sk' = StraightSkeleton._faces sk
  /\ StraightSkeleton._unplacedEdges sk' = StraightSkeleton._unplacedEdges sk
  /\ ((sk' = sk
       /\ exists k w, i = u32 (N.of_nat k)
            /\ StraightSkeleton._steinerVertices sk !! k = Some w
            /\ Equivalent3 w vertex GetEpsilon = true
            /\ Forall (fun y => Equivalent3 y vertex GetEpsilon = false)
                 (take k (StraightSkeleton._steinerVertices sk)))
      \/ (StraightSkeleton._steinerVertices sk'
          = StraightSkeleton._steinerVertices sk ++ [vertex]
          /\ i = u32 (size (StraightSkeleton._steinerVertices sk))
          /\ Forall (fun y => Equivalent3 y vertex GetEpsilon = false)
               (StraightSkeleton._steinerVertices sk))).
Proof.
  unfold AddSteinerVertex. intros H.
  apply obind_Returns in H as (u1 & _ & H).
  apply obind_Returns in H as (u2 & _ & H).
  apply obind_Returns in H as (u3 & _ & H).
  destruct (find_if _ _) as [k |] eqn:E.
  - injection H as <- <-. repeat split. left. split; [reflexivity |].
    apply find_if_Some in E as (w & Hw & Hp & Hbefore). eauto 10.
  - apply obind_Returns in H as (u4 & _ & H). injection H as <- <-. simpl.
    repeat split. right. repeat split. apply find_if_None in E. exact E.
Qed.

Lemma AllEdges_AddSteinerVertex sk vertex i sk' :
  AddSteinerVertex build sk vertex = Returns (i, sk') -> AllEdges sk' = AllEdges sk.
Proof.
  intros H. apply AddSteinerVertex_cases in H as (Hf & Hu & _).
  unfold AllEdges. rewrite Hf, Hu. reflexivity.
Qed.

(** **** What AddEdge does to the edges *)

Lemma elem_of_AllEdges sk e :
  e ∈ AllEdges sk <->
  (exists f, f ∈ StraightSkeleton._faces sk /\ e ∈ Face._edges f)
  \/ e ∈ StraightSkeleton._unplacedEdges sk.
Proof.
  unfold AllEdges. rewrite elem_of_app, list_elem_of_In, in_concat.
  split; (intros [H | H]; [left | right; exact H]).
  - destruct H as (l & Hl & He). apply list_elem_of_In, list_elem_of_fmap in Hl.
    destruct Hl as (f & -> & Hf). exists f. split; [exact Hf |].
    apply list_elem_of_In. exact He.
  - destruct H as (f & Hf & He). exists (Face._edges f). split.
    + apply list_elem_of_In, list_elem_of_fmap. eauto.
    + apply list_elem_of_In. exact He.
Qed.

Lemma EdgeKeys_AddUnique dst edge dst' :
  AddUnique build dst edge = Returns dst' ->
  forall k, k ∈ EdgeKey <$> dst' <-> k ∈ EdgeKey <$> dst \/ k = EdgeKey edge.
Proof.
  intros H k. apply AddUnique_cases in H as [[-> Hnew] | [-> Hold]].
  - rewrite fmap_app, elem_of_app. simpl. rewrite list_elem_of_singleton. reflexivity.
  - split; [auto |]. intros [Hk | ->]; assumption.
Qed.

Lemma EdgeKeys_insert_face sk face f edges' :
  StraightSkeleton._faces sk !! face = Some f ->
  forall k,
    k ∈ EdgeKeys (StraightSkeleton.mk (StraightSkeleton._steinerVertices sk)
                    (<[face := Face.mk edges']> (StraightSkeleton._faces sk))
                    (StraightSkeleton._unplacedEdges sk))
    <-> (exists e, k = EdgeKey e
           /\ ((exists j g, j <> face /\ StraightSkeleton._faces sk !! j = Some g
                            /\ e ∈ Face._edges g)
               \/ e ∈ edges' \/ e ∈ StraightSkeleton._unplacedEdges sk)).
Proof.
  intros Hf k. unfold EdgeKeys. rewrite list_elem_of_fmap.
  split; intros (e & -> & He); exists e; (split; [reflexivity |]).
  - apply elem_of_AllEdges in He as [(g & Hg & He) | He]; simpl in *; [| auto].
    apply list_elem_of_lookup in Hg as (j & Hj).
    apply list_lookup_insert_Some in Hj as [(-> & <- & _) | (Hne & Hj)]; simpl in *; eauto 10.
  - apply elem_of_AllEdges. simpl.
    destruct He as [(j & g & Hne & Hj & He) | [He | He]]; [left | left | right; exact He].
    + exists g. split; [| exact He]. eapply list_elem_of_lookup_2.
      rewrite list_lookup_insert_ne by (intros Heq; apply Hne; symmetry; exact Heq). exact Hj.
    + exists (Face.mk edges'). split; [| exact He].
      apply list_elem_of_insert. eapply lookup_lt_Some, Hf.
Qed.

Lemma EdgeKeys_AddUnique_face sk face edge sk' :
  AddUnique_face build sk face edge = Returns sk' ->
  StraightSkeleton._steinerVertices sk' = StraightSkeleton._steinerVertices sk
  /\ length (StraightSkeleton._faces sk') = length (StraightSkeleton._faces sk)
  /\ forall k, k ∈ EdgeKeys sk' <-> k ∈ EdgeKeys sk \/ k = EdgeKey edge.
Proof.
  unfold AddUnique_face. intros H.
  apply obind_Returns in H as (f & Hf & H).
  apply obind_Returns in H as (edges' & Hadd & H). injection H as <-. simpl.
  split; [reflexivity |]. split; [apply length_insert |].
  apply at_Returns in Hf. intros k.
  rewrite (EdgeKeys_insert_face sk _ f edges' Hf).
  pose proof (EdgeKeys_AddUnique _ _ _ Hadd) as Hk.
  assert (Hsame : sk = StraightSkeleton.mk (StraightSkeleton._steinerVertices sk)
                         (<[N.to_nat face := Face.mk (Face._edges f)]>
                            (StraightSkeleton._faces sk))
                         (StraightSkeleton._unplacedEdges sk)).
  { destruct sk as [sv fs ue]. simpl in *. f_equal. symmetry. apply list_insert_id.
    destruct f. exact Hf. }
  assert (Hold : k ∈ EdgeKeys sk <->
            (exists e, k = EdgeKey e
               /\ ((exists j g, j <> N.to_nat face /\ StraightSkeleton._faces sk !! j = Some g
                                /\ e ∈ Face._edges g)
                   \/ e ∈ Face._edges f \/ e ∈ StraightSkeleton._unplacedEdges sk))).
  { rewrite <- (EdgeKeys_insert_face sk _ f (Face._edges f) Hf), <- Hsame. reflexivity. }
  rewrite Hold. clear Hold Hsame.
  split.
  - intros (e & -> & [He | [He | He]]); [left; eauto 10 | | left; eauto 10].
    assert (EdgeKey e ∈ EdgeKey <$> edges') as Hin by (apply list_elem_of_fmap; eauto).
    apply Hk in Hin as [Hin | ->]; [| right; reflexivity].
    apply list_elem_of_fmap in Hin as (e0 & -> & He0). left. eauto 10.
  - intros [(e & -> & [He | [He | He]]) | ->]; [eauto 10 | | eauto 10 |].
    + assert (EdgeKey e ∈ EdgeKey <$> edges') as Hin.
      { apply Hk. left. apply list_elem_of_fmap. eauto. }
      apply list_elem_of_fmap in Hin as (e0 & -> & He0). eauto 10.
    + assert (EdgeKey edge ∈ EdgeKey <$> edges') as Hin by (apply Hk; auto).
      apply list_elem_of_fmap in Hin as (e0 & -> & He0). eauto 10.
Qed.

Lemma EdgeKeys_AddUnique_unplaced sk edge sk' :
  AddUnique_unplaced build sk edge = Returns sk' ->
  StraightSkeleton._steinerVertices sk' = StraightSkeleton._steinerVertices sk
  /\ length (StraightSkeleton._faces sk') = length (StraightSkeleton._faces sk)
  /\ forall k, k ∈ EdgeKeys sk' <-> k ∈ EdgeKeys sk \/ k = EdgeKey edge.
Proof.
  unfold AddUnique_unplaced. intros H.
  apply obind_Returns in H as (edges' & Hadd & H). injection H as <-. simpl.
  split; [reflexivity |]. split; [reflexivity |].
  pose proof (EdgeKeys_AddUnique _ _ _ Hadd) as Hk. intros k.
  unfold EdgeKeys, AllEdges. simpl. rewrite !fmap_app, !elem_of_app, Hk. tauto.
Qed.

(** AddEdge, when the head and the tail differ: the two directions of the
    edge are added to the pairs of the skeleton, and nothing else changes. *)
Lemma AddEdge_cases sk h t l r type sk' :
  AddEdge build sk h t l r type = Returns sk' ->
  StraightSkeleton._steinerVertices sk' = StraightSkeleton._steinerVertices sk
  /\ length (StraightSkeleton._faces sk') = length (StraightSkeleton._faces sk)
  /\ ((h = t /\ sk' = sk)
      \/ (h <> t
          /\ forall k, k ∈ EdgeKeys sk' <-> k ∈ EdgeKeys sk \/ k = (h, t) \/ k = (t, h))).
Proof.
  unfold AddEdge. intros H. destruct (N.eqb_spec h t) as [-> | Hne].
  - injection H as <-. auto.
  - apply obind_Returns in H as (sk1 & H1 & H2).
    assert (H1' : StraightSkeleton._steinerVertices sk1 = StraightSkeleton._steinerVertices sk
                  /\ length (StraightSkeleton._faces sk1) = length (StraightSkeleton._faces sk)
                  /\ forall k, k ∈ EdgeKeys sk1 <-> k ∈ EdgeKeys sk \/ k = (h, t)).
    { destruct (negb (r =? not0u)%N);
        [apply EdgeKeys_AddUnique_face in H1 | apply EdgeKeys_AddUnique_unplaced in H1];
        exact H1. }
    assert (H2' : StraightSkeleton._steinerVertices sk' = StraightSkeleton._steinerVertices sk1
                  /\ length (StraightSkeleton._faces sk') = length (StraightSkeleton._faces sk1)
                  /\ forall k, k ∈ EdgeKeys sk' <-> k ∈ EdgeKeys sk1 \/ k = (t, h)).
    { destruct (negb (l =? not0u)%N);
        [apply EdgeKeys_AddUnique_face in H2 | apply EdgeKeys_AddUnique_unplaced in H2];
        exact H2. }
    destruct H1' as (Hs1 & Hf1 & Hk1), H2' as (Hs2 & Hf2 & Hk2).
    split; [congruence |]. split; [congruence |]. right. split; [exact Hne |].
    intros k. rewrite Hk2, Hk1. tauto.
Qed.

Lemma find_if_app_last {A} (p : A -> bool) (l : list A) (x : A) :
  Forall (fun y => p y = false) l -> p x = true -> find_if p (l ++ [x]) = Some (length l).
Proof.
  intros Hl Hx. induction Hl as [| y l Hy Hl IH]; simpl.
  - rewrite Hx. reflexivity.
  - rewrite Hy, IH. reflexivity.
Qed.

(** X4.  AddSteinerVertex looks a vertex up or inserts it: the Steiner
    vertices it found stay where they are, in front, the faces and the
    unplaced edges stay as they are, and the index returned is the one of a
    vertex within epsilon of the given one, or of the given one, just
    appended.  Asked again for the same vertex (one that is within epsilon
    of itself), it returns the same index and changes nothing.  The number
    of Steiner vertices is taken to fit in 32 bits. *)
Theorem AddSteinerVertex_finds_or_appends sk vertex i sk' :
  AddSteinerVertex build sk vertex = Returns (i, sk') ->
  size (StraightSkeleton._steinerVertices sk') <= 4294967296 ->
  StraightSkeleton._steinerVertices sk `prefix_of` StraightSkeleton._steinerVertices sk'
  /\ StraightSkeleton._faces sk' = StraightSkeleton._faces sk
  /\ StraightSkeleton._unplacedEdges sk' = StraightSkeleton._unplacedEdges sk
  /\ (exists w, StraightSkeleton._steinerVertices sk' !! N.to_nat i = Some w
               /\ (Equivalent3 w vertex GetEpsilon = true
                   \/ (w = vertex /\ sk' <> sk)))
  /\ (Equivalent3 vertex vertex GetEpsilon = true ->
      AddSteinerVertex build sk' vertex = Returns (i, sk')).
Proof.
  intros H Hsize. pose proof H as Hcases.
  apply AddSteinerVertex_cases in Hcases as (Hf & Hu & Hcases).
  assert (Hasserts : forall sk2,
            AddSteinerVertex build sk2 vertex
            = match find_if (fun v => Equivalent3 v vertex GetEpsilon)
                      (StraightSkeleton._steinerVertices sk2) with
              | Some existing => Returns (u32 (N.of_nat existing), sk2)
              | None =>
                let* _ :=
                  if _DEBUG build then
                    assert_ build 266
                      (bool_decide
                         (find_if (fun v => Equivalent2 (Truncate v) (Truncate vertex)
                                              GetEpsilon)
                            (StraightSkeleton._steinerVertices sk2) = None))
                  else Returns tt in
                Returns (u32 (size (StraightSkeleton._steinerVertices sk2)),
                         StraightSkeleton.mk
                           (StraightSkeleton._steinerVertices sk2 ++ [vertex])
                           (StraightSkeleton._faces sk2)
                           (StraightSkeleton._unplacedEdges sk2))
              end).
  { intros sk2. unfold AddSteinerVertex in *.
    apply obind_Returns in H as ([] & -> & H).
    apply obind_Returns in H as ([] & -> & H).
    apply obind_Returns in H as ([] & -> & H). reflexivity. }
  destruct Hcases as [(-> & k & w & -> & Hw & Heq & Hbefore) | (Hs & -> & Hnone)].
  - split; [reflexivity |]. split; [reflexivity |]. split; [reflexivity |].
    assert (N.of_nat k < 4294967296) as Hk.
    { apply lookup_lt_Some in Hw. unfold size in Hsize. lia. }
    split; [rewrite (u32_small _ Hk), Nat2N.id; eauto | intros _; exact H].
  - split; [rewrite Hs; apply prefix_app_r; reflexivity |].
    split; [exact Hf |]. split; [exact Hu |].
    assert (size (StraightSkeleton._steinerVertices sk) < 4294967296) as Hk.
    { rewrite Hs in Hsize. unfold size in *. rewrite length_app in Hsize. simpl in Hsize. lia. }
    split.
    + rewrite (u32_small _ Hk). unfold size at 1. rewrite Nat2N.id.
      exists vertex. split.
      * rewrite Hs. rewrite lookup_app_r by lia. rewrite Nat.sub_diag. reflexivity.
      * right. split; [reflexivity |]. intros ->.
        apply (f_equal length) in Hs. rewrite length_app in Hs. simpl in Hs. lia.
    + intros Hrefl. rewrite Hasserts, Hs.
      rewrite (find_if_app_last _ _ _ Hnone Hrefl). unfold size. reflexivity.
Qed.

(** X5.  The skeleton that CalculateStraightSkeleton returns has one face
    for every input vertex. *)
Theorem one_face_per_input_vertex fuel vertices maxInset sk :
  CalculateStraightSkeleton build fuel vertices maxInset = Returns sk ->
  length (StraightSkeleton._faces sk) = length vertices.
Proof.
  unfold CalculateStraightSkeleton. intros H.
  apply obind_Returns in H as (graph & Hg & H).
  assert (Graph._boundaryPoints graph = vertices) as Hb.
  { unfold BuildGraphFromVertexLoop in Hg. mdestruct Hg. subst graph. reflexivity. }
  eapply (Inv_CalculateSkeleton build
            (fun sk => length (StraightSkeleton._faces sk) = length vertices)) in H;
    [exact H | | |].
  - intros sk0 v i sk1 Hadd. apply AddSteinerVertex_cases in Hadd as (-> & _). auto.
  - intros sk0 h t l r ty sk1 Hadd. apply AddEdge_cases in Hadd as (_ & -> & _). auto.
  - simpl. rewrite length_replicate, Hb. reflexivity.
Qed.

(** X6.  In the skeleton that CalculateStraightSkeleton returns every edge
    is stored in both directions: with (head, tail) in an edge list there is
    (tail, head) in an edge list. *)
Theorem edges_are_stored_in_both_directions fuel vertices maxInset sk :
  CalculateStraightSkeleton build fuel vertices maxInset = Returns sk ->
  HalfEdgePairs sk.
Proof.
  unfold CalculateStraightSkeleton. intros H.
  apply obind_Returns in H as (graph & _ & H).
  eapply (Inv_CalculateSkeleton build HalfEdgePairs) in H; [exact H | | |].
  - intros sk0 v i sk1 Hadd Hinv. unfold HalfEdgePairs, EdgeKeys.
    rewrite (AllEdges_AddSteinerVertex _ _ _ _ Hadd). exact Hinv.
  - intros sk0 h t l r ty sk1 Hadd Hinv.
    apply AddEdge_cases in Hadd as (_ & _ & [[_ ->] | [Hne Hk]]); [exact Hinv |].
    intros a b Hab. apply Hk in Hab. apply Hk.
    destruct Hab as [Hab | [Hab | Hab]]; [left; apply Hinv, Hab | |];
      injection Hab as -> ->; auto.
  - intros h t Hin. unfold EdgeKeys, AllEdges in Hin. simpl in Hin.
    rewrite app_nil_r in Hin. apply list_elem_of_fmap in Hin as (e & _ & He).
    apply list_elem_of_In, in_concat in He as (l & Hl & He).
    apply list_elem_of_In, list_elem_of_fmap in Hl as (f & -> & Hf).
    apply elem_of_replicate in Hf as [-> _]. destruct He.
Qed.

(** X7.  In a build with assertions every Steiner vertex of the skeleton
    that CalculateStraightSkeleton returns has passed the assertions of
    AddSteinerVertex: its time is not zero, its coordinates are finite and
    none of them is the sentinel. *)
Theorem steiner_vertices_pass_the_assertions fuel vertices maxInset sk :
  NDEBUG build = false ->
  CalculateStraightSkeleton build fuel vertices maxInset = Returns sk ->
  Forall (fun v => PassesSteinerAssertions v = true) (StraightSkeleton._steinerVertices sk).
Proof.
  unfold CalculateStraightSkeleton. intros Hd H.
  apply obind_Returns in H as (graph & _ & H).
  eapply (Inv_CalculateSkeleton build
            (fun sk => Forall (fun v => PassesSteinerAssertions v = true)
                         (StraightSkeleton._steinerVertices sk))) in H;
    [exact H | | |].
  - intros sk0 v i sk1 Hadd Hinv. pose proof Hadd as Hc.
    apply AddSteinerVertex_cases in Hc as (_ & _ & [(-> & _) | (-> & _)]); [exact Hinv |].
    apply Forall_app. split; [exact Hinv |]. apply Forall_singleton.
    unfold AddSteinerVertex in Hadd.
    apply obind_Returns in Hadd as (u1 & H1 & Hadd).
    apply obind_Returns in Hadd as (u2 & H2 & Hadd).
    apply obind_Returns in Hadd as (u3 & H3 & _).
    apply assert_Returns_true in H1, H2, H3; try exact Hd.
    unfold PassesSteinerAssertions. rewrite H1, H2, H3. reflexivity.
  - intros sk0 h t l r ty sk1 Hadd. apply AddEdge_cases in Hadd as (-> & _). auto.
  - constructor.
Qed.
End Skeleton.

(** *** The candidates of a turn *)

Section Candidates.
Context {S : Scalar}.
Variable build : Build.
Local Open Scope prim_scope.

(** X8.  The crash event that CalculateCrashTime returns is the initial one
    (the sentinel for time, [~0u] for edge), or it names a wavefront edge of
    the graph by its position, an edge whose two vertices the graph has, and
    its time is past the initial times of these two vertices. *)
Theorem CalculateCrashTime_names_an_edge graph v crash :
  CalculateCrashTime build graph v = Returns crash ->
  crash = CrashEvent.mk numeric_max not0u
  \/ exists i e head tail,
       Graph._wavefrontEdges graph !! i = Some e
       /\ CrashEvent._edgeSegment crash = u32 (N.of_nat i)
       /\ Graph._vertices graph !! N.to_nat (Segment._head e) = Some head
       /\ Graph._vertices graph !! N.to_nat (Segment._tail e) = Some tail
       /\ (CrashEvent._time crash
             <=? std_max (Vertex._initialTime head) (Vertex._initialTime tail)) = false.
Proof.
  unfold CalculateCrashTime. intros H.
  set (Good := fun crash : CrashEvent.t Primitive =>
         crash = CrashEvent.mk numeric_max not0u
         \/ exists i e head tail,
              Graph._wavefrontEdges graph !! i = Some e
              /\ CrashEvent._edgeSegment crash = u32 (N.of_nat i)
              /\ Graph._vertices graph !! N.to_nat (Segment._head e) = Some head
              /\ Graph._vertices graph !! N.to_nat (Segment._tail e) = Some tail
              /\ (CrashEvent._time crash
                    <=? std_max (Vertex._initialTime head) (Vertex._initialTime tail))
                 = false).
  apply (foldM_preserves_elem Good) in H; [exact H | | left; reflexivity].
  intros best [i e] best' Hin Hbest Hstep. apply elem_of_enumerate in Hin.
  apply obind_Returns in Hstep as (head & Hhead & Hstep).
  apply obind_Returns in Hstep as (tail & Htail & Hstep).
  apply at_Returns in Hhead, Htail.
  mdestruct Hstep; simplify_eq; try exact Hbest.
  match goal with
  | Hf : foldM _ _ best = Returns best' |- _ =>
    apply (foldM_preserves Good) in Hf; [exact Hf | | exact Hbest]
  end.
  intros b t b' Hb Ht.
  destruct (_ || _) eqn:Eskip in Ht; [injection Ht as <-; exact Hb |].
  apply orb_false_iff in Eskip as [_ Elate].
  mdestruct Ht; simplify_eq; try exact Hb;
    right; exists i, e, head, tail; simpl; auto.
Qed.

(** **** The collapses, in the order of the edges *)

Lemma FindCollapses_scan graph lastEventTime (l : list Segment.t) (k : nat) bc t bc' t' :
  foldM (fun '(bestCollapse, bestCollapseTime) '(e, seg) =>
      let* v0 := at_ (Graph._vertices graph) (Segment._head seg) in
      let* v1 := at_ (Graph._vertices graph) (Segment._tail seg) in
      let collapseTime := CalculateCollapseTime v0 v1 in
      if collapseTime <? P0 then Returns (bestCollapse, bestCollapseTime) else
      let* _ := assert_ build 487 (collapseTime >=? lastEventTime) in
      if collapseTime <? bestCollapseTime - GetEpsilon then
        Returns ([(collapseTime, e)], collapseTime)
      else if collapseTime <? bestCollapseTime + GetEpsilon then
        Returns (bestCollapse ++ [(collapseTime, e)], std_min collapseTime bestCollapseTime)
      else Returns (bestCollapse, bestCollapseTime))
    (imap (fun i x => ((k + i)%nat, x)) l) (bc, t) = Returns (bc', t') ->
  StronglySorted lt bc.*2 -> Forall (fun e => (e < k)%nat) bc.*2 ->
  StronglySorted lt bc'.*2 /\ Forall (fun e => (e < k + length l)%nat) bc'.*2.
Proof.
  revert k bc t. induction l as [| x l IH]; intros k bc t H Hs Hk.
  - simpl in H. injection H as <- <-. split; [exact Hs |].
    eapply Forall_impl; [exact Hk |]. simpl. intros. lia.
  - rewrite imap_cons in H. cbn [foldM] in H.
    apply obind_Returns in H as ([bc1 t1] & Hstep & H).
    rewrite (imap_ext _ (fun i x => ((Datatypes.S k + i)%nat, x))) in H
      by (intros; simpl; f_equal; lia).
    rewrite Nat.add_0_r in Hstep.
    assert (StronglySorted lt bc1.*2 /\ Forall (fun e => (e < Datatypes.S k)%nat) bc1.*2)
      as [Hs1 Hk1].
    { assert (Forall (fun e => (e < Datatypes.S k)%nat) bc.*2) as Hk'
        by (eapply Forall_impl; [exact Hk |]; simpl; intros; lia).
      mdestruct Hstep; simplify_eq; try (split; assumption).
      - split; simpl; repeat constructor.
      - rewrite fmap_app. simpl. split.
        + apply StronglySorted_app_2; [| exact Hs | repeat constructor].
          intros i1 i2 Hi1 Hi2. apply list_elem_of_singleton in Hi2 as ->.
          rewrite Forall_forall in Hk. apply Hk, Hi1.
        + apply Forall_app. split; [exact Hk' |]. repeat constructor. }
    apply IH in H; [| exact Hs1 | exact Hk1]. destruct H as [H1 H2].
    split; [exact H1 |]. eapply Forall_impl; [exact H2 |]. simpl. intros. lia.
Qed.

Lemma StronglySorted_filter_snd {A} (p : A * nat -> bool) (l : list (A * nat)) :
  StronglySorted lt l.*2 -> StronglySorted lt (List.filter p l).*2.
Proof.
  induction l as [| x l IH]; simpl; intros H; [constructor |].
  apply StronglySorted_cons in H as [Hx Hl]. destruct (p x); simpl; [| auto].
  constructor; [auto |].
  rewrite Forall_forall in Hx |- *. intros y Hy. apply Hx.
  apply list_elem_of_fmap in Hy as (z & -> & Hz). apply list_elem_of_fmap.
  exists z. split; [reflexivity |]. apply list_elem_of_In in Hz.
  apply filter_In in Hz as [Hz _]. apply list_elem_of_In. exact Hz.
Qed.

Lemma FindCollapses_sorted graph lastEventTime bestCollapse bestCollapseTime :
  FindCollapses build graph lastEventTime = Returns (bestCollapse, bestCollapseTime) ->
  StronglySorted lt bestCollapse.*2.
Proof.
  unfold FindCollapses, enumerate. intros H.
  apply obind_Returns in H as ([bc t] & Hfold & H). injection H as <- <-.
  rewrite (imap_ext _ (fun i x => ((0 + i)%nat, x))) in Hfold by reflexivity.
  apply FindCollapses_scan in Hfold as [Hs _]; [| constructor | constructor].
  apply StronglySorted_filter_snd. exact Hs.
Qed.

(** X9.  The collapses that FindCollapses returns are in the order of the
    wavefront edges, each edge at most once; each is an edge of the graph
    with the collapse time of its two vertices, which is not negative and
    is within epsilon of [bestCollapseTime]. *)
Theorem FindCollapses_in_edge_order graph lastEventTime bestCollapse bestCollapseTime :
  FindCollapses build graph lastEventTime = Returns (bestCollapse, bestCollapseTime) ->
  StronglySorted lt bestCollapse.*2
  /\ Forall (fun entry =>
               (entry.1 <? bestCollapseTime + GetEpsilon) = true
               /\ (entry.1 <? P0) = false
               /\ exists seg v0 v1,
                    Graph._wavefrontEdges graph !! entry.2 = Some seg
                    /\ Graph._vertices graph !! N.to_nat (Segment._head seg) = Some v0
                    /\ Graph._vertices graph !! N.to_nat (Segment._tail seg) = Some v1
                    /\ entry.1 = CalculateCollapseTime v0 v1)
       bestCollapse.
Proof.
  intros H. split; [eapply FindCollapses_sorted, H |].
  pose proof (FindCollapses_entries build _ _ _ _ H) as Hentries.
  assert (Forall (fun entry : Primitive * nat => (entry.1 <? P0) = false) bestCollapse)
    as Hpos.
  { unfold FindCollapses in H.
    apply obind_Returns in H as ([bc t] & Hfold & H). injection H as <- <-.
    apply (foldM_preserves
             (fun st => Forall (fun entry : Primitive * nat => (entry.1 <? P0) = false) st.1))
      in Hfold; [| | constructor].
    - simpl in Hfold. rewrite Forall_forall in Hfold |- *. intros x Hx. apply Hfold.
      apply list_elem_of_In in Hx. apply filter_In in Hx as [Hx _].
      apply list_elem_of_In. exact Hx.
    - intros [bc0 t0] [e seg] [bc1 t1] Hinv Hstep. simpl in *.
      mdestruct Hstep; simplify_eq; try assumption.
      + repeat constructor. assumption.
      + apply Forall_app. split; [assumption |]. repeat constructor. assumption. }
  rewrite Forall_forall in Hentries, Hpos |- *. intros x Hx.
  destruct (Hentries x Hx) as [H1 H2]. split; [exact H1 |]. split; [apply Hpos, Hx | exact H2].
Qed.
End Candidates.

(** *** The removal of the collapsed edges *)

Section Swaps.
Context {S : Scalar}.
Local Open Scope prim_scope.

Lemma StronglySorted_flip_reverse (l : list nat) :
  StronglySorted lt l -> StronglySorted (flip lt) (reverse l).
Proof.
  induction 1 as [| x l Hl IH Hx]; [constructor |].
  rewrite reverse_cons. apply StronglySorted_app_2; [| exact IH | repeat constructor].
  intros a b Ha Hb. apply list_elem_of_singleton in Hb as ->.
  rewrite elem_of_reverse in Ha. rewrite Forall_forall in Hx. apply Hx, Ha.
Qed.

(** One swap of the loop, seen from the edges below the position [Datatypes.S r]. *)
Lemma swap_to_the_end (E : list Segment.t) (r i : nat) a b :
  E !! r = Some a -> E !! i = Some b -> (i <= r)%nat ->
  take r (<[r := b]> (<[i := a]> E)) ++ [b] ≡ₚ take (Datatypes.S r) E.
Proof.
  intros Hr Hi Hle.
  set (E1 := <[r := b]> (<[i := a]> E)).
  assert (E1 ≡ₚ E) as Hperm by (apply Permutation_insert_swap; assumption).
  assert (E1 !! r = Some b) as Hb.
  { apply list_lookup_insert_eq. rewrite length_insert. eapply lookup_lt_Some, Hr. }
  assert (drop (Datatypes.S r) E1 = drop (Datatypes.S r) E) as Hdrop.
  { unfold E1. rewrite !drop_insert_lt by lia. reflexivity. }
  rewrite <- (take_drop_middle E1 r b Hb), Hdrop in Hperm.
  rewrite <- (take_drop (Datatypes.S r) E) in Hperm at 2.
  rewrite (cons_middle b), app_assoc in Hperm.
  apply Permutation_app_inv_r in Hperm. exact Hperm.
Qed.

Lemma RemoveCollapsedEdges_loop (l : list (Primitive * nat)) (E : list Segment.t)
    (r : nat) (atBegin : bool) :
  let R := if atBegin then Datatypes.S r else r in
  StronglySorted (flip lt) l.*2 -> Forall (fun e => (e < R)%nat) l.*2 ->
  (R <= length E)%nat ->
  exists E' r' removed,
    foldM (fun '(edges, r, atBegin) (i : Primitive * nat) =>
        let* r := if atBegin : bool then Returns r
                  else match r with
                       | O => UndefinedBehaviour
                       | Datatypes.S r' => Returns r'
                       end in
        let* a := at_nat edges r in
        let* b := at_nat edges i.2 in
        Returns (<[r := b]> (<[i.2 := a]> edges), r, false))
      l (E, r, atBegin) = Returns (E', r', match l with [] => atBegin | _ => false end)
    /\ ((if (match l with [] => atBegin | _ => false end) then Datatypes.S r' else r') + length l = R)%nat
    /\ length E' = length E
    /\ Some <$> removed = (fun c => E !! c.2) <$> l
    /\ take (if (match l with [] => atBegin | _ => false end) then Datatypes.S r' else r') E' ++ removed
       ≡ₚ take R E.
Proof.
  revert E r atBegin. induction l as [| c l IH]; intros E r atBegin R Hs Hlt Hlen.
  - exists E, r, []. simpl. rewrite app_nil_r. repeat split; try reflexivity. lia.
  - rewrite fmap_cons in Hs, Hlt. apply StronglySorted_cons in Hs as [Hc Hs].
    apply Forall_cons in Hlt as [Hci Hlt].
    assert (exists r1, R = Datatypes.S r1
                       /\ (if atBegin then Returns r
                           else match r with
                                | O => UndefinedBehaviour
                                | Datatypes.S r' => Returns r'
                                end) = Returns r1) as (r1 & HR & Hdec).
    { subst R. destruct atBegin; [eauto |]. destruct r as [| r']; [lia | eauto]. }
    destruct (lookup_lt_is_Some_2 E r1) as [a Ha]; [lia |].
    destruct (lookup_lt_is_Some_2 E c.2) as [b Hb]; [lia |].
    set (E1 := <[r1 := b]> (<[c.2 := a]> E)).
    destruct (IH E1 r1 false) as (E' & r' & removed & Hfold & Hcount & Hlen' & Hrem & Hperm).
    + exact Hs.
    + simpl. rewrite Forall_forall in Hc, Hlt |- *. intros j Hj.
      specialize (Hc j Hj). unfold flip in Hc. lia.
    + simpl. unfold E1. rewrite !length_insert. lia.
    + exists E', r', (b :: removed). cbn [foldM]. rewrite Hdec. cbn [obind].
      unfold at_nat at 1 2. rewrite Ha, Hb. cbn [obind].
      assert (match l with [] => false | _ => false end = false) as Hb' by (destruct l; reflexivity).
      rewrite Hb' in *. simpl in Hcount, Hperm.
      split; [exact Hfold |]. split; [simpl; lia |].
      split; [rewrite Hlen'; unfold E1; rewrite !length_insert; reflexivity |].
      split.
      * rewrite !fmap_cons. f_equal; [symmetry; exact Hb |]. rewrite Hrem.
        apply list_fmap_ext. intros k x Hx. simpl. unfold E1.
        assert (x.2 ∈ l.*2) as Hin.
        { apply list_elem_of_fmap. exists x. split; [reflexivity |].
          eapply list_elem_of_lookup_2, Hx. }
        rewrite Forall_forall in Hc. specialize (Hc _ Hin). unfold flip in Hc.
        rewrite !list_lookup_insert_ne by lia. reflexivity.
      * rewrite HR. rewrite <- (swap_to_the_end E r1 c.2 a b Ha Hb) by lia.
        fold E1. rewrite <- Hperm. rewrite (cons_middle b), app_assoc.
        rewrite <- !app_assoc. apply Permutation_app_head. apply Permutation_app_comm.
Qed.

Lemma Some_fmap_Forall2 {A B} (f : A -> option B) (l : list A) (k : list B) :
  Some <$> k = f <$> l -> Forall2 (fun x y => f x = Some y) l k.
Proof.
  revert k. induction l as [| x l IH]; intros [| y k] H; try discriminate; [constructor |].
  rewrite !fmap_cons in H. injection H as Hy H. constructor; [congruence | auto].
Qed.

(** X10.  The swap loop of lines 779-786, on collapses in the order of the
    edges (as its comment expects): it returns, and what it returns is the
    wavefront edges without the collapsed ones, each of the others once, in
    some order. *)
Theorem RemoveCollapsedEdges_removes_the_collapsed (edges : list Segment.t)
    (bestCollapse : list (Primitive * nat)) :
  bestCollapse <> [] ->
  StronglySorted lt bestCollapse.*2 ->
  Forall (fun e => (e < length edges)%nat) bestCollapse.*2 ->
  exists out removed,
    RemoveCollapsedEdges edges bestCollapse = Returns out
    /\ Forall2 (fun c seg => edges !! c.2 = Some seg) bestCollapse removed
    /\ out ++ removed ≡ₚ edges
    /\ (length out + length bestCollapse = length edges)%nat.
Proof.
  intros Hne Hs Hlt. unfold RemoveCollapsedEdges.
  destruct (length edges) as [| last] eqn:Hlen.
  { destruct bestCollapse as [| c bc]; [congruence |].
    apply Forall_cons in Hlt as [Hc _]. lia. }
  destruct (RemoveCollapsedEdges_loop (reverse bestCollapse) edges last true)
    as (E' & r' & removed & Hfold & Hcount & Hlen' & Hrem & Hperm).
  - rewrite fmap_reverse. apply StronglySorted_flip_reverse, Hs.
  - rewrite fmap_reverse. apply Forall_reverse. exact Hlt.
  - lia.
  - assert (match reverse bestCollapse with [] => true | _ => false end = false) as Hb.
    { destruct (reverse bestCollapse) eqn:E; [| reflexivity].
      apply (f_equal length) in E. rewrite length_reverse in E.
      destruct bestCollapse; [congruence | discriminate]. }
    rewrite Hb in *. rewrite length_reverse in Hcount.
    exists (take r' E'), (reverse removed). rewrite Hfold. cbn [obind].
    split; [reflexivity |]. split; [| split].
    + rewrite <- (reverse_involutive bestCollapse). apply Forall2_reverse.
      apply Some_fmap_Forall2. exact Hrem.
    + rewrite reverse_Permutation, Hperm. rewrite take_ge by lia. reflexivity.
    + rewrite length_take_le by lia. lia.
Qed.
End Swaps.

(** *** The graph through a turn of the event loop *)

Section GraphInvariant.
Context {S : Scalar}.
Variable build : Build.
Local Open Scope prim_scope.

Lemma EndsWithin_mono n m h t : (n <= m)%nat -> EndsWithin n h t -> EndsWithin m h t.
Proof. unfold EndsWithin. lia. Qed.

Lemma u32_size_lt {A} (l : list A) : (N.to_nat (u32 (size l)) < Datatypes.S (length l))%nat.
Proof. pose proof (u32_le (size l)). unfold size in *. lia. Qed.

Lemma Forall_edges_mono n m (edges : list Segment.t) :
  (n <= m)%nat ->
  Forall (fun e => EndsWithin n (Segment._head e) (Segment._tail e)) edges ->
  Forall (fun e => EndsWithin m (Segment._head e) (Segment._tail e)) edges.
Proof.
  intros Hle H. eapply Forall_impl; [exact H |]. intros e. apply EndsWithin_mono, Hle.
Qed.

Lemma Forall_motorcycles_mono n m (ms : list MotorcycleSegment.t) :
  (n <= m)%nat ->
  Forall (fun e => EndsWithin n (MotorcycleSegment._head e) (MotorcycleSegment._tail e)) ms ->
  Forall (fun e => EndsWithin m (MotorcycleSegment._head e) (MotorcycleSegment._tail e)) ms.
Proof.
  intros Hle H. eapply Forall_impl; [exact H |]. intros e. apply EndsWithin_mono, Hle.
Qed.

Lemma at_nat_Returns {A} (l : list A) (i : nat) (x : A) :
  at_nat l i = Returns x <-> l !! i = Some x.
Proof. unfold at_nat. destruct (l !! i); split; intros H; congruence. Qed.

(** The edges after one side of a crash: at most one more, all between
    vertices of the graph. *)
Lemma CrashOutSide_edges graph result motor crashSegment crashPt crashPtSkeleton time
    graph' result' :
  CrashOutSide build graph result motor crashSegment crashPt crashPtSkeleton time
  = Returns (graph', result') ->
  (length (Graph._wavefrontEdges graph') <= Datatypes.S (length (Graph._wavefrontEdges graph)))%nat
  /\ (length (Graph._vertices graph) <= length (Graph._vertices graph'))%nat
  /\ (Forall (fun e => EndsWithin (length (Graph._vertices graph))
                         (Segment._head e) (Segment._tail e))
        (crashSegment :: Graph._wavefrontEdges graph) ->
      Forall (fun e => EndsWithin (length (Graph._vertices graph'))
                         (Segment._head e) (Segment._tail e))
        (Graph._wavefrontEdges graph')).
Proof.
  unfold CrashOutSide. intros H.
  apply obind_Returns in H as (inAndOut & _ & H).
  apply obind_Returns in H as (u & _ & H).
  destruct inAndOut.2 as [tout_i |]; [| discriminate].
  apply obind_Returns in H as (tout & Htout & H). apply at_nat_Returns in Htout.
  pose proof (lookup_lt_Some _ _ _ Htout) as Hlt.
  assert (Hin : tout ∈ Graph._wavefrontEdges graph) by (eapply list_elem_of_lookup_2, Htout).
  assert (Hgoal : forall (edges' : list Segment.t) (vs' : list (Vertex.t Primitive)),
            (length edges' <= Datatypes.S (length (Graph._wavefrontEdges graph)))%nat ->
            (length (Graph._vertices graph) <= length vs')%nat ->
            (Forall (fun e => EndsWithin (length (Graph._vertices graph))
                                (Segment._head e) (Segment._tail e))
               (crashSegment :: tout :: Graph._wavefrontEdges graph) ->
             Forall (fun e => EndsWithin (length vs') (Segment._head e) (Segment._tail e))
               edges') ->
            (length edges' <= Datatypes.S (length (Graph._wavefrontEdges graph)))%nat
            /\ (length (Graph._vertices graph) <= length vs')%nat
            /\ (Forall (fun e => EndsWithin (length (Graph._vertices graph))
                                   (Segment._head e) (Segment._tail e))
                  (crashSegment :: Graph._wavefrontEdges graph) ->
                Forall (fun e => EndsWithin (length vs') (Segment._head e) (Segment._tail e))
                  edges')).
  { intros edges' vs' H1 H2 H3. split; [exact H1 |]. split; [exact H2 |].
    intros Hall. apply H3. apply Forall_cons in Hall as [Hc Hall].
    constructor; [exact Hc |]. constructor; [| exact Hall].
    rewrite Forall_forall in Hall. apply Hall, Hin. }
  mdestruct H; simplify_eq; simpl; apply Hgoal; clear Hgoal; unfold erase_at.
  - destruct (negb _); [destruct (List.find _ _) |];
      rewrite ?length_app, ?length_delete by eauto; simpl; lia.
  - lia.
  - intros Hall. apply Forall_cons in Hall as [[Hch Hct] Hall].
    apply Forall_cons in Hall as [[Hth Htt] Hall].
    assert (Forall (fun e => EndsWithin (length (Graph._vertices graph))
                               (Segment._head e) (Segment._tail e))
              (delete tout_i (Graph._wavefrontEdges graph))) as Hdel
      by (apply Forall_delete, Hall).
    destruct (negb _); [destruct (List.find _ _) |]; try exact Hdel;
      (apply Forall_app; split; [exact Hdel |]; repeat constructor; simpl; assumption).
  - rewrite length_app, length_insert. simpl. lia.
  - rewrite length_app. simpl. lia.
  - intros Hall. apply Forall_cons in Hall as [[Hch Hct] Hall].
    apply Forall_cons in Hall as [[Hth Htt] Hall].
    pose proof (u32_size_lt (Graph._vertices graph)) as Hnew.
    rewrite length_app. simpl.
    apply Forall_app. split.
    + apply Forall_insert.
      * eapply Forall_edges_mono; [| exact Hall]. lia.
      * split; simpl; lia.
    + repeat constructor; simpl; lia.
Qed.

Lemma CrashInSide_edges graph result motor crashSegment crashPt crashPtSkeleton time
    graph' result' :
  CrashInSide build graph result motor crashSegment crashPt crashPtSkeleton time
  = Returns (graph', result') ->
  (length (Graph._wavefrontEdges graph') <= Datatypes.S (length (Graph._wavefrontEdges graph)))%nat
  /\ (length (Graph._vertices graph) <= length (Graph._vertices graph'))%nat
  /\ (Forall (fun e => EndsWithin (length (Graph._vertices graph))
                         (Segment._head e) (Segment._tail e))
        (crashSegment :: Graph._wavefrontEdges graph) ->
      Forall (fun e => EndsWithin (length (Graph._vertices graph'))
                         (Segment._head e) (Segment._tail e))
        (Graph._wavefrontEdges graph')).
Proof.
  unfold CrashInSide. intros H.
  apply obind_Returns in H as (inAndOut & _ & H).
  apply obind_Returns in H as (u & _ & H).
  destruct inAndOut.1 as [tin_i |]; [| discriminate].
  apply obind_Returns in H as (tin & Htin & H). apply at_nat_Returns in Htin.
  pose proof (lookup_lt_Some _ _ _ Htin) as Hlt.
  assert (Hin : tin ∈ Graph._wavefrontEdges graph) by (eapply list_elem_of_lookup_2, Htin).
  assert (Hgoal : forall (edges' : list Segment.t) (vs' : list (Vertex.t Primitive)),
            (length edges' <= Datatypes.S (length (Graph._wavefrontEdges graph)))%nat ->
            (length (Graph._vertices graph) <= length vs')%nat ->
            (Forall (fun e => EndsWithin (length (Graph._vertices graph))
                                (Segment._head e) (Segment._tail e))
               (crashSegment :: tin :: Graph._wavefrontEdges graph) ->
             Forall (fun e => EndsWithin (length vs') (Segment._head e) (Segment._tail e))
               edges') ->
            (length edges' <= Datatypes.S (length (Graph._wavefrontEdges graph)))%nat
            /\ (length (Graph._vertices graph) <= length vs')%nat
            /\ (Forall (fun e => EndsWithin (length (Graph._vertices graph))
                                   (Segment._head e) (Segment._tail e))
                  (crashSegment :: Graph._wavefrontEdges graph) ->
                Forall (fun e => EndsWithin (length vs') (Segment._head e) (Segment._tail e))
                  edges')).
  { intros edges' vs' H1 H2 H3. split; [exact H1 |]. split; [exact H2 |].
    intros Hall. apply H3. apply Forall_cons in Hall as [Hc Hall].
    constructor; [exact Hc |]. constructor; [| exact Hall].
    rewrite Forall_forall in Hall. apply Hall, Hin. }
  mdestruct H; simplify_eq; simpl; apply Hgoal; clear Hgoal; unfold erase_at.
  - destruct (negb _); [destruct (List.find _ _) |];
      rewrite ?length_app, ?length_delete by eauto; simpl; lia.
  - lia.
  - intros Hall. apply Forall_cons in Hall as [[Hch Hct] Hall].
    apply Forall_cons in Hall as [[Hth Htt] Hall].
    assert (Forall (fun e => EndsWithin (length (Graph._vertices graph))
                               (Segment._head e) (Segment._tail e))
              (delete tin_i (Graph._wavefrontEdges graph))) as Hdel
      by (apply Forall_delete, Hall).
    destruct (negb _); [destruct (List.find _ _) |]; try exact Hdel;
      (apply Forall_app; split; [exact Hdel |]; repeat constructor; simpl; assumption).
  - rewrite length_app, length_insert. simpl. lia.
  - rewrite length_app. simpl. lia.
  - intros Hall. apply Forall_cons in Hall as [[Hch Hct] Hall].
    apply Forall_cons in Hall as [[Hth Htt] Hall].
    pose proof (u32_size_lt (Graph._vertices graph)) as Hnew.
    rewrite length_app. simpl.
    apply Forall_app. split.
    + apply Forall_insert.
      * eapply Forall_edges_mono; [| exact Hall]. lia.
      * split; simpl; lia.
    + repeat constructor; simpl; lia.
Qed.

Lemma set_at_length {A} (l : list A) (i : N) (x : A) l' :
  set_at l i x = Returns l' -> length l' = length l.
Proof.
  unfold set_at. intros H. apply obind_Returns in H as (y & _ & H).
  injection H as <-. apply length_insert.
Qed.

(** A crash: one motorcycle less, at most two wavefront edges more, no
    vertex less, and every segment still between vertices of the graph. *)
Lemma ProcessMotorcycleCrash_graph graph result crashes crashTime graph' result' time' :
  ProcessMotorcycleCrash build graph result crashes crashTime
  = Returns (graph', result', time') ->
  (EventsLeft graph' < EventsLeft graph)%nat
  /\ (length (Graph._vertices graph) <= length (Graph._vertices graph'))%nat
  /\ (RefersToVertices graph -> RefersToVertices graph').
Proof.
  intros H. pose proof (ProcessMotorcycleCrash_front build _ _ _ _ _ _ _ H)
    as (front & _ & _ & _ & Hms & Hfront).
  unfold ProcessMotorcycleCrash in H.
  apply obind_Returns in H as (u & _ & H).
  apply obind_Returns in H as (front' & _ & H).
  apply obind_Returns in H as (motor & _ & H).
  apply obind_Returns in H as (u2 & _ & H).
  apply obind_Returns in H as (motorHead & _ & H).
  apply obind_Returns in H as (crashPt & _ & H).
  apply obind_Returns in H as ([crashPtSkeleton result1] & _ & H).
  apply obind_Returns in H as (crashSegment & Hseg & H).
  apply obind_Returns in H as ([graph1 result2] & Hout & H).
  apply obind_Returns in H as ([graph2 result3] & Hin & H).
  apply obind_Returns in H as (motorTail & _ & H).
  apply obind_Returns in H as (u3 & _ & H).
  apply obind_Returns in H as (result4 & _ & H).
  apply obind_Returns in H as (motorHead2 & _ & H).
  apply obind_Returns in H as (frozen & _ & H).
  apply obind_Returns in H as (vertices & Hset & H).
  injection H as <- <- <-. simpl in *.
  apply set_at_length in Hset. simpl in Hset.
  pose proof (CrashOutSide_frame build _ _ _ _ _ _ _ _ _ Hout) as [Hm1 _].
  pose proof (CrashInSide_frame build _ _ _ _ _ _ _ _ _ Hin) as [Hm2 _].
  apply CrashOutSide_edges in Hout as (Hlen1 & Hv1 & Hwf1).
  apply CrashInSide_edges in Hin as (Hlen2 & Hv2 & Hwf2).
  apply at_Returns in Hseg.
  set (keep := fun s => negb ((Segment._head s =? Segment._head crashSegment)%N
                              && (Segment._tail s =? Segment._tail crashSegment)%N)).
  assert (length (List.filter keep (Graph._wavefrontEdges graph2))
          <= length (Graph._wavefrontEdges graph2))%nat as Hfilter
    by apply filter_length_le.
  split; [| split].
  - unfold EventsLeft. simpl. rewrite Hms. unfold erase_at.
    rewrite length_delete by (apply lookup_lt_is_Some_2; exact Hfront). lia.
  - rewrite Hset. lia.
  - intros [Hedges Hmotors]. split; simpl; rewrite Hset.
    + assert (Forall (fun e => EndsWithin (length (Graph._vertices graph2))
                                 (Segment._head e) (Segment._tail e))
                (Graph._wavefrontEdges graph2)) as Hall.
      { assert (EndsWithin (length (Graph._vertices graph))
                  (Segment._head crashSegment) (Segment._tail crashSegment)) as Hc.
        { rewrite Forall_forall in Hedges. apply Hedges.
          eapply list_elem_of_lookup_2, Hseg. }
        apply Hwf2. constructor.
        - eapply EndsWithin_mono; [exact Hv1 | exact Hc].
        - apply Hwf1. constructor; assumption. }
      rewrite Forall_forall in Hall |- *. intros e He. apply Hall.
      apply list_elem_of_In in He. apply filter_In in He as [He _].
      apply list_elem_of_In. exact He.
    + rewrite Hms. unfold erase_at. apply Forall_delete.
      eapply Forall_motorcycles_mono; [| exact Hmotors]. lia.
Qed.

(** **** A turn of collapses *)

Lemma CollapseOneGroup_graph graph result bestCollapse bestCollapseTime groups group
    graph' result' new :
  CollapseOneGroup build graph result bestCollapse bestCollapseTime groups group
  = Returns (graph', result', new) ->
  Graph._wavefrontEdges graph' = Graph._wavefrontEdges graph
  /\ Graph._motorcycleSegments graph' = Graph._motorcycleSegments graph
  /\ length (Graph._vertices graph') = Datatypes.S (length (Graph._vertices graph)).
Proof.
  intros H. pose proof H as H'.
  apply (CollapseOneGroup_vertices build (fun _ => True) []) in H'
    as (He & vs & x & Hvs & _ & Hlen & _); [| auto | apply Evolves_nil].
  split; [exact He |]. split.
  - unfold CollapseOneGroup in H. mdestruct H; simplify_eq; reflexivity.
  - rewrite Hvs, length_app, Hlen. simpl. lia.
Qed.

Lemma RemoveCollapsedEdges_kept (P : Segment.t -> Prop) (edges : list Segment.t)
    (bestCollapse : list (Primitive * nat)) out :
  RemoveCollapsedEdges edges bestCollapse = Returns out ->
  (bestCollapse <> [] -> length out + length bestCollapse = length edges)%nat
  /\ (Forall P edges -> Forall P out).
Proof.
  unfold RemoveCollapsedEdges. intros H.
  destruct (length edges) as [| last] eqn:Hlen; [discriminate |].
  apply obind_Returns in H as ([[E r] b] & Hfold & H). injection H as <-.
  assert (Hloop : forall l E0 r0 b0,
            foldM (fun '(edges, r, atBegin) (i : Primitive * nat) =>
                let* r := if atBegin : bool then Returns r
                          else match r with
                               | O => UndefinedBehaviour
                               | Datatypes.S r' => Returns r'
                               end in
                let* a := at_nat edges r in
                let* b := at_nat edges i.2 in
                Returns (<[r := b]> (<[i.2 := a]> edges), r, false))
              l (E0, r0, b0) = Returns (E, r, b) ->
            length E = length E0
            /\ ((if b then Datatypes.S r else r) + length l
                = (if b0 then Datatypes.S r0 else r0))%nat
            /\ b = match l with [] => b0 | _ => false end
            /\ (Forall P E0 -> Forall P E)).
  { clear. induction l as [| c l IH]; intros E0 r0 b0 H; simpl in H.
    - injection H as <- <- <-. repeat split; auto; simpl; try lia; congruence.
    - apply obind_Returns in H as ([[E1 r1] b1] & Hstep & H).
      apply IH in H as (Hl & Hc & Hb & HP). clear IH.
      apply obind_Returns in Hstep as (r2 & Hr2 & Hstep).
      apply obind_Returns in Hstep as (a & Ha & Hstep).
      apply obind_Returns in Hstep as (b2 & Hb2 & Hstep).
      injection Hstep as <- <- <-.
      apply at_nat_Returns in Ha, Hb2.
      rewrite !length_insert in Hl.
      split; [exact Hl |]. split; [| split].
      + simpl in *. destruct b0; [injection Hr2 as -> | destruct r0; [discriminate |];
          injection Hr2 as ->]; lia.
      + rewrite Hb. destruct l; reflexivity.
      + intros HE0. apply HP. pose proof HE0 as HE0'. rewrite Forall_forall in HE0'.
        apply Forall_insert; [apply Forall_insert; [exact HE0 |] |];
          apply HE0'; eapply list_elem_of_lookup_2; eassumption. }
  apply Hloop in Hfold as (Hl & Hc & Hb & HP). split.
  - intros Hne. rewrite length_reverse in Hc.
    assert (b = false) as ->.
    { rewrite Hb. destruct (reverse bestCollapse) eqn:Hr; [| reflexivity].
      apply (f_equal reverse) in Hr. rewrite reverse_involutive, reverse_nil in Hr.
      congruence. }
    rewrite length_take_le by lia. lia.
  - intros HE. apply Forall_take, HP, HE.
Qed.

Lemma RelinkGroup_graph graph group graph' :
  RelinkGroup build graph group = Returns graph' ->
  length (Graph._wavefrontEdges graph') = length (Graph._wavefrontEdges graph)
  /\ Graph._motorcycleSegments graph' = Graph._motorcycleSegments graph
  /\ length (Graph._vertices graph') = length (Graph._vertices graph)
  /\ (Forall (fun e => EndsWithin (length (Graph._vertices graph))
                         (Segment._head e) (Segment._tail e))
        (Graph._wavefrontEdges graph) ->
      Forall (fun e => EndsWithin (length (Graph._vertices graph))
                         (Segment._head e) (Segment._tail e))
        (Graph._wavefrontEdges graph')).
Proof.
  unfold RelinkGroup. intros H.
  destruct (_ =? _)%N; [injection H as <-; auto |].
  apply obind_Returns in H as (inAndOutTail & _ & H).
  apply obind_Returns in H as (inAndOutHead & _ & H).
  apply obind_Returns in H as (u & _ & H).
  destruct inAndOutTail.1 as [tail |]; [| discriminate].
  destruct inAndOutHead.2 as [head |]; [| discriminate].
  apply obind_Returns in H as (t & Ht & H).
  apply obind_Returns in H as (h & Hh & H).
  apply obind_Returns in H as (new & Hnew & H).
  apply obind_Returns in H as (t2 & _ & H).
  apply obind_Returns in H as (tailTail & _ & H).
  apply obind_Returns in H as (v0 & _ & H).
  apply obind_Returns in H as (h2 & _ & H).
  apply obind_Returns in H as (headHead & _ & H).
  apply obind_Returns in H as (v2 & _ & H).
  apply obind_Returns in H as (velocity & _ & H).
  apply obind_Returns in H as (vertices & Hset & H).
  injection H as <-. simpl.
  apply set_at_length in Hset. apply at_Returns in Hnew. apply lookup_lt_Some in Hnew.
  apply at_nat_Returns in Ht, Hh.
  rewrite !length_insert. split; [reflexivity |]. split; [reflexivity |].
  split; [exact Hset |]. intros Hall.
  assert (Forall (fun e => EndsWithin (length (Graph._vertices graph))
                             (Segment._head e) (Segment._tail e))
            (<[tail := Segment.mk (CollapseGroupInfo._newVertex group) (Segment._tail t)
                         (Segment._leftFace t) (Segment._rightFace t)]>
               (Graph._wavefrontEdges graph))) as Hall1.
  { apply Forall_insert; [exact Hall |]. rewrite Forall_forall in Hall.
    destruct (Hall t) as [_ Htt]; [eapply list_elem_of_lookup_2, Ht |].
    split; simpl; assumption. }
  apply Forall_insert; [exact Hall1 |]. rewrite Forall_forall in Hall1.
  destruct (Hall1 h) as [Hhh _]; [eapply list_elem_of_lookup_2, Hh |].
  split; simpl; assumption.
Qed.

Lemma ProcessCollapses_graph graph result bestCollapse bestCollapseTime graph' result' :
  ProcessCollapses build graph result bestCollapse bestCollapseTime
  = Returns (graph', result') ->
  (bestCollapse <> [] -> EventsLeft graph' < EventsLeft graph)%nat
  /\ (length (Graph._vertices graph) <= length (Graph._vertices graph'))%nat
  /\ (RefersToVertices graph -> RefersToVertices graph').
Proof.
  unfold ProcessCollapses. intros H.
  apply obind_Returns in H as ([[groups infos0] next] & _ & H).
  apply obind_Returns in H as ([[graph1 result1] infos1] & Hloop & H).
  apply obind_Returns in H as (edges2 & Hremove & H).
  apply obind_Returns in H as (graph2 & Hrelink & H). injection H as <- <-.
  apply (foldM_preserves (fun st =>
           Graph._wavefrontEdges st.1.1 = Graph._wavefrontEdges graph
           /\ Graph._motorcycleSegments st.1.1 = Graph._motorcycleSegments graph
           /\ (length (Graph._vertices graph) <= length (Graph._vertices st.1.1))%nat))
    in Hloop; [| | simpl; auto].
  2:{ intros [[g r] infos] group [[g' r'] infos'] (He & Hm & Hv) Hstep. simpl in *.
      apply obind_Returns in Hstep as ([[g1 r1] new] & Hone & Hstep).
      apply obind_Returns in Hstep as (info & _ & Hstep).
      apply obind_Returns in Hstep as (infos2 & _ & Hstep). injection Hstep as <- <- <-.
      apply CollapseOneGroup_graph in Hone as (He1 & Hm1 & Hv1).
      split; [congruence |]. split; [congruence | lia]. }
  simpl in Hloop. destruct Hloop as (He1 & Hm1 & Hv1).
  pose proof (RemoveCollapsedEdges_kept
                (fun e => EndsWithin (length (Graph._vertices graph1))
                            (Segment._head e) (Segment._tail e)) _ _ _ Hremove)
    as [Hcount Hkept].
  apply (foldM_preserves (fun g =>
           length (Graph._wavefrontEdges g) = length edges2
           /\ Graph._motorcycleSegments g = Graph._motorcycleSegments graph
           /\ length (Graph._vertices g) = length (Graph._vertices graph1)
           /\ (Forall (fun e => EndsWithin (length (Graph._vertices graph1))
                                  (Segment._head e) (Segment._tail e)) edges2 ->
               Forall (fun e => EndsWithin (length (Graph._vertices graph1))
                                  (Segment._head e) (Segment._tail e))
                 (Graph._wavefrontEdges g)))) in Hrelink; [| | simpl; auto].
  2:{ intros g group g' (He & Hm & Hv & Hwf) Hstep.
      apply RelinkGroup_graph in Hstep as (He' & Hm' & Hv' & Hwf').
      split; [congruence |]. split; [congruence |]. split; [congruence |].
      intros Hall. rewrite Hv in Hwf'. apply Hwf', Hwf, Hall. }
  destruct Hrelink as (He2 & Hm2 & Hv2 & Hwf2).
  split; [| split].
  - intros Hne. specialize (Hcount Hne). unfold EventsLeft.
    rewrite Hm2, He2. rewrite He1 in Hcount.
    destruct bestCollapse; [congruence |]. simpl in Hcount. lia.
  - lia.
  - intros [Hedges Hmotors]. split.
    + rewrite Hv2. apply Hwf2, Hkept. rewrite He1.
      eapply Forall_edges_mono; [| exact Hedges]. lia.
    + rewrite Hm2, Hv2. eapply Forall_motorcycles_mono; [| exact Hmotors]. lia.
Qed.

Lemma Iteration_graph maxTime s s' :
  Iteration build maxTime s = Returns (Some s') ->
  (EventsLeft (graph_ s') < EventsLeft (graph_ s))%nat
  /\ (length (Graph._vertices (graph_ s)) <= length (Graph._vertices (graph_ s')))%nat
  /\ (RefersToVertices (graph_ s) -> RefersToVertices (graph_ s')).
Proof.
  unfold Iteration. intros H.
  apply obind_Returns in H as ([bestCollapse bestCollapseTime] & _ & H).
  apply obind_Returns in H as ([crashes crashTime] & _ & H).
  destruct (negb _).
  - destruct (_ >? _); [discriminate |].
    apply obind_Returns in H as ([[g r] t] & Hcrash & H). injection H as <-. simpl.
    eapply ProcessMotorcycleCrash_graph, Hcrash.
  - destruct (bool_decide (bestCollapse = [])) eqn:Hempty; [discriminate |].
    apply bool_decide_eq_false in Hempty.
    destruct (_ >? _); [discriminate |].
    apply obind_Returns in H as ([g r] & Hcollapse & H). injection H as <-. simpl.
    apply ProcessCollapses_graph in Hcollapse as (H1 & H2 & H3). auto.
Qed.
End GraphInvariant.

(** *** The end of the event loop *)

Section Termination.
Context {S : Scalar}.
Variable build : Build.
Local Open Scope prim_scope.

(** **** Computations that end: the step budget of the model is not what
    stops them *)

Lemma ends_bind {A B} (m : Outcome A) (k : A -> Outcome B) :
  m <> OutOfFuel -> (forall a, m = Returns a -> k a <> OutOfFuel) -> obind m k <> OutOfFuel.
Proof. destruct m; simpl; intros Hm Hk; try discriminate; [eauto | congruence]. Qed.

Lemma ends_foldM {A St} (P : St -> Prop) (body : St -> A -> Outcome St) l s :
  P s ->
  (forall s x, P s -> body s x <> OutOfFuel) ->
  (forall s x s', P s -> body s x = Returns s' -> P s') ->
  foldM body l s <> OutOfFuel.
Proof.
  intros Hs Hends Hkeep. revert s Hs. induction l as [| x l IH]; intros s Hs; simpl.
  - discriminate.
  - apply ends_bind; [apply Hends, Hs |]. intros s' Hstep. apply IH. eauto.
Qed.

Lemma ends_foldM_all {A St} (body : St -> A -> Outcome St) l s :
  (forall s x, body s x <> OutOfFuel) -> foldM body l s <> OutOfFuel.
Proof. intros H. apply (ends_foldM (fun _ => True)); auto. Qed.

Lemma ends_assert line c : assert_ build line c <> OutOfFuel.
Proof. unfold assert_. destruct (NDEBUG build), c; discriminate. Qed.

Lemma ends_at_nat {A} (l : list A) i : at_nat l i <> OutOfFuel.
Proof. unfold at_nat. destruct (l !! i); discriminate. Qed.

Lemma ends_at {A} (l : list A) i : at_ l i <> OutOfFuel.
Proof. apply ends_at_nat. Qed.

Lemma ends_find_ifM {A} (p : A -> Outcome bool) l :
  (forall x, p x <> OutOfFuel) -> find_ifM p l <> OutOfFuel.
Proof.
  intros Hp. induction l as [| x l IH]; simpl; [discriminate |].
  apply ends_bind; [apply Hp |]. intros [|] _; [discriminate |].
  apply ends_bind; [exact IH | discriminate].
Qed.

(** Goes through a computation: every bind, condition and loop of it ends
    when its parts do. *)
Ltac ends_step :=
  match goal with
  | x : (_ * _)%type |- _ => destruct x
  | |- Returns _ <> OutOfFuel => discriminate
  | |- AssertionFailed _ <> OutOfFuel => discriminate
  | |- UndefinedBehaviour <> OutOfFuel => discriminate
  | |- assert_ _ _ _ <> OutOfFuel => apply ends_assert
  | |- at_nat _ _ <> OutOfFuel => apply ends_at_nat
  | |- at_ _ _ <> OutOfFuel => apply ends_at
  | |- obind _ _ <> OutOfFuel => apply ends_bind; [| intros ? _]
  | |- foldM _ _ _ <> OutOfFuel => apply ends_foldM_all; intros ? ?
  | |- find_ifM _ _ <> OutOfFuel => apply ends_find_ifM; intros ?
  | |- (if ?c then _ else _) <> OutOfFuel => destruct c
  | |- (match ?x with _ => _ end) <> OutOfFuel => destruct x
  | |- (let (_, _) := ?x in _) <> OutOfFuel => destruct x
  | H : forall _, _ <> OutOfFuel |- _ => apply H
  end.
Ltac ends := repeat (cbv beta; ends_step).

Lemma ends_PositionAtTime v t : PositionAtTime build v t <> OutOfFuel.
Proof. unfold PositionAtTime. ends. Qed.

Lemma ends_ClampedPositionAtTime v t : ClampedPositionAtTime build v t <> OutOfFuel.
Proof. unfold ClampedPositionAtTime. ends. apply ends_PositionAtTime. Qed.

Lemma ends_CalculateVertexVelocity p0 p1 p2 :
  CalculateVertexVelocity build p0 p1 p2 <> OutOfFuel.
Proof. unfold CalculateVertexVelocity. ends. Qed.

Lemma ends_AddSteinerVertex sk v : AddSteinerVertex build sk v <> OutOfFuel.
Proof. unfold AddSteinerVertex. ends. Qed.

Lemma ends_AddUnique dst e : AddUnique build dst e <> OutOfFuel.
Proof. unfold AddUnique. ends. Qed.

Lemma ends_AddEdge sk h t l r ty : AddEdge build sk h t l r ty <> OutOfFuel.
Proof.
  unfold AddEdge, AddUnique_face, AddUnique_unplaced. ends; apply ends_AddUnique.
Qed.

Lemma ends_FindInAndOut edges v : FindInAndOut build edges v <> OutOfFuel.
Proof. unfold FindInAndOut. ends. Qed.

Lemma ends_AddEdgeForVertexPath graph dst v final :
  AddEdgeForVertexPath build graph dst v final <> OutOfFuel.
Proof.
  unfold AddEdgeForVertexPath. ends;
    first [apply ends_FindInAndOut | apply ends_AddEdge | apply ends_AddSteinerVertex].
Qed.

Lemma ends_FreezeInPlace v t : FreezeInPlace build v t <> OutOfFuel.
Proof. unfold FreezeInPlace. ends. apply ends_PositionAtTime. Qed.

Lemma ends_set_at {A} (l : list A) i x : set_at l i x <> OutOfFuel.
Proof. unfold set_at. ends. Qed.

Lemma ends_CalculateCrashTime graph v : CalculateCrashTime build graph v <> OutOfFuel.
Proof. unfold CalculateCrashTime. ends; apply ends_PositionAtTime. Qed.

Lemma ends_FindCollapses graph t : FindCollapses build graph t <> OutOfFuel.
Proof. unfold FindCollapses. ends. Qed.

Lemma ends_FindCrashes graph t t' : FindCrashes build graph t t' <> OutOfFuel.
Proof. unfold FindCrashes. ends. apply ends_CalculateCrashTime. Qed.

(** The loops of lines 697-706 and 710-719 end: every turn that goes on
    moves one more entry of [collapseGroups] into the group. *)
Lemma filter_insert_less (next : N) (groups : list N) (i : nat) (g : N) :
  groups !! i = Some g -> g <> next ->
  (length (filter (fun g => g <> next) (<[i := next]> groups))
   < length (filter (fun g => g <> next) groups))%nat.
Proof.
  revert i. induction groups as [| x groups IH]; intros [| i] Hi Hg; simpl in *;
    try discriminate.
  - injection Hi as ->. rewrite !filter_cons.
    rewrite decide_False by (intros Hn; apply Hn; reflexivity).
    rewrite decide_True by exact Hg. simpl. lia.
  - specialize (IH _ Hi Hg). rewrite !filter_cons.
    destruct (decide (x <> next)); simpl; lia.
Qed.

Lemma FollowGroup_ends fuel line from to edges bestCollapse next groups searching :
  (length (filter (fun g => g <> next) groups) < fuel)%nat ->
  FollowGroup build fuel line from to edges bestCollapse next groups searching <> OutOfFuel.
Proof.
  revert groups searching. induction fuel as [| fuel IH]; intros groups searching Hlt;
    [lia |].
  cbn [FollowGroup]. apply ends_bind; [ends |]. intros [i |] _; [| discriminate].
  apply ends_bind; [ends |]. intros g Hg. apply at_nat_Returns in Hg.
  destruct (N.eqb_spec g next) as [| Hne]; [discriminate |].
  apply ends_bind; [ends |]. intros _ _.
  apply ends_bind; [unfold CollapsedEdge; ends |]. intros s _.
  apply IH. pose proof (filter_insert_less next groups i g Hg Hne). lia.
Qed.

Lemma FollowGroup_length fuel line from to edges bestCollapse next groups searching
    groups' searching' :
  FollowGroup build fuel line from to edges bestCollapse next groups searching
  = Returns (groups', searching') ->
  length groups' = length groups.
Proof.
  revert groups searching. induction fuel as [| fuel IH]; intros groups searching H;
    [discriminate |].
  cbn [FollowGroup] in H. mdestruct H; simplify_eq; try reflexivity.
  match goal with
  | H : FollowGroup _ _ _ _ _ _ _ _ _ _ = Returns _ |- _ =>
    apply IH in H; rewrite H; apply length_insert
  end.
Qed.

Lemma GroupCollapses_ends edges bestCollapse :
  GroupCollapses build edges bestCollapse <> OutOfFuel.
Proof.
  unfold GroupCollapses.
  apply (ends_foldM (fun st => length st.1.1 = length bestCollapse)).
  - simpl. apply length_replicate.
  - intros [[groups infos] next] c Hlen. simpl in Hlen.
    apply ends_bind; [ends |]. intros g _. destruct (negb _); [discriminate |].
    apply ends_bind; [unfold CollapsedEdge; ends |]. intros s _.
    apply ends_bind.
    { apply FollowGroup_ends.
      pose proof (length_filter (fun g => g <> next) (<[c := next]> groups)) as Hf.
      rewrite length_insert in Hf. lia. }
    intros [groups1 tail] H1. apply FollowGroup_length in H1.
    rewrite length_insert in H1.
    apply ends_bind; [| intros [? ?] _; discriminate].
    apply FollowGroup_ends.
    pose proof (length_filter (fun g => g <> next) groups1) as Hf. lia.
  - intros [[groups infos] next] c [[groups' infos'] next'] Hlen Hstep.
    cbn [fst snd] in *.
    mdestruct Hstep; simplify_eq; try exact Hlen.
    repeat match goal with
           | H : FollowGroup _ _ _ _ _ _ _ _ _ _ = Returns _ |- _ =>
             apply FollowGroup_length in H
           end.
    rewrite length_insert in *. congruence.
Qed.

Lemma ends_CollapseOneGroup graph result bestCollapse time groups group :
  CollapseOneGroup build graph result bestCollapse time groups group <> OutOfFuel.
Proof.
  unfold CollapseOneGroup, GroupMembers, CollapsedEdge. ends;
    first [apply ends_PositionAtTime | apply ends_AddSteinerVertex
          | apply ends_AddEdgeForVertexPath | apply ends_FreezeInPlace | apply ends_set_at].
Qed.

Lemma ends_RemoveCollapsedEdges edges (bestCollapse : list (Primitive * nat)) :
  RemoveCollapsedEdges edges bestCollapse <> OutOfFuel.
Proof. unfold RemoveCollapsedEdges. ends. Qed.

Lemma ends_RelinkGroup graph group : RelinkGroup build graph group <> OutOfFuel.
Proof.
  unfold RelinkGroup. ends;
    first [apply ends_FindInAndOut | apply ends_PositionAtTime
          | apply ends_CalculateVertexVelocity | apply ends_set_at].
Qed.

Lemma ends_ProcessCollapses graph result bestCollapse time :
  ProcessCollapses build graph result bestCollapse time <> OutOfFuel.
Proof.
  unfold ProcessCollapses. ends;
    first [apply GroupCollapses_ends | apply ends_CollapseOneGroup | apply ends_set_at
          | apply ends_RemoveCollapsedEdges | apply ends_RelinkGroup].
Qed.

Lemma ends_CrashOutSide graph result motor crashSegment crashPt crashPtSkeleton time :
  CrashOutSide build graph result motor crashSegment crashPt crashPtSkeleton time
  <> OutOfFuel.
Proof.
  unfold CrashOutSide. ends;
    first [apply ends_FindInAndOut | apply ends_ClampedPositionAtTime
          | apply ends_AddSteinerVertex | apply ends_AddEdge
          | apply ends_AddEdgeForVertexPath | apply ends_CalculateVertexVelocity].
Qed.

Lemma ends_CrashInSide graph result motor crashSegment crashPt crashPtSkeleton time :
  CrashInSide build graph result motor crashSegment crashPt crashPtSkeleton time
  <> OutOfFuel.
Proof.
  unfold CrashInSide. ends;
    first [apply ends_FindInAndOut | apply ends_ClampedPositionAtTime
          | apply ends_AddSteinerVertex | apply ends_AddEdge
          | apply ends_AddEdgeForVertexPath | apply ends_CalculateVertexVelocity].
Qed.

Lemma ends_ProcessMotorcycleCrash graph result crashes time :
  ProcessMotorcycleCrash build graph result crashes time <> OutOfFuel.
Proof.
  unfold ProcessMotorcycleCrash. ends;
    first [apply ends_PositionAtTime | apply ends_AddSteinerVertex
          | apply ends_CrashOutSide | apply ends_CrashInSide | apply ends_AddEdge
          | apply ends_FreezeInPlace | apply ends_set_at].
Qed.

Lemma ends_Iteration maxTime s : Iteration build maxTime s <> OutOfFuel.
Proof.
  unfold Iteration. ends;
    first [apply ends_FindCollapses | apply ends_FindCrashes
          | apply ends_ProcessMotorcycleCrash | apply ends_ProcessCollapses].
Qed.

(** X11.  The event loop of CalculateSkeleton ends.  Every turn that
    processes an event leaves less to do, counting three for a motorcycle
    and one for a wavefront edge; so a loop that starts from [m]
    motorcycles and [e] wavefront edges processes at most [3m + e] events. *)
Theorem event_loop_ends (fuel : nat) (maxTime : Primitive) (s : Sim) :
  (EventsLeft (graph_ s) < fuel)%nat ->
  EventLoop build fuel maxTime s <> OutOfFuel
  /\ (forall s', Iteration build maxTime s = Returns (Some s') ->
        (EventsLeft (graph_ s') < EventsLeft (graph_ s))%nat).
Proof.
  intros Hfuel. split; [| intros s' H; apply Iteration_graph in H as [H _]; exact H].
  revert s Hfuel. induction fuel as [| fuel IH]; intros s Hfuel; [lia |].
  cbn [EventLoop]. apply ends_bind; [apply ends_Iteration |].
  intros [s' |] Hstep; [| discriminate].
  apply IH. apply Iteration_graph in Hstep as [Hless _]. lia.
Qed.
End Termination.

(** *** Segments and vertices *)

Section Refers.
Context {S : Scalar}.
Variable build : Build.
Local Open Scope prim_scope.

Lemma BuildGraphFromVertexLoop_refers vertices graph :
  BuildGraphFromVertexLoop build vertices = Returns graph ->
  RefersToVertices graph /\ (length vertices <= length (Graph._vertices graph))%nat.
Proof.
  unfold BuildGraphFromVertexLoop. intros H.
  apply obind_Returns in H as (u & _ & H).
  apply obind_Returns in H as ([edges verts] & H1 & H).
  apply obind_Returns in H as ([verts' ms] & H2 & H).
  injection H as <-.
  pose proof (BuildEdgeAndVertex_length build _ _ _ _ _ _ H1) as Hlen.
  apply BuildEdgeAndVertex_built in H1;
    [| apply Forall_forall; intros v; apply elem_of_indices | split; constructor].
  destruct H1 as [Hedges _]. simpl in Hedges, Hlen.
  apply BuildMotorcycle_spec in H2 as (anchors & -> & Hanchors & ->).
  unfold indices in Hlen. rewrite length_fmap, length_seq in Hlen.
  unfold size in *. rewrite Nat2N.id in Hlen.
  split; [| simpl; rewrite length_app; lia].
  split; simpl; rewrite length_app.
  - eapply Forall_impl; [exact Hedges |]. intros e [Hh Ht]. unfold EndsWithin. lia.
  - apply Forall2_length in Hanchors.
    apply Forall_forall. intros m Hm.
    apply elem_of_lookup_imap_1 in Hm as (k & v & -> & Hv).
    pose proof (lookup_lt_Some _ _ _ Hv) as Hk.
    assert (v ∈ indices (N.of_nat (length vertices))) as Hin.
    { eapply list_elem_of_filter. eapply list_elem_of_lookup_2, Hv. }
    apply elem_of_indices in Hin.
    unfold MotorcycleOf, EndsWithin. simpl.
    pose proof (u32_le v). pose proof (u32_le (N.of_nat (length verts + k))). lia.
Qed.

(** X12.  Every wavefront edge and every motorcycle segment refers to
    vertices that the graph has: in the graph that BuildGraphFromVertexLoop
    returns, after every turn of the event loop, in which no vertex is
    removed, and so in the graph that the event loop leaves. *)
Theorem segments_refer_to_vertices :
  (forall vertices graph,
     BuildGraphFromVertexLoop build vertices = Returns graph -> RefersToVertices graph)
  /\ (forall maxTime s s',
        Iteration build maxTime s = Returns (Some s') ->
        (length (Graph._vertices (graph_ s)) <= length (Graph._vertices (graph_ s')))%nat
        /\ (RefersToVertices (graph_ s) -> RefersToVertices (graph_ s')))
  /\ (forall fuel vertices maxTime graph s,
        BuildGraphFromVertexLoop build vertices = Returns graph ->
        EventLoop build fuel maxTime (InitialSim graph) = Returns s ->
        RefersToVertices (graph_ s)
        /\ (length vertices <= length (Graph._vertices (graph_ s)))%nat).
Proof.
  split; [intros vertices graph H; apply BuildGraphFromVertexLoop_refers in H as [H _]; exact H |].
  split; [intros maxTime s s' H; apply Iteration_graph in H as (_ & H1 & H2); auto |].
  intros fuel vertices maxTime graph s Hg Hloop.
  pose proof (BuildGraphFromVertexLoop_refers _ _ Hg) as [Hwf Hn].
  change graph with (graph_ (InitialSim graph)) in Hwf, Hn.
  revert Hloop Hwf Hn. generalize (InitialSim graph). clear Hg.
  induction fuel as [| fuel IH]; intros s0 Hloop Hwf Hn; [discriminate |].
  cbn [EventLoop] in Hloop. apply obind_Returns in Hloop as ([s1 |] & Hstep & Hloop).
  - apply Iteration_graph in Hstep as (_ & H1 & H2). apply (IH s1); auto. lia.
  - injection Hloop as <-. auto.
Qed.
End Refers.

(** *** Loops from any soup of segments *)

Section LoopsOfAnySoup.
Context {S : Scalar}.
Variable build : Build.

Lemma last_snoc_Some {A} (l : list A) (x : A) : last (l ++ [x]) = Some x.
Proof. apply last_snoc. Qed.

Lemma FollowLoop_uses_the_pool fuel pool w pool' w' :
  FollowLoop build fuel pool w = Returns (pool', w') ->
  exists c,
    PathSegments w' ++ c :: pool' ≡ₚ PathSegments w ++ pool
    /\ last w' = Some c.1 /\ c.2 ∈ w' /\ (length w <= length w')%nat.
Proof.
  revert pool w. induction fuel as [| fuel IH]; intros pool w H; [discriminate |].
  destruct (last w) as [searching |] eqn:Hlast.
  2:{ cbn [FollowLoop] in H. rewrite Hlast in H.
      apply obind_Returns in H as (u & _ & H). discriminate. }
  rewrite (FollowLoop_turn build _ _ _ _ Hlast) in H.
  apply obind_Returns in H as (u & _ & H).
  destruct (FindHit_cases build searching pool) as [[Hs _] | [(i & y & Hs & Hi) | Hs]];
    rewrite Hs in H; cbn [obind] in H.
  - apply obind_Returns in H as (u' & _ & H). discriminate.
  - apply obind_Returns in H as (u' & _ & H).
    unfold at_nat in H. rewrite Hi in H. cbn [obind snd] in H.
    unfold erase_at in H.
    destruct (bool_decide (y ∈ w)) eqn:Hy.
    + injection H as <- <-. apply bool_decide_eq_true in Hy.
      exists (searching, y). split; [| auto].
      apply Permutation_app_head. symmetry. apply delete_Permutation, Hi.
    + apply IH in H as (c & Hperm & Hl & Hc & Hlen).
      exists c. split; [| split; [exact Hl | split; [exact Hc |]]].
      * rewrite Hperm, (PathSegments_snoc _ _ _ Hlast), <- app_assoc.
        apply Permutation_app_head. simpl. symmetry. apply delete_Permutation, Hi.
      * rewrite length_app in Hlen. simpl in Hlen. lia.
  - discriminate.
Qed.

Lemma CollectLoops_uses_the_pool fuel pool result loops :
  CollectLoops build fuel pool result = Returns loops ->
  exists new closing,
    loops = result ++ new
    /\ Forall2 ClosesChain new closing
    /\ concat (PathSegments <$> new) ++ closing ≡ₚ pool.
Proof.
  revert pool result. induction fuel as [| fuel IH]; intros pool result H.
  - cbn [CollectLoops] in H. destruct (last pool) eqn:Hlast; [discriminate |].
    injection H as <-. exists [], []. rewrite app_nil_r. split; [reflexivity |].
    split; [constructor |]. simpl. apply last_None in Hlast. subst pool. reflexivity.
  - destruct (last pool) as [i |] eqn:Hlast.
    2:{ cbn [CollectLoops] in H. rewrite Hlast in H. injection H as <-.
        exists [], []. rewrite app_nil_r. split; [reflexivity |].
        split; [constructor |]. simpl. apply last_None in Hlast. subst pool. reflexivity. }
    rewrite (CollectLoops_turn build _ _ _ _ Hlast) in H.
    apply obind_Returns in H as ([pool1 w] & Hfollow & H).
    apply FollowLoop_uses_the_pool in Hfollow as (c & Hperm & Hl & Hc & Hlen).
    apply IH in H as (new & closing & -> & Hclose & Hrest).
    exists (w :: new), (c :: closing). rewrite <- app_assoc. split; [reflexivity |].
    split; [constructor; [| exact Hclose] |].
    + split; [exact Hl |]. split; [exact Hc | exact Hlen].
    + assert (pool = removelast pool ++ [i]) as Hpool.
      { apply last_Some in Hlast as (l' & ->). rewrite removelast_last. reflexivity. }
      rewrite fmap_cons. simpl. rewrite <- app_assoc.
      transitivity (PathSegments w ++ c :: pool1).
      { apply Permutation_app_head. rewrite <- Permutation_middle.
        apply perm_skip. exact Hrest. }
      rewrite Hperm. rewrite Hpool at 2. destruct i as [i1 i2]. simpl.
      rewrite <- Permutation_middle, app_nil_r. reflexivity.
Qed.

(** X13.  Whatever the segments, the loops that AsVertexLoopsOrdered
    returns use every segment once: the segments between the consecutive
    vertices of the loops, with one more segment for each loop, which
    leaves the last vertex of the loop and ends on a vertex of the loop,
    are the segments given.  A loop has at least two vertices. *)
Theorem loops_use_every_segment_once (segments : list (N * N)) (loops : list (list N)) :
  AsVertexLoopsOrdered build segments = Returns loops ->
  exists closing,
    Forall2 ClosesChain loops closing
    /\ concat (PathSegments <$> loops) ++ closing ≡ₚ segments.
Proof.
  unfold AsVertexLoopsOrdered. intros H.
  apply CollectLoops_uses_the_pool in H as (new & closing & -> & Hclose & Hperm).
  exists closing. auto.
Qed.

Lemma FollowLoop_outcomes fuel pool w :
  NDEBUG build = false -> w <> [] -> (length pool < fuel)%nat ->
  (exists r, FollowLoop build fuel pool w = Returns r)
  \/ FollowLoop build fuel pool w = AssertionFailed 1060
  \/ FollowLoop build fuel pool w = AssertionFailed 1065
  \/ FollowLoop build fuel pool w = AssertionFailed 1069.
Proof.
  intros Hd. revert pool w. induction fuel as [| fuel IH]; intros pool w Hw Hlen; [lia |].
  destruct (last w) as [searching |] eqn:Hlast;
    [| apply last_None in Hlast; congruence].
  rewrite (FollowLoop_turn build _ _ _ _ Hlast).
  destruct (assert_cases build 1060 (negb (bool_decide (pool = [])))) as [-> | ->];
    cbn [obind]; [| auto].
  destruct (FindHit_cases build searching pool) as [[-> _] | [(i & y & -> & Hi) | ->]];
    cbn [obind]; [| | auto].
  - match goal with
    | |- context [assert_ build 1069 ?c] =>
      replace c with false
        by (symmetry; apply bool_decide_eq_false; intros Hn; apply Hn; reflexivity)
    end.
    rewrite (assert_false build 1069 Hd). auto.
  - match goal with
    | |- context [assert_ build 1069 ?c] =>
      replace c with true by (symmetry; apply bool_decide_eq_true; discriminate)
    end.
    rewrite assert_pass. cbn [obind]. unfold at_nat. rewrite Hi. cbn [obind snd].
    destruct (bool_decide (y ∈ w)); [eauto |].
    apply IH.
    + intros Hnil. apply app_eq_nil in Hnil as [_ Hnil]. discriminate.
    + unfold erase_at. rewrite length_delete by eauto.
      apply lookup_lt_Some in Hi. lia.
Qed.

Lemma CollectLoops_outcomes fuel pool result :
  NDEBUG build = false -> (length pool <= fuel)%nat ->
  (exists loops, CollectLoops build fuel pool result = Returns loops)
  \/ CollectLoops build fuel pool result = AssertionFailed 1060
  \/ CollectLoops build fuel pool result = AssertionFailed 1065
  \/ CollectLoops build fuel pool result = AssertionFailed 1069.
Proof.
  intros Hd. revert pool result. induction fuel as [| fuel IH]; intros pool result Hlen.
  - destruct pool; [| simpl in Hlen; lia]. rewrite CollectLoops_nil. eauto.
  - destruct (last pool) as [i |] eqn:Hlast.
    2:{ apply last_None in Hlast. subst pool. rewrite CollectLoops_nil. eauto. }
    rewrite (CollectLoops_turn build _ _ _ _ Hlast).
    destruct (FollowLoop_outcomes (Datatypes.S (length (removelast pool)))
                (removelast pool) [i.1; i.2] Hd)
      as [[[pool1 w] Hf] | [Hf | [Hf | Hf]]]; try discriminate; try lia;
      rewrite Hf; cbn [obind]; auto.
    apply IH. apply FollowLoop_shrinks in Hf. rewrite length_removelast in Hf. lia.
Qed.

(** X14.  In a build with assertions AsVertexLoopsOrdered returns loops or
    fails one of its three assertions (lines 1060, 1065, 1069): no segment
    is read through an iterator that points nowhere. *)
Theorem loop_reconstruction_is_guarded (segments : list (N * N)) :
  NDEBUG build = false ->
  (exists loops, AsVertexLoopsOrdered build segments = Returns loops)
  \/ AsVertexLoopsOrdered build segments = AssertionFailed 1060
  \/ AsVertexLoopsOrdered build segments = AssertionFailed 1065
  \/ AsVertexLoopsOrdered build segments = AssertionFailed 1069.
Proof.
  intros Hd. unfold AsVertexLoopsOrdered. apply CollectLoops_outcomes; [exact Hd | lia].
Qed.
End LoopsOfAnySoup.

(** *** The time limit of the event loop *)

Section TimeLimit.
Context {S : Scalar}.
Variable build : Build.
Local Open Scope prim_scope.



End TimeLimit.

(** *** The groups of the collapses *)

Section Groups.
Context {S : Scalar}.
Variable build : Build.
Local Open Scope prim_scope.

Lemma Grouped_insert groups c i next :
  next <> not0u -> Grouped groups c -> Grouped (<[i := next]> groups) c.
Proof.
  intros Hn (g & Hg & Hne). destruct (decide (i = c)) as [-> | Hic].
  - exists next. split; [| exact Hn].
    apply list_lookup_insert_eq. eapply lookup_lt_Some, Hg.
  - exists g. split; [| exact Hne]. rewrite list_lookup_insert_ne by exact Hic. exact Hg.
Qed.

Lemma Grouped_insert_eq (groups : list N) c next :
  next <> not0u -> (c < length groups)%nat -> Grouped (<[c := next]> groups) c.
Proof.
  intros Hn Hc. exists next. split; [| exact Hn]. apply list_lookup_insert_eq, Hc.
Qed.

Lemma Forall_insert_le (groups : list N) i (next : N) :
  Forall (fun g => g = not0u \/ (g <= next)%N) groups ->
  Forall (fun g => g = not0u \/ (g <= next)%N) (<[i := next]> groups).
Proof.
  intros H. destruct (decide (i < length groups)%nat) as [Hi | Hi].
  - apply Forall_insert; [exact H | right; lia].
  - rewrite list_insert_ge by lia. exact H.
Qed.

Lemma FollowGroup_groups fuel line from to edges bestCollapse next groups searching
    groups' searching' :
  next <> not0u ->
  FollowGroup build fuel line from to edges bestCollapse next groups searching
  = Returns (groups', searching') ->
  (Forall (fun g => g = not0u \/ (g <= next)%N) groups ->
   Forall (fun g => g = not0u \/ (g <= next)%N) groups')
  /\ (forall c, Grouped groups c -> Grouped groups' c).
Proof.
  intros Hn. revert groups searching.
  induction fuel as [| fuel IH]; intros groups searching H; [discriminate |].
  cbn [FollowGroup] in H. mdestruct H; simplify_eq; try (split; auto; fail).
  match goal with
  | H : FollowGroup _ _ _ _ _ _ _ _ _ _ = Returns _ |- _ =>
    apply IH in H; destruct H as [H1 H2]
  end.
  split.
  - intros HF. apply H1, Forall_insert_le, HF.
  - intros c Hc. apply H2, Grouped_insert; assumption.
Qed.

Lemma GroupCollapses_loop edges (bestCollapse : list (Primitive * nat)) k a
    groups infos next groups' infos' next' :
  (a + k = length bestCollapse)%nat ->
  (size bestCollapse < not0u)%N ->
  length groups = length bestCollapse ->
  Forall (fun g => g = not0u \/ (g < next)%N) groups ->
  (forall c, (c < a)%nat -> Grouped groups c) ->
  (N.to_nat next <= a)%nat ->
  length infos = N.to_nat next ->
  foldM (fun '(collapseGroups, collapseGroupInfos, nextCollapseGroup) c =>
    let* g := at_nat collapseGroups c in
    if negb (g =? not0u)%N
    then Returns (collapseGroups, collapseGroupInfos, nextCollapseGroup) else
    let collapseGroups := <[c := nextCollapseGroup]> collapseGroups in
    let* s := CollapsedEdge edges bestCollapse c in
    let* (collapseGroups, searchingTail) :=
      FollowGroup build (Datatypes.S (length bestCollapse)) 703 Segment._head Segment._tail
        edges bestCollapse nextCollapseGroup collapseGroups (Segment._tail s) in
    let* (collapseGroups, searchingHead) :=
      FollowGroup build (Datatypes.S (length bestCollapse)) 716 Segment._tail Segment._head
        edges bestCollapse nextCollapseGroup collapseGroups (Segment._head s) in
    Returns (collapseGroups,
             collapseGroupInfos ++ [CollapseGroupInfo.mk searchingHead searchingTail not0u],
             u32 (nextCollapseGroup + 1)))
    (seq a k) (groups, infos, next) = Returns (groups', infos', next') ->
  length groups' = length bestCollapse
  /\ Forall (fun g => (g < next')%N) groups'
  /\ length infos' = N.to_nat next'
  /\ (N.to_nat next' <= length bestCollapse)%nat.
Proof.
  revert a groups infos next.
  induction k as [| k IH]; intros a groups infos next Hak Hn Hlen HF Hdone Hnext Hinfos H.
  - simpl in H. injection H as <- <- <-. repeat split; try lia; try assumption.
    apply Forall_lookup. intros i g Hi.
    destruct (Hdone i) as (g' & Hg' & Hne).
    { apply lookup_lt_Some in Hi. lia. }
    rewrite Hi in Hg'. injection Hg' as <-.
    rewrite Forall_lookup in HF. destruct (HF i g Hi); [contradiction | assumption].
  - cbn [seq foldM] in H. apply obind_Returns in H as ([[groups1 infos1] next1] & Hbody & H).
    assert (Hstep : length groups1 = length bestCollapse
                    /\ Forall (fun g => g = not0u \/ (g < next1)%N) groups1
                    /\ (forall c, (c < Datatypes.S a)%nat -> Grouped groups1 c)
                    /\ (N.to_nat next1 <= Datatypes.S a)%nat
                    /\ length infos1 = N.to_nat next1).
    { apply obind_Returns in Hbody as (g & Hg & Hbody). apply at_nat_Returns in Hg.
      destruct (negb (g =? not0u)%N) eqn:Hgn.
      - injection Hbody as <- <- <-. repeat split; try assumption; try lia.
        intros c Hc. destruct (decide (c = a)) as [-> | Hca]; [| apply Hdone; lia].
        exists g. split; [exact Hg |]. apply negb_true_iff, N.eqb_neq in Hgn. exact Hgn.
      - apply obind_Returns in Hbody as (s & _ & Hbody).
        apply obind_Returns in Hbody as ([groups2 tail] & Htail & Hbody).
        apply obind_Returns in Hbody as ([groups3 head] & Hhead & Hbody).
        injection Hbody as <- <- <-.
        unfold not0u, size in Hn.
        assert (Hne : next <> not0u) by (unfold not0u; lia).
        assert (Hu : u32 (next + 1) = (next + 1)%N).
        { unfold u32. apply N.mod_small. lia. }
        rewrite Hu.
        pose proof (FollowGroup_length _ _ _ _ _ _ _ _ _ _ _ _ Hhead) as Hl3.
        pose proof (FollowGroup_length _ _ _ _ _ _ _ _ _ _ _ _ Htail) as Hl2.
        apply (FollowGroup_groups _ _ _ _ _ _ _ _ _ _ _ Hne) in Hhead as [Hh Hh'].
        apply (FollowGroup_groups _ _ _ _ _ _ _ _ _ _ _ Hne) in Htail as [Ht Ht'].
        split; [rewrite Hl3, Hl2, length_insert; exact Hlen |].
        split; [| split; [| split]].
        + eapply Forall_impl; [apply Hh, Ht, Forall_insert_le |].
          * eapply Forall_impl; [exact HF |]. simpl. intros x [-> | Hx]; [auto | right; lia].
          * simpl. intros x [-> | Hx]; [auto | right; lia].
        + intros c Hc. apply Hh', Ht'. destruct (decide (c = a)) as [-> | Hca].
          * apply Grouped_insert_eq; [exact Hne |]. eapply lookup_lt_Some, Hg.
          * apply Grouped_insert; [exact Hne |]. apply Hdone. lia.
        + lia.
        + rewrite length_app. simpl. lia. }
    destruct Hstep as (H1 & H2 & H3 & H4 & H5).
    apply (IH (Datatypes.S a) groups1 infos1 next1); try assumption. lia.
Qed.

(** X16.  The grouping of the collapses (lines 686-723) gives every
    collapse a group: [collapseGroups] has one entry for every collapse,
    each the number of a group, below [nextCollapseGroup] (none is left
    [~0u]); there is one CollapseGroupInfo for every group, and there are no
    more groups than collapses.  The number of collapses is taken to be
    below [~0u]. *)
Theorem every_collapse_gets_a_group edges (bestCollapse : list (Primitive * nat))
    collapseGroups collapseGroupInfos nextCollapseGroup :
  (size bestCollapse < not0u)%N ->
  GroupCollapses build edges bestCollapse
  = Returns (collapseGroups, collapseGroupInfos, nextCollapseGroup) ->
  length collapseGroups = length bestCollapse
  /\ Forall (fun g => (g < nextCollapseGroup)%N) collapseGroups
  /\ length collapseGroupInfos = N.to_nat nextCollapseGroup
  /\ (N.to_nat nextCollapseGroup <= length bestCollapse)%nat.
Proof.
  intros Hn H. unfold GroupCollapses in H.
  apply (GroupCollapses_loop edges bestCollapse (length bestCollapse) 0) in H;
    try assumption; try reflexivity; try lia.
  - apply length_replicate.
  - apply Forall_replicate. auto.
Qed.
End Groups.

(** *** The ends of the segments of the wavefront *)

Section Filter.
Context {S : Scalar}.
Variable build : Build.
Variable P : N -> Prop.
Local Open Scope prim_scope.

Ltac both_ends :=
  unfold BothEnds, set_head, set_tail in *; cbn [Segment._head Segment._tail] in *;
  rewrite ?Forall_app, ?Forall_cons, ?Forall_singleton in *;
  cbn [Segment._head Segment._tail] in *; intuition auto.

Lemma SplitColinear_keeps_the_ends result seg i2 closestC closestD newSeg seg' i2' :
  SplitColinear build result seg i2 closestC closestD = Returns (newSeg, seg', i2') ->
  BothEnds P seg -> BothEnds P i2 -> BothEnds P newSeg /\ BothEnds P seg' /\ BothEnds P i2'.
Proof.
  unfold SplitColinear. intros H Hs Hi.
  destruct (closestC <? P0), (closestD >? P1), (closestD <? P0), (closestC >? P1),
    (closestC <? closestD);
    apply obind_Returns in H as (u & _ & H); injection H as <- <- <-; both_ends.
Qed.

Lemma CompareAgainstFiltered_keeps_the_ends result todo :
  forall done seg A B segmentsToTest filtered seg' filterOutSeg segmentsToTest',
    CompareAgainstFiltered build result done todo seg A B segmentsToTest
    = Returns (filtered, seg', filterOutSeg, segmentsToTest') ->
    Forall (BothEnds P) done -> Forall (BothEnds P) todo -> BothEnds P seg ->
    Forall (BothEnds P) segmentsToTest ->
    Forall (BothEnds P) filtered /\ BothEnds P seg' /\ Forall (BothEnds P) segmentsToTest'.
Proof.
  induction todo as [| i2 rest IH];
    intros done seg A B stt filtered seg' out stt' H Hd Ht Hs Hstt.
  - simpl in H. injection H as <- <- <- <-. auto.
  - cbn [CompareAgainstFiltered] in H. apply Forall_cons in Ht as [Hi Hr].
    mdestruct H; simplify_eq.
    all: try (match goal with
              | Hsp : SplitColinear _ _ _ _ _ _ = Returns _ |- _ =>
                apply SplitColinear_keeps_the_ends in Hsp as (? & ? & ?); [| assumption | assumption]
              end).
    all: try (match goal with
              | Hc : CompareAgainstFiltered _ _ _ _ _ _ _ _ = Returns _ |- _ =>
                apply IH in Hc; [exact Hc | | | |]
              end).
    all: both_ends.
    all: repeat match goal with |- context [if ?c then _ else _] => destruct c end;
      cbn [Segment._head Segment._tail]; assumption.
Qed.

Lemma FilterSegments_keeps_the_ends fuel result :
  forall filteredSegments segmentsToTest filtered,
    FilterSegments build fuel result filteredSegments segmentsToTest = Returns filtered ->
    Forall (BothEnds P) filteredSegments -> Forall (BothEnds P) segmentsToTest ->
    Forall (BothEnds P) filtered.
Proof.
  induction fuel as [| fuel IH]; intros fs stt filtered H Hf Hs.
  - destruct stt; simpl in H; [injection H as <-; exact Hf | discriminate].
  - destruct stt as [| seg stt]; simpl in H; [injection H as <-; exact Hf |].
    apply Forall_cons in Hs as [Hseg Hs].
    apply obind_Returns in H as (A & _ & H).
    apply obind_Returns in H as (B & _ & H).
    apply obind_Returns in H as ([[[fs1 seg1] out] stt1] & Hc & H).
    apply CompareAgainstFiltered_keeps_the_ends in Hc as (H1 & H2 & H3); auto.
    apply IH in H; [exact H | | exact H3].
    destruct out; [exact H1 |]. apply Forall_app. split; [exact H1 |].
    apply Forall_singleton. exact H2.
Qed.
End Filter.

(** *** The vertices that the edges of the skeleton name *)

Section Names.
Context {S : Scalar}.
Variable build : Build.
Local Open Scope prim_scope.

Lemma land_flag_small (id : N) :
  (id < 2147483648)%N -> N.land id BoundaryVertexFlag = 0%N.
Proof.
  intros H. apply N.bits_inj_0. intros k. rewrite N.land_spec.
  change BoundaryVertexFlag with (2 ^ 31)%N. rewrite N.pow2_bits_eqb.
  destruct (N.eqb_spec 31 k) as [<- |]; [| apply andb_false_r].
  rewrite <- (N.mod_small id (2 ^ 31)) by exact H.
  rewrite N.mod_pow2_bits_high by lia. reflexivity.
Qed.

Lemma BoundaryVertex_names (n m v : N) :
  (v < n)%N -> NamesVertex n m (N.lor BoundaryVertexFlag (u32 v)).
Proof.
  intros H. left. split.
  - rewrite N.land_lor_distr_l. intros E. apply N.lor_eq_0_iff in E as [E _].
    vm_compute in E. discriminate.
  - rewrite N.land_lor_distr_l.
    change (N.lxor not0u BoundaryVertexFlag) with (N.ones 31).
    change (N.land BoundaryVertexFlag (N.ones 31)) with 0%N. rewrite N.lor_0_l.
    rewrite N.land_ones. unfold u32.
    eapply N.le_lt_trans; [| exact H].
    etransitivity; [apply N.Div0.mod_le |]. apply N.Div0.mod_le.
Qed.

Lemma Grows_refl sk : Grows sk sk.
Proof. split; reflexivity. Qed.

Lemma Grows_AddSteinerVertex sk0 sk v i sk' :
  AddSteinerVertex build sk v = Returns (i, sk') -> Grows sk0 sk -> Grows sk0 sk'.
Proof.
  intros H [H1 H2]. apply AddSteinerVertex_cases in H as (Hf & _ & [[-> _] | (Hs & _)]).
  - split; assumption.
  - split; [rewrite Hs, length_app; simpl; lia | rewrite Hf; exact H2].
Qed.

Lemma Grows_AddEdge sk0 sk h t l r ty sk' :
  AddEdge build sk h t l r ty = Returns sk' -> Grows sk0 sk -> Grows sk0 sk'.
Proof.
  intros H [H1 H2]. apply AddEdge_cases in H as (Hs & Hf & _).
  split; [rewrite Hs; exact H1 | rewrite Hf; exact H2].
Qed.

Lemma AddSteinerVertex_index sk v i sk' :
  AddSteinerVertex build sk v = Returns (i, sk') ->
  (i < size (StraightSkeleton._steinerVertices sk'))%N.
Proof.
  intros H. apply AddSteinerVertex_cases in H as (_ & _ & [[-> (k & w & -> & Hk & _)] | (Hs & -> & _)]).
  - apply lookup_lt_Some in Hk. unfold u32, size.
    eapply N.le_lt_trans; [apply N.Div0.mod_le | lia].
  - rewrite Hs. unfold u32, size. rewrite length_app. simpl.
    eapply N.le_lt_trans; [apply N.Div0.mod_le | lia].
Qed.

Section Named.
Variables n m : N.
Hypothesis Hm : (m <= 2147483648)%N.

Lemma Fits_Grows sk sk' : Grows sk sk' -> Fits m sk' -> Fits m sk.
Proof. unfold Grows, Fits, size. lia. Qed.

Lemma Fits_AddSteinerVertex sk v i sk' :
  AddSteinerVertex build sk v = Returns (i, sk') -> Fits m sk' -> Fits m sk.
Proof.
  intros H. apply Fits_Grows. exact (Grows_AddSteinerVertex _ _ _ _ _ H (Grows_refl sk)).
Qed.

Lemma Fits_AddEdge sk h t l r ty sk' :
  AddEdge build sk h t l r ty = Returns sk' -> Fits m sk' -> Fits m sk.
Proof.
  intros H. apply Fits_Grows. exact (Grows_AddEdge _ _ _ _ _ _ _ _ H (Grows_refl sk)).
Qed.

Lemma Fits_AddEdgeForVertexPath graph sk v final sk' :
  AddEdgeForVertexPath build graph sk v final = Returns sk' -> Fits m sk' -> Fits m sk.
Proof.
  intros H. apply Fits_Grows.
  exact (Inv_AddEdgeForVertexPath build (Grows sk) (Grows_AddSteinerVertex sk)
           (Grows_AddEdge sk) _ _ _ _ _ H (Grows_refl sk)).
Qed.

Lemma AddSteinerVertex_named sk v i sk' :
  AddSteinerVertex build sk v = Returns (i, sk') -> Fits m sk' ->
  NamesVertex n m i /\ (EdgesNamed n m sk -> EdgesNamed n m sk').
Proof.
  intros H Hf. split.
  - apply AddSteinerVertex_index in H. unfold Fits in Hf. right. split; [| lia].
    apply land_flag_small. lia.
  - unfold EdgesNamed, EdgeKeys. rewrite (AllEdges_AddSteinerVertex _ _ _ _ _ H). auto.
Qed.

Lemma AddEdge_named sk h t l r ty sk' :
  AddEdge build sk h t l r ty = Returns sk' ->
  NamesVertex n m h -> NamesVertex n m t -> EdgesNamed n m sk -> EdgesNamed n m sk'.
Proof.
  intros H Hh Ht He. apply AddEdge_cases in H as (_ & _ & [[_ ->] | [_ Hk]]); [exact He |].
  intros k Hin. apply Hk in Hin as [Hin | [-> | ->]]; [apply He, Hin | |]; simpl; auto.
Qed.

Lemma Fits_CrashOutSide graph sk motor seg crashPt crashPtSkeleton time graph' sk' :
  CrashOutSide build graph sk motor seg crashPt crashPtSkeleton time
  = Returns (graph', sk') -> Fits m sk' -> Fits m sk.
Proof.
  intros H. apply Fits_Grows.
  exact (Inv_CrashOutSide build (Grows sk) (Grows_AddSteinerVertex sk)
           (Grows_AddEdge sk) _ _ _ _ _ _ _ _ _ H (Grows_refl sk)).
Qed.

Lemma Fits_CrashInSide graph sk motor seg crashPt crashPtSkeleton time graph' sk' :
  CrashInSide build graph sk motor seg crashPt crashPtSkeleton time
  = Returns (graph', sk') -> Fits m sk' -> Fits m sk.
Proof.
  intros H. apply Fits_Grows.
  exact (Inv_CrashInSide build (Grows sk) (Grows_AddSteinerVertex sk)
           (Grows_AddEdge sk) _ _ _ _ _ _ _ _ _ H (Grows_refl sk)).
Qed.

Lemma Fits_CollapseOneGroup graph sk bestCollapse time groups group graph' sk' new :
  CollapseOneGroup build graph sk bestCollapse time groups group
  = Returns (graph', sk', new) -> Fits m sk' -> Fits m sk.
Proof.
  intros H. apply Fits_Grows.
  exact (Inv_CollapseOneGroup build (Grows sk) (Grows_AddSteinerVertex sk)
           (Grows_AddEdge sk) _ _ _ _ _ _ _ _ _ H (Grows_refl sk)).
Qed.

Ltac fits :=
  first
    [ assumption
    | match goal with
      | H : AddSteinerVertex _ ?a _ = Returns (_, _) |- Fits m ?a =>
        apply (Fits_AddSteinerVertex _ _ _ _ H); fits
      | H : AddEdge _ ?a _ _ _ _ _ = Returns _ |- Fits m ?a =>
        apply (Fits_AddEdge _ _ _ _ _ _ _ H); fits
      | H : AddEdgeForVertexPath _ _ ?a _ _ = Returns _ |- Fits m ?a =>
        apply (Fits_AddEdgeForVertexPath _ _ _ _ _ H); fits
      | H : CrashOutSide _ _ ?a _ _ _ _ _ = Returns _ |- Fits m ?a =>
        apply (Fits_CrashOutSide _ _ _ _ _ _ _ _ _ H); fits
      | H : CrashInSide _ _ ?a _ _ _ _ _ = Returns _ |- Fits m ?a =>
        apply (Fits_CrashInSide _ _ _ _ _ _ _ _ _ H); fits
      | H : CollapseOneGroup _ _ ?a _ _ _ _ = Returns _ |- Fits m ?a =>
        apply (Fits_CollapseOneGroup _ _ _ _ _ _ _ _ _ H); fits
      end ].

Ltac names :=
  first
    [ assumption
    | match goal with
      | H : AddSteinerVertex _ _ _ = Returns (?i, ?b) |- NamesVertex _ _ ?i =>
        apply (AddSteinerVertex_named _ _ _ _ H); fits
      end ].

Lemma at_named (vs : list (Vertex.t Primitive)) i vert :
  at_ vs i = Returns vert -> VertsNamed n m vs ->
  (Vertex._skeletonVertexId vert =? not0u)%N = false ->
  NamesVertex n m (Vertex._skeletonVertexId vert).
Proof.
  intros H Hv Hne. apply at_Returns in H. apply N.eqb_neq in Hne.
  unfold VertsNamed in Hv. rewrite Forall_lookup in Hv.
  destruct (Hv _ _ H); [contradiction | assumption].
Qed.

Lemma AddEdgeForVertexPath_named graph sk v final sk' :
  AddEdgeForVertexPath build graph sk v final = Returns sk' -> Fits m sk' ->
  VertsNamed n m (Graph._vertices graph) -> NamesVertex n m final ->
  EdgesNamed n m sk -> EdgesNamed n m sk'.
Proof.
  unfold AddEdgeForVertexPath. intros H Hf Hv Hfin He.
  apply obind_Returns in H as (vert & Hvert & H).
  apply obind_Returns in H as (inAndOut & _ & H).
  apply obind_Returns in H as (leftFace & _ & H).
  apply obind_Returns in H as (rightFace & _ & H).
  destruct (negb (Vertex._skeletonVertexId vert =? not0u)%N) eqn:Hid.
  - apply negb_true_iff in Hid. pose proof (at_named _ _ _ Hvert Hv Hid) as Hn.
    apply obind_Returns in H as (dst & H1 & H).
    apply (AddEdge_named _ _ _ _ _ _ _ H); [exact Hfin | exact Hn |].
    mdestruct H1; simplify_eq; [| exact He].
    eapply AddEdge_named; eauto.
  - apply obind_Returns in H as ([steiner dst] & H1 & H).
    apply (AddEdge_named _ _ _ _ _ _ _ H); [exact Hfin | names |].
    apply (AddSteinerVertex_named _ _ _ _ H1); [fits | exact He].
Qed.

Ltac verts :=
  first
    [ assumption
    | match goal with
      | |- VertsNamed n m (Graph._vertices (with_wavefrontEdges _ _)) => cbn [with_wavefrontEdges Graph._vertices]; verts
      | |- VertsNamed n m (Graph._vertices (with_vertices _ _)) => cbn [with_vertices Graph._vertices]; verts
      | |- VertsNamed n m (Graph._vertices (with_motorcycleSegments _ _)) => cbn [with_motorcycleSegments Graph._vertices]; verts
      end ].

Ltac edges_named :=
  first
    [ assumption
    | match goal with
      | H : AddEdge _ _ _ _ _ _ _ = Returns ?b |- EdgesNamed n m ?b =>
        apply (AddEdge_named _ _ _ _ _ _ _ H); [names | names | edges_named]
      | H : AddSteinerVertex _ _ _ = Returns (_, ?b) |- EdgesNamed n m ?b =>
        apply (AddSteinerVertex_named _ _ _ _ H); [fits | edges_named]
      | H : AddEdgeForVertexPath _ _ _ _ _ = Returns ?b |- EdgesNamed n m ?b =>
        apply (AddEdgeForVertexPath_named _ _ _ _ _ H); [fits | verts | names | edges_named]
      end ].

Lemma VertsNamed_snoc vs p id t vel :
  VertsNamed n m vs -> NamesVertex n m id -> VertsNamed n m (vs ++ [Vertex.mk p id t vel]).
Proof.
  intros Hv Hn. apply Forall_app. split; [exact Hv |]. apply Forall_singleton. right. exact Hn.
Qed.

Lemma CrashOutSide_named graph sk motor seg crashPt crashPtSkeleton time graph' sk' :
  CrashOutSide build graph sk motor seg crashPt crashPtSkeleton time
  = Returns (graph', sk') ->
  Fits m sk' -> VertsNamed n m (Graph._vertices graph) -> NamesVertex n m crashPtSkeleton ->
  EdgesNamed n m sk ->
  EdgesNamed n m sk' /\ VertsNamed n m (Graph._vertices graph').
Proof.
  unfold CrashOutSide. intros H Hf Hv Hc He. mdestruct H; simplify_eq.
  - split; [edges_named | verts].
  - split; [edges_named |]. cbn [with_wavefrontEdges with_vertices Graph._vertices].
    apply VertsNamed_snoc; assumption.
Qed.

Lemma CrashInSide_named graph sk motor seg crashPt crashPtSkeleton time graph' sk' :
  CrashInSide build graph sk motor seg crashPt crashPtSkeleton time
  = Returns (graph', sk') ->
  Fits m sk' -> VertsNamed n m (Graph._vertices graph) -> NamesVertex n m crashPtSkeleton ->
  EdgesNamed n m sk ->
  EdgesNamed n m sk' /\ VertsNamed n m (Graph._vertices graph').
Proof.
  unfold CrashInSide. intros H Hf Hv Hc He. mdestruct H; simplify_eq.
  - split; [edges_named | verts].
  - split; [edges_named |]. cbn [with_wavefrontEdges with_vertices Graph._vertices].
    apply VertsNamed_snoc; assumption.
Qed.

Hypothesis Hd : NDEBUG build = false.

Lemma FreezeInPlace_id v t v' :
  FreezeInPlace build v t = Returns v' -> Vertex._skeletonVertexId v' = not0u.
Proof. unfold FreezeInPlace. intros H. mdestruct H. subst v'. reflexivity. Qed.

Lemma VertsNamed_set_at vs i v vs' :
  set_at vs i v = Returns vs' -> Vertex._skeletonVertexId v = not0u ->
  VertsNamed n m vs -> VertsNamed n m vs'.
Proof.
  intros H Hid Hv. apply set_at_Returns in H as [-> Hi].
  apply Forall_insert; [exact Hv | left; exact Hid].
Qed.

Lemma ProcessMotorcycleCrash_named graph sk crashes best graph' sk' time :
  ProcessMotorcycleCrash build graph sk crashes best = Returns (graph', sk', time) ->
  Fits m sk' -> VertsNamed n m (Graph._vertices graph) -> EdgesNamed n m sk ->
  EdgesNamed n m sk' /\ VertsNamed n m (Graph._vertices graph').
Proof.
  unfold ProcessMotorcycleCrash. intros H Hf Hv He. mdestruct H; simplify_eq.
  cbn [with_wavefrontEdges with_vertices with_motorcycleSegments Graph._vertices] in *.
  match goal with
  | Ho : CrashOutSide _ _ ?t _ _ _ ?c _ = Returns (?g1, ?t1),
    Hi : CrashInSide _ _ _ _ _ _ _ _ = Returns (?g2, ?t3) |- _ =>
    assert (Hc : NamesVertex n m c) by names;
    assert (Ht : EdgesNamed n m t) by edges_named;
    destruct (CrashOutSide_named _ _ _ _ _ _ _ _ _ Ho ltac:(fits) Hv Hc Ht) as [He1 Hv1];
    destruct (CrashInSide_named _ _ _ _ _ _ _ _ _ Hi ltac:(fits) Hv1 Hc He1) as [He3 Hv3]
  end.
  split.
  - match goal with
    | Ha : assert_ _ 657 _ = Returns _, Hat : at_ _ _ = Returns ?v |- _ =>
      apply assert_Returns_true in Ha; [| exact Hd]; apply negb_true_iff in Ha;
      pose proof (at_named _ _ _ Hat Hv3 Ha)
    end.
    edges_named.
  - match goal with
    | Hs : set_at _ _ _ = Returns _, Hz : FreezeInPlace _ _ _ = Returns _ |- _ =>
      exact (VertsNamed_set_at _ _ _ _ Hs (FreezeInPlace_id _ _ _ Hz) Hv3)
    end.
Qed.

Lemma CollapseOneGroup_named graph sk bestCollapse time groups group graph' sk' new :
  CollapseOneGroup build graph sk bestCollapse time groups group
  = Returns (graph', sk', new) ->
  Fits m sk' -> VertsNamed n m (Graph._vertices graph) -> EdgesNamed n m sk ->
  EdgesNamed n m sk' /\ VertsNamed n m (Graph._vertices graph').
Proof.
  unfold CollapseOneGroup. intros H Hf Hv He.
  apply obind_Returns in H as (members & _ & H).
  apply obind_Returns in H as ([collisionPt contributors] & _ & H).
  apply obind_Returns in H as (u & _ & H).
  apply obind_Returns in H as ([collisionVertId result] & Hs & H).
  apply obind_Returns in H as ([result1 vertices] & Hfold & H).
  injection H as <- <- <-.
  cbn [with_vertices Graph._vertices].
  assert (Hg : Grows result result1).
  { apply (foldM_preserves (fun st => Grows result st.1)) in Hfold;
      [exact Hfold | | apply Grows_refl].
    intros [r vs] seg [r' vs'] Hr Hb. simpl in *. mdestruct Hb; simplify_eq.
    pose proof (Inv_AddEdgeForVertexPath build (Grows result)
                  (Grows_AddSteinerVertex result) (Grows_AddEdge result)) as Hstep.
    eauto. }
  assert (Hfr : Fits m result) by exact (Fits_Grows _ _ Hg Hf).
  assert (Hc : NamesVertex n m collisionVertId) by names.
  assert (Hres : Fits m result1 -> EdgesNamed n m result1 /\ VertsNamed n m vertices).
  2:{ destruct (Hres Hf) as [He' Hv']. split; [exact He' |].
      apply VertsNamed_snoc; assumption. }
  refine (foldM_preserves (fun st => Fits m st.1 -> EdgesNamed n m st.1 /\ VertsNamed n m st.2)
            _ _ _ _ _ _ Hfold).
  - intros [r vs] seg [r' vs'] Hr Hb Hf'. simpl in *. mdestruct Hb; simplify_eq.
    destruct Hr as [Her Hvr]; [fits |].
    split; [edges_named |].
    repeat match goal with
           | Hs : set_at _ _ _ = Returns ?x, Hz : FreezeInPlace _ _ _ = Returns _ |- VertsNamed n m ?x =>
             apply (VertsNamed_set_at _ _ _ _ Hs (FreezeInPlace_id _ _ _ Hz))
           end.
    exact Hvr.
  - simpl. intros _. split; [edges_named | exact Hv].
Qed.

Lemma RelinkGroup_named graph group graph' :
  RelinkGroup build graph group = Returns graph' ->
  VertsNamed n m (Graph._vertices graph) -> VertsNamed n m (Graph._vertices graph').
Proof.
  unfold RelinkGroup. intros H Hv. mdestruct H; simplify_eq; [exact Hv |].
  cbn [with_wavefrontEdges with_vertices Graph._vertices].
  match goal with
  | Hs : set_at _ _ _ = Returns _, Hat : at_ _ (CollapseGroupInfo._newVertex _) = Returns ?new |- _ =>
    apply set_at_Returns in Hs as [-> _]; apply at_Returns in Hat;
    apply Forall_insert; [exact Hv |];
    unfold VertsNamed in Hv; rewrite Forall_lookup in Hv; exact (Hv _ _ Hat)
  end.
Qed.

Lemma ProcessCollapses_named graph sk bestCollapse time graph' sk' :
  ProcessCollapses build graph sk bestCollapse time = Returns (graph', sk') ->
  Fits m sk' -> VertsNamed n m (Graph._vertices graph) -> EdgesNamed n m sk ->
  EdgesNamed n m sk' /\ VertsNamed n m (Graph._vertices graph').
Proof.
  unfold ProcessCollapses. intros H Hf Hv He.
  apply obind_Returns in H as ([[collapseGroups infos] next] & _ & H).
  apply obind_Returns in H as ([[graph1 result] infos1] & Hfold & H).
  apply obind_Returns in H as (edges & _ & H).
  apply obind_Returns in H as (graph2 & Hrelink & H).
  injection H as <- <-.
  assert (Hres : Fits m result -> EdgesNamed n m result /\ VertsNamed n m (Graph._vertices graph1)).
  2:{ destruct (Hres Hf) as [He' Hv']. simpl in *. split; [exact He' |].
      apply (foldM_preserves (fun g => VertsNamed n m (Graph._vertices g))) in Hrelink;
        [exact Hrelink | | exact Hv'].
      intros g info g' Hg Hr. exact (RelinkGroup_named _ _ _ Hr Hg). }
  refine (foldM_preserves
            (fun st => Fits m st.1.2 -> EdgesNamed n m st.1.2 /\ VertsNamed n m (Graph._vertices st.1.1))
            _ _ _ _ _ _ Hfold).
  - intros [[g r] i] group [[g' r'] i'] Hr Hb Hf'. simpl in *. mdestruct Hb; simplify_eq.
    destruct Hr as [Her Hvr]; [fits |].
    eapply CollapseOneGroup_named; eauto.
  - simpl. auto.
Qed.

Lemma Iteration_named maxTime s s' :
  Iteration build maxTime s = Returns (Some s') ->
  Fits m (result_ s') -> VertsNamed n m (Graph._vertices (graph_ s)) -> EdgesNamed n m (result_ s) ->
  EdgesNamed n m (result_ s') /\ VertsNamed n m (Graph._vertices (graph_ s')).
Proof.
  unfold Iteration. intros H Hf Hv He. mdestruct H; simplify_eq; simpl in *.
  - eapply ProcessMotorcycleCrash_named; eauto.
  - eapply ProcessCollapses_named; eauto.
Qed.

Lemma EventLoop_named fuel maxTime s s' :
  EventLoop build fuel maxTime s = Returns s' ->
  Fits m (result_ s') -> VertsNamed n m (Graph._vertices (graph_ s)) -> EdgesNamed n m (result_ s) ->
  EdgesNamed n m (result_ s') /\ VertsNamed n m (Graph._vertices (graph_ s')).
Proof.
  revert s. induction fuel as [| fuel IH]; intros s H Hf Hv He; [discriminate |].
  simpl in H. apply obind_Returns in H as ([s1 |] & H1 & H).
  - assert (Hf1 : Fits m (result_ s1)).
    { apply Fits_Grows with (sk' := result_ s'); [| exact Hf].
      exact (Inv_EventLoop build (Grows (result_ s1)) (Grows_AddSteinerVertex (result_ s1))
               (Grows_AddEdge (result_ s1)) _ _ _ _ H (Grows_refl _)). }
    destruct (Iteration_named _ _ _ H1 Hf1 Hv He) as [He1 Hv1].
    exact (IH _ H Hf Hv1 He1).
  - injection H as <-. auto.
Qed.

Lemma WriteWavefront_named fuel graph sk time sk' :
  WriteWavefront build fuel graph sk time = Returns sk' ->
  Fits m sk' -> VertsNamed n m (Graph._vertices graph) -> EdgesNamed n m sk -> EdgesNamed n m sk'.
Proof.
  unfold WriteWavefront. intros H Hf Hv He.
  apply obind_Returns in H as ([r1 stt] & H1 & H).
  apply obind_Returns in H as (filtered & H2 & H).
  apply obind_Returns in H as (r3 & H3 & H4).
  assert (G4 : Grows r3 sk').
  { refine (foldM_preserves (Grows r3) _ _ _ _ _ (Grows_refl r3) H4).
    intros r seg r' Hr Hb.
    refine (foldM_preserves (Grows r3) _ _ _ _ _ Hr Hb).
    intros x v x' Hx Hb'. mdestruct Hb'; simplify_eq.
    pose proof (Inv_AddEdgeForVertexPath build (Grows r3)
                  (Grows_AddSteinerVertex r3) (Grows_AddEdge r3)) as Hstep.
    eauto using Grows_AddSteinerVertex. }
  assert (G3 : Grows r1 r3).
  { refine (foldM_preserves (Grows r1) _ _ _ _ _ (Grows_refl r1) H3).
    intros r seg r' Hr Hb. mdestruct Hb. eauto using Grows_AddEdge. }
  assert (Hf3 : Fits m r3) by exact (Fits_Grows _ _ G4 Hf).
  assert (Hf1 : Fits m r1) by exact (Fits_Grows _ _ G3 Hf3).
  assert (Hres1 : Fits m r1 -> EdgesNamed n m r1 /\ Forall (BothEnds (NamesVertex n m)) stt).
  { refine (foldM_preserves
              (fun st => Fits m st.1 -> EdgesNamed n m st.1 /\ Forall (BothEnds (NamesVertex n m)) st.2)
              _ _ _ _ _ _ H1).
    - intros [r st] seg [r' st'] Hr Hb Hf'. simpl in *. mdestruct Hb; simplify_eq.
      + destruct Hr as [Her Hst]; [fits |]. split; [edges_named |].
        apply Forall_cons. split; [| exact Hst]. split; simpl; names.
      + destruct Hr as [Her Hst]; [fits |]. split; [edges_named | exact Hst].
    - simpl. intros _. split; [exact He | constructor]. }
  destruct (Hres1 Hf1) as [He1 Hstt].
  assert (Hfil : Forall (BothEnds (NamesVertex n m)) filtered).
  { exact (FilterSegments_keeps_the_ends build _ _ _ _ _ _ H2 (Forall_nil_2 _) Hstt). }
  assert (Hres3 : Fits m r3 -> EdgesNamed n m r3).
  { refine (foldM_preserves_elem (fun r => Fits m r -> EdgesNamed n m r) _ _ _ _ _ _ H3).
    - intros r seg r' Hin Hr Hb Hf'. mdestruct Hb.
      rewrite Forall_forall in Hfil. destruct (Hfil _ Hin) as [Hh Ht].
      eapply AddEdge_named; [exact Hb | exact Hh | exact Ht |]. apply Hr. fits.
    - intros _. exact He1. }
  refine (foldM_preserves (fun r => Fits m r -> EdgesNamed n m r) _ _ _ _ _ Hres3 H4 Hf).
  intros r seg r' Hr Hb.
  refine (foldM_preserves (fun r => Fits m r -> EdgesNamed n m r) _ _ _ _ _ Hr Hb).
  intros x v x' Hx Hb' Hf'. mdestruct Hb'; simplify_eq.
  assert (EdgesNamed n m x) by (apply Hx; fits). edges_named.
Qed.

Lemma Builder_named vertices graph :
  BuildGraphFromVertexLoop build vertices = Returns graph ->
  (size vertices <= n)%N -> VertsNamed n m (Graph._vertices graph).
Proof.
  unfold BuildGraphFromVertexLoop. intros H Hn.
  apply obind_Returns in H as (u & _ & H).
  apply obind_Returns in H as ([edges verts] & H1 & H).
  apply obind_Returns in H as ([verts' ms] & H2 & H).
  injection H as <-. simpl.
  refine (foldM_preserves_elem (fun st => VertsNamed n m st.1) _ _ _ _ _ _ H2).
  - intros [vs mo] v [vs' mo'] Hin Hs Hb. simpl in *. unfold BuildMotorcycle in Hb.
    mdestruct Hb; simplify_eq; [| exact Hs].
    apply VertsNamed_snoc; [exact Hs |]. apply BoundaryVertex_names. apply elem_of_indices in Hin. lia.
  - simpl.
    refine (foldM_preserves_elem (fun st => VertsNamed n m st.2) _ _ _ _ _ _ H1).
    + intros [es vs] v [es' vs'] Hin Hs Hb. simpl in *. unfold BuildEdgeAndVertex in Hb.
      mdestruct Hb; simplify_eq.
      apply VertsNamed_snoc; [exact Hs |]. apply BoundaryVertex_names. apply elem_of_indices in Hin. lia.
    + constructor.
Qed.

Lemma CalculateStraightSkeleton_named fuel vertices maxInset sk :
  CalculateStraightSkeleton build fuel vertices maxInset = Returns sk ->
  (size vertices <= n)%N -> Fits m sk -> EdgesNamed n m sk.
Proof.
  unfold CalculateStraightSkeleton, CalculateSkeleton. intros H Hn Hf.
  apply obind_Returns in H as (graph & Hb & H).
  apply obind_Returns in H as (s & Hloop & H).
  pose proof (Builder_named _ _ Hb Hn) as Hv.
  assert (Hfs : Fits m (result_ s)).
  { apply Fits_Grows with (sk' := sk); [| exact Hf].
    exact (Inv_WriteWavefront build (Grows (result_ s)) (Grows_AddSteinerVertex (result_ s))
             (Grows_AddEdge (result_ s)) _ _ _ _ _ H (Grows_refl _)). }
  apply EventLoop_named in Hloop as [He Hv']; [| exact Hfs | exact Hv |].
  - exact (WriteWavefront_named _ _ _ _ _ H Hf Hv' He).
  - intros k Hin. simpl in Hin. unfold EdgeKeys, AllEdges in Hin. simpl in Hin.
    rewrite app_nil_r in Hin. apply list_elem_of_fmap in Hin as (e & _ & Hin).
    apply list_elem_of_In, in_concat in Hin as (l & Hl & Hin).
    apply list_elem_of_In, list_elem_of_fmap in Hl as (f & -> & Hfa).
    apply elem_of_replicate in Hfa as [-> _]. destruct Hin.
Qed.
End Named.

(** X17.  In a build with assertions both ends of every edge of the
    skeleton that CalculateStraightSkeleton returns name a vertex: an input
    vertex, with BoundaryVertexFlag set and its position among the input
    vertices in the other bits, or a Steiner vertex of the skeleton, by its
    position, with the flag clear.  The skeleton is taken to have at most
    2^31 Steiner vertices, so that a position does not reach the flag. *)
Theorem skeleton_edges_name_vertices fuel vertices maxInset sk :
  NDEBUG build = false ->
  CalculateStraightSkeleton build fuel vertices maxInset = Returns sk ->
  (size (StraightSkeleton._steinerVertices sk) <= 2147483648)%N ->
  Forall (fun e =>
            NamesVertex (size vertices) (size (StraightSkeleton._steinerVertices sk))
              (Edge._head e)
            /\ NamesVertex (size vertices) (size (StraightSkeleton._steinerVertices sk))
                 (Edge._tail e))
    (AllEdges sk).
Proof.
  intros Hd H Hm.
  pose proof (CalculateStraightSkeleton_named (size vertices)
                (size (StraightSkeleton._steinerVertices sk)) Hm Hd _ _ _ _ H (N.le_refl _)
                (N.le_refl _)) as He.
  apply Forall_forall. intros e Hin.
  apply (He (EdgeKey e)). unfold EdgeKeys. apply list_elem_of_fmap. eauto.
Qed.
End Names.

(** *** Adding an edge again *)

Section Again.
Context {S : Scalar}.
Variable build : Build.
Local Open Scope prim_scope.

Lemma find_if_app_first {A} (p : A -> bool) (l l' : list A) (i : nat) :
  find_if p l = Some i -> find_if p (l ++ l') = Some i.
Proof.
  revert i. induction l as [| x l IH]; intros i H; simpl in *; [discriminate |].
  destruct (p x); [exact H |].
  destruct (find_if p l) as [j |]; [| discriminate]. rewrite (IH j eq_refl). exact H.
Qed.

Lemma AddUnique_again dst edge dst' :
  AddUnique build dst edge = Returns dst' -> AddUnique build dst' edge = Returns dst'.
Proof.
  intros H. pose proof H as H'. unfold AddUnique in H |- *.
  destruct (find_if _ dst) as [k |] eqn:E.
  - assert (dst' = dst) as -> by (mdestruct H; congruence).
    rewrite E. exact H.
  - injection H as <-. apply find_if_None in E.
    rewrite (find_if_app_last _ _ _ E) by (simpl; rewrite !N.eqb_refl; reflexivity).
    unfold at_nat. rewrite lookup_app_r, Nat.sub_diag by lia. simpl.
    rewrite bool_decide_eq_true_2 by reflexivity. rewrite assert_pass. reflexivity.
Qed.

Lemma AddUnique_kept_after dst edge other dst' :
  AddUnique build dst edge = Returns dst ->
  AddUnique build dst other = Returns dst' ->
  AddUnique build dst' edge = Returns dst'.
Proof.
  intros Hk Ho. apply AddUnique_cases in Ho as [[-> _] | [-> _]]; [| exact Hk].
  unfold AddUnique in Hk |- *.
  destruct (find_if _ dst) as [k |] eqn:E.
  - rewrite (find_if_app_first _ _ _ _ E).
    apply find_if_Some in E as (x & Hx & _).
    unfold at_nat in Hk |- *. rewrite lookup_app_l by (eapply lookup_lt_Some, Hx).
    rewrite Hx in Hk |- *. simpl in Hk |- *.
    destruct (assert_ build 422 _); simpl in Hk |- *; congruence.
  - injection Hk as Hk. apply (f_equal length) in Hk. rewrite length_app in Hk.
    simpl in Hk. lia.
Qed.

Lemma AddUnique_face_kept sk face edge :
  AddUnique_face build sk face edge = Returns sk <->
  exists f, StraightSkeleton._faces sk !! N.to_nat face = Some f
            /\ AddUnique build (Face._edges f) edge = Returns (Face._edges f).
Proof.
  unfold AddUnique_face. split.
  - intros H. apply obind_Returns in H as (f & Hf & H).
    apply obind_Returns in H as (edges & Hadd & H). apply at_Returns in Hf.
    exists f. split; [exact Hf |].
    injection H as H. apply (f_equal StraightSkeleton._faces) in H. simpl in H.
    apply (f_equal (fun l => l !! N.to_nat face)) in H.
    rewrite list_lookup_insert_eq in H by (eapply lookup_lt_Some, Hf).
    rewrite Hf in H. injection H as <-. exact Hadd.
  - intros (f & Hf & Hadd). apply at_Returns in Hf as Hat. rewrite Hat. simpl.
    rewrite Hadd. simpl. f_equal. destruct sk as [st fs un]. simpl in *. f_equal.
    destruct f. apply list_insert_id. exact Hf.
Qed.

Lemma AddUnique_unplaced_kept sk edge :
  AddUnique_unplaced build sk edge = Returns sk <->
  AddUnique build (StraightSkeleton._unplacedEdges sk) edge
  = Returns (StraightSkeleton._unplacedEdges sk).
Proof.
  unfold AddUnique_unplaced. split.
  - intros H. apply obind_Returns in H as (edges & Hadd & H).
    injection H as H. apply (f_equal StraightSkeleton._unplacedEdges) in H. simpl in H.
    subst edges. exact Hadd.
  - intros ->. simpl. destruct sk; reflexivity.
Qed.

(** [AddUnique] into the edge list of a face or, with [~0u] for the face,
    into the unplaced edges: the two cases of lines 433-437 and 438-440. *)
Lemma AddUnique_either_again sk face edge sk' :
  (if negb (face =? not0u)%N then AddUnique_face build sk face edge
   else AddUnique_unplaced build sk edge) = Returns sk' ->
  (if negb (face =? not0u)%N then AddUnique_face build sk' face edge
   else AddUnique_unplaced build sk' edge) = Returns sk'.
Proof.
  destruct (negb _); intros H.
  - apply AddUnique_face_kept. unfold AddUnique_face in H.
    apply obind_Returns in H as (f & Hf & H).
    apply obind_Returns in H as (edges & Hadd & H). injection H as <-. simpl.
    apply at_Returns in Hf. exists (Face.mk edges). split.
    + apply list_lookup_insert_eq. eapply lookup_lt_Some, Hf.
    + simpl. exact (AddUnique_again _ _ _ Hadd).
  - apply AddUnique_unplaced_kept. unfold AddUnique_unplaced in H.
    apply obind_Returns in H as (edges & Hadd & H). injection H as <-. simpl.
    exact (AddUnique_again _ _ _ Hadd).
Qed.

Lemma AddUnique_either_kept_after sk face edge face' other sk' :
  (if negb (face =? not0u)%N then AddUnique_face build sk face edge
   else AddUnique_unplaced build sk edge) = Returns sk ->
  (if negb (face' =? not0u)%N then AddUnique_face build sk face' other
   else AddUnique_unplaced build sk other) = Returns sk' ->
  (if negb (face =? not0u)%N then AddUnique_face build sk' face edge
   else AddUnique_unplaced build sk' edge) = Returns sk'.
Proof.
  intros Hk Ho.
  assert (Hsk' : (exists f edges, StraightSkeleton._faces sk !! N.to_nat face' = Some f
                    /\ AddUnique build (Face._edges f) other = Returns edges
                    /\ sk' = StraightSkeleton.mk (StraightSkeleton._steinerVertices sk)
                               (<[N.to_nat face' := Face.mk edges]>
                                  (StraightSkeleton._faces sk))
                               (StraightSkeleton._unplacedEdges sk))
                 \/ (exists edges, AddUnique build (StraightSkeleton._unplacedEdges sk) other
                                   = Returns edges
                      /\ sk' = StraightSkeleton.mk (StraightSkeleton._steinerVertices sk)
                                 (StraightSkeleton._faces sk) edges)).
  { destruct (negb (face' =? not0u)%N); [left | right].
    - unfold AddUnique_face in Ho. apply obind_Returns in Ho as (f & Hf & Ho).
      apply obind_Returns in Ho as (edges & Hadd & Ho). injection Ho as <-.
      apply at_Returns in Hf. eauto.
    - unfold AddUnique_unplaced in Ho. apply obind_Returns in Ho as (edges & Hadd & Ho).
      injection Ho as <-. eauto. }
  clear Ho. destruct (negb (face =? not0u)%N).
  - apply AddUnique_face_kept in Hk as (f & Hf & Hadd). apply AddUnique_face_kept.
    destruct Hsk' as [(f' & edges & Hf' & Hadd' & ->) | (edges & Hadd' & ->)]; simpl.
    + destruct (decide (N.to_nat face' = N.to_nat face)) as [Heq | Hne].
      * rewrite Heq in *. rewrite Hf in Hf'. injection Hf' as <-.
        exists (Face.mk edges). split.
        -- apply list_lookup_insert_eq. eapply lookup_lt_Some, Hf.
        -- simpl. exact (AddUnique_kept_after _ _ _ _ Hadd Hadd').
      * exists f. split; [| exact Hadd]. rewrite list_lookup_insert_ne by exact Hne.
        exact Hf.
    + eauto.
  - apply AddUnique_unplaced_kept in Hk. apply AddUnique_unplaced_kept.
    destruct Hsk' as [(f' & edges & Hf' & Hadd' & ->) | (edges & Hadd' & ->)]; simpl.
    + exact Hk.
    + exact (AddUnique_kept_after _ _ _ _ Hk Hadd').
Qed.

(** X18.  AddEdge is idempotent: asked again for the edge that it has
    just added, with the same faces and the same type, it returns the
    skeleton unchanged. *)
Theorem AddEdge_again (sk : StraightSkeleton.t Primitive) h t l r type sk' :
  AddEdge build sk h t l r type = Returns sk' ->
  AddEdge build sk' h t l r type = Returns sk'.
Proof.
  unfold AddEdge. intros H. destruct (h =? t)%N; [congruence |].
  apply obind_Returns in H as (sk1 & H1 & H2).
  pose proof (AddUnique_either_again _ _ _ _ H1) as K1.
  pose proof (AddUnique_either_kept_after _ _ _ _ _ _ K1 H2) as K1'.
  pose proof (AddUnique_either_again _ _ _ _ H2) as K2.
  rewrite K1'. simpl. exact K2.
Qed.
End Again.

(** *** The loops of the wavefront *)

Section WavefrontLoops.
Context {S : Scalar}.
Variable build : Build.
Local Open Scope prim_scope.

(** X19.  The loops that WavefrontAsVertexLoops returns walk the
    Wavefront edges of the faces: a loop has at least two vertices, and
    from each of its vertices to the next there is an edge of type
    Wavefront, with that head and that tail, in the edge list of a face.
    A skeleton whose faces hold no Wavefront edge gives no loop. *)
Theorem wavefront_loops_walk_wavefront_edges (sk : StraightSkeleton.t Primitive)
    (loops : list (list N)) :
  WavefrontAsVertexLoops build sk = Returns loops ->
  Forall (fun loop =>
            (2 <= length loop)%nat
            /\ forall seg, seg ∈ PathSegments loop ->
                 exists f, f ∈ StraightSkeleton._faces sk
                           /\ Edge.mk seg.1 seg.2 Wavefront ∈ Face._edges f) loops
  /\ (Forall (fun f => Forall (fun e => Edge._type e <> Wavefront) (Face._edges f))
        (StraightSkeleton._faces sk) -> loops = []).
Proof.
  unfold WavefrontAsVertexLoops, AsVertexLoopsOrdered. intros H.
  apply CollectLoops_uses_the_pool in H as (new & closing & -> & Hclose & Hperm).
  simpl. split.
  - apply Forall_forall. intros loop Hloop. split.
    + apply list_elem_of_lookup_1 in Hloop as [i Hi].
      destruct (Forall2_lookup_l _ _ _ _ _ Hclose Hi) as (c & _ & Hc).
      apply Hc.
    + intros seg Hseg.
      assert (Hin : seg ∈ concat (PathSegments <$> new) ++ closing).
      { apply elem_of_app. left. apply list_elem_of_In, in_concat.
        exists (PathSegments loop). split; apply list_elem_of_In; [| exact Hseg].
        apply list_elem_of_fmap. eauto. }
      rewrite Hperm in Hin. apply list_elem_of_In, in_flat_map in Hin as (f & Hf & Hin).
      apply in_flat_map in Hin as (e & He & Hin).
      destruct (bool_decide (Edge._type e = Wavefront)) eqn:Ht; [| destruct Hin].
      apply bool_decide_eq_true in Ht. destruct Hin as [<- | []].
      exists f. split; [apply list_elem_of_In, Hf |].
      destruct e as [h t ty]. simpl in *. subst ty. apply list_elem_of_In, He.
  - intros Hno.
    match type of Hperm with _ ≡ₚ ?l => assert (Hsoup : l = []) end.
    { clear -Hno. induction Hno as [| f fs Hf Hfs IH]; [reflexivity |].
      cbn [flat_map]. rewrite IH, app_nil_r.
      clear -Hf. induction Hf as [| e es He Hes IH]; [reflexivity |].
      cbn [flat_map]. rewrite IH, bool_decide_eq_false_2 by exact He. reflexivity. }
    rewrite Hsoup in Hperm. apply Permutation_nil_r in Hperm.
    apply app_eq_nil in Hperm as [_ ->]. apply Forall2_nil_inv_r in Hclose. exact Hclose.
Qed.
End WavefrontLoops.

(** ** The theorems at concrete inputs ([double]) *)

Section AtDouble.
Local Existing Instance Double.scalar.

Lemma CalculateCollapseTime_cases_witness :
  @CalculateCollapseTime Double.scalar Double.SquareVertex1 Double.SquareVertex0
  = 0.5%float
  /\ Graph._vertices Double.LShapeGraph !! 2%nat = Some Double.LShapeVertex2
  /\ Graph._vertices Double.LShapeGraph !! 4%nat = Some Double.LShapeVertex4
  /\ @CalculateCollapseTime Double.scalar Double.LShapeVertex2 Double.LShapeVertex4
     = Double.max.
Proof.
  split; [| split; [reflexivity | split; [reflexivity |]]].
  - pose proof (@CalculateCollapseTime_cases Double.scalar Double.SquareVertex1
                  Double.SquareVertex0) as (_ & _ & H).
    rewrite H; reflexivity.
  - pose proof (@CalculateCollapseTime_cases Double.scalar Double.LShapeVertex2
                  Double.LShapeVertex4) as (_ & H & _).
    apply H; reflexivity.
Defined.

Lemma reflex_vertices_get_motorcycles_witness :
  BuildGraphFromVertexLoop DebugBuild Double.LShape = Returns Double.LShapeGraph
  /\ length (Graph._motorcycleSegments Double.LShapeGraph) = 1%nat
  /\ Graph._vertices Double.LShapeGraph !! 6%nat
     = Some (AnchorVertex (Vec2 1 1)%float 3).
Proof.
  split; [vm_compute; reflexivity |].
  destruct (reflex_vertices_get_motorcycles (S := Double.scalar) DebugBuild Double.LShape
              Double.LShapeGraph)
    as (_ & Hlen & Hk & _); [vm_compute; reflexivity |].
  split; [exact Hlen |].
  destruct (Hk 0%nat 3%N) as (p & Hp & Ha & _); [vm_compute; reflexivity |].
  vm_compute in Hp. injection Hp as <-. exact Ha.
Defined.

Lemma SFltb_asym (x y : SpecFloat.spec_float) :
  SpecFloat.SFltb x y = true -> SpecFloat.SFltb y x = false.
Proof.
  unfold SpecFloat.SFltb, SpecFloat.SFcompare.
  destruct x as [[|] | [|] | | [|] m1 e1], y as [[|] | [|] | | [|] m2 e2];
    try discriminate; try reflexivity;
    rewrite (Z.compare_antisym e1 e2);
    change (PosDef.Pos.compare_cont Eq m1 m2) with (Pos.compare m1 m2);
    change (PosDef.Pos.compare_cont Eq m2 m1) with (Pos.compare m2 m1);
    rewrite (Pos.compare_antisym m1 m2);
    destruct (e1 ?= e2)%Z; cbn [CompOpp]; try discriminate; try reflexivity;
    destruct (m1 ?= m2)%positive; cbn [CompOpp]; try discriminate; reflexivity.
Qed.

(** In binary64 the sentinel plus epsilon is the sentinel, and nothing
    below the sentinel exceeds it. *)
Lemma Double_SentinelIsLargest : SentinelIsLargest (S := Double.scalar).
Proof.
  intros c. change (PrimFloat.ltb c Double.max = true -> PrimFloat.ltb Double.max c = false).
  rewrite !FloatAxioms.ltb_spec. apply SFltb_asym.
Qed.

Lemma event_times_never_decrease_witness :
  NDEBUG DebugBuild = false
  /\ Iteration DebugBuild Double.max Double.LShapeSim0 = Returns (Some Double.LShapeSim1)
  /\ lastEventTime Double.LShapeSim0 = 0%float
  /\ lastEventTime Double.LShapeSim1 = 0.5%float
  /\ (lastEventTime Double.LShapeSim1 >=? lastEventTime Double.LShapeSim0)%P = true.
Proof.
  split; [reflexivity |]. split; [vm_compute; reflexivity |].
  split; [reflexivity |]. split; [reflexivity |].
  destruct (event_times_never_decrease (S := Double.scalar) DebugBuild Double.max
              Double.LShapeSim0 eq_refl Double_SentinelIsLargest) as (_ & _ & H).
  apply H. vm_compute. reflexivity.
Defined.

(** C1.  The times of the events go backward on the dart
    [(0,0); (2,1); (1,1); (1,2)], a counter-clockwise simple polygon.  The
    first turn of the event loop processes the crash of the motorcycle and
    leaves its time as [lastEventTime]; in the second turn the collapse
    times of the two edges that are left are less than that time.  In a
    build with assertions the assertion of line 487,
    [collapseTime >= lastEventTime], fails, and no skeleton is returned.
    Without assertions the two collapses are processed, at the lesser
    time: [lastEventTime] decreases. *)
Theorem event_time_goes_backward :
  CalculateStraightSkeleton DebugBuild 100 Double.Dart Double.max = AssertionFailed 487
  /\ Iteration DebugBuild Double.max Double.DartSim0 = Returns (Some Double.DartSim1)
  /\ Iteration DebugBuild Double.max Double.DartSim1 = AssertionFailed 487
  /\ BuildGraphFromVertexLoop ReleaseBuild Double.Dart = Returns Double.DartGraph
  /\ Iteration ReleaseBuild Double.max Double.DartSim0 = Returns (Some Double.DartSim1)
  /\ lastEvent Double.DartSim1 = 1
  /\ FindCollapses ReleaseBuild (graph_ Double.DartSim1) (lastEventTime Double.DartSim1)
     = Returns ([(lastEventTime Double.DartSim2, 0%nat); (lastEventTime Double.DartSim2, 1%nat)],
                lastEventTime Double.DartSim2)
  /\ Iteration ReleaseBuild Double.max Double.DartSim1 = Returns (Some Double.DartSim2)
  /\ lastEvent Double.DartSim2 = 2
  /\ lastEventTime Double.DartSim1 = 0x1.3c6ef372fe950p-2%float
  /\ lastEventTime Double.DartSim2 = 0x1.3c6ef372fe94fp-2%float
  /\ (lastEventTime Double.DartSim2 <? lastEventTime Double.DartSim1)%P = true.
Proof. repeat apply conj; vm_compute; reflexivity. Qed.


Lemma crashes_take_priority_witness :
  FindCrashes DebugBuild Double.LShapeGraph 0%float 0.5%float
  = Returns ([(CrashEvent.mk 0.5%float 5, 0%nat)], 0.5%float)
  /\ Iteration DebugBuild 0.25%float Double.LShapeSim0 = Returns None
  /\ Iteration DebugBuild Double.max Double.LShapeSim0 = Returns (Some Double.LShapeSim1)
  /\ lastEvent Double.LShapeSim1 = 1
  /\ length (Graph._motorcycleSegments (graph_ Double.LShapeSim0)) = 1%nat
  /\ Graph._motorcycleSegments (graph_ Double.LShapeSim1) = [].
Proof.
  split; [vm_compute; reflexivity |].
  destruct (crashes_take_priority (S := Double.scalar) DebugBuild 0.25%float
              Double.LShapeSim0 [(0.5%float, 1%nat); (0.5%float, 4%nat)] 0.5%float
              [(CrashEvent.mk 0.5%float 5, 0%nat)] 0.5%float)
    as (_ & Hbreak & _);
    [vm_compute; reflexivity | vm_compute; reflexivity | discriminate |].
  split; [apply Hbreak; vm_compute; reflexivity |].
  destruct (crashes_take_priority (S := Double.scalar) DebugBuild Double.max
              Double.LShapeSim0 [(0.5%float, 1%nat); (0.5%float, 4%nat)] 0.5%float
              [(CrashEvent.mk 0.5%float 5, 0%nat)] 0.5%float)
    as (_ & _ & Hturn);
    [vm_compute; reflexivity | vm_compute; reflexivity | discriminate |].
  destruct Hturn as (_ & _ & _ & H); [vm_compute; reflexivity |].
  destruct (H (Some Double.LShapeSim1)) as (s' & crash & m & Hs & _ & _ & Hev & _ & Hm & _);
    [vm_compute; reflexivity |].
  injection Hs as <-.
  split; [vm_compute; reflexivity |]. split; [exact Hev |].
  split; [reflexivity |]. vm_compute. reflexivity.
Defined.

(** What the amended C4 leaves out.  On the big dart the one crash is a
    candidate, and it is not within epsilon of itself: at its time the
    time plus epsilon is the time, and the comparison of lines 543-547 is
    strict.  The tied set is empty; the assertion of line 552 fails, and
    without it the front of an empty vector is read. *)
Lemma tied_set_can_be_empty :
  BuildGraphFromVertexLoop DebugBuild Double.BigDart = Returns Double.BigDartGraph
  /\ FindCollapses DebugBuild Double.BigDartGraph 0%float
     = Returns ([], Double.BigDartCollapseTime)
  /\ FindCrashes DebugBuild Double.BigDartGraph 0%float Double.BigDartCollapseTime
     = Returns ([(Double.BigDartCrash, 0%nat)], CrashEvent._time Double.BigDartCrash)
  /\ (CrashEvent._time Double.BigDartCrash <? Double.BigDartCollapseTime + GetEpsilon)%P
     = true
  /\ (CrashEvent._time Double.BigDartCrash + GetEpsilon)%P
     = CrashEvent._time Double.BigDartCrash
  /\ TiedCrashes [(Double.BigDartCrash, 0%nat)] (CrashEvent._time Double.BigDartCrash) = []
  /\ Iteration DebugBuild Double.max (InitialSim Double.BigDartGraph) = AssertionFailed 552
  /\ Iteration ReleaseBuild Double.max (InitialSim Double.BigDartGraph) = UndefinedBehaviour.
Proof.
  repeat apply conj; vm_compute; reflexivity.
Qed.

(** The L-shape with the time limit 0.25: the crash of its motorcycle, at
    0.5, is a candidate earlier than [bestCollapseTime] plus epsilon, and the
    turn ends the loop: no crash is processed. *)
Lemma crash_beyond_the_time_limit :
  FindCollapses DebugBuild Double.LShapeGraph 0%float
  = Returns ([(0.5%float, 1%nat); (0.5%float, 4%nat)], 0.5%float)
  /\ FindCrashes DebugBuild Double.LShapeGraph 0%float 0.5%float
     = Returns ([(CrashEvent.mk 0.5%float 5, 0%nat)], 0.5%float)
  /\ Iteration DebugBuild 0.25%float Double.LShapeSim0 = Returns None.
Proof. repeat apply conj; vm_compute; reflexivity. Qed.

Lemma frozen_vertices_stay_witness :
  Iteration DebugBuild Double.max Double.LShapeSim1 = Returns (Some Double.LShapeSim2)
  /\ Graph._vertices (graph_ Double.LShapeSim1) !! 3%nat = Some Double.LShapeFrozenVertex
  /\ Graph._vertices (graph_ Double.LShapeSim2) !! 3%nat = Some Double.LShapeFrozenVertex.
Proof.
  split; [vm_compute; reflexivity |]. split; [vm_compute; reflexivity |].
  destruct (frozen_vertices_stay (S := Double.scalar) DebugBuild Double.max
              Double.LShapeSim1 Double.LShapeSim2) as (_ & _ & H).
  - vm_compute. reflexivity.
  - vm_compute. reflexivity.
  - intros bestCollapse bestCollapseTime Hfind. vm_compute in Hfind.
    injection Hfind as _ <-. vm_compute. reflexivity.
  - vm_compute. reflexivity.
  - apply (H 3%nat Double.LShapeFrozenVertex); vm_compute; reflexivity.
Defined.

Lemma zero_inset_wavefront_witness :
  NDEBUG DebugBuild = false
  /\ NoEventAtTimeZero DebugBuild Double.LShape = true
  /\ (CalculateStraightSkeleton DebugBuild 100 Double.LShape 0%float = AssertionFailed 255
      \/ CalculateStraightSkeleton DebugBuild 100 Double.LShape 0%float
         = AssertionFailed 285).
Proof.
  split; [reflexivity |]. split; [vm_compute; reflexivity |].
  apply (zero_inset_wavefront DebugBuild 99 Double.LShape); [reflexivity |].
  vm_compute. reflexivity.
Defined.

Lemma loop_reconstruction_witness :
  (exists line, AsVertexLoopsOrdered DebugBuild [(0, 1); (1, 2)] = AssertionFailed line)
  /\ exists loops,
       AsVertexLoopsOrdered DebugBuild [(0, 1); (1, 2); (2, 0); (5, 6); (6, 5)]
       = Returns loops
       /\ concat (LoopSegments <$> loops) ≡ₚ [(0, 1); (1, 2); (2, 0); (5, 6); (6, 5)]
       /\ Forall (fun w => NoDup w /\ (2 <= length w)%nat) loops.
Proof.
  split.
  - apply (loop_reconstruction DebugBuild [(0, 1); (1, 2)]); [reflexivity |].
    exists (1, 2). split; apply (bool_decide_unpack _); vm_compute; exact I.
  - apply (loop_reconstruction DebugBuild [(0, 1); (1, 2); (2, 0); (5, 6); (6, 5)]).
    repeat apply conj; apply (bool_decide_unpack _); vm_compute; exact I.
Defined.

Lemma no_degenerate_edges_witness :
  CalculateStraightSkeleton DebugBuild 100 Double.LShape Double.max
  = Returns Double.LShapeSkeleton
  /\ length (AllEdges Double.LShapeSkeleton) = 18%nat
  /\ Forall (fun e => Edge._head e <> Edge._tail e) (AllEdges Double.LShapeSkeleton).
Proof.
  split; [vm_compute; reflexivity |]. split; [vm_compute; reflexivity |].
  apply (no_degenerate_edges (S := Double.scalar) DebugBuild 100 Double.LShape Double.max).
  vm_compute. reflexivity.
Defined.

Lemma edge_lists_hold_a_pair_once_witness :
  CalculateStraightSkeleton DebugBuild 100 Double.UnitSquare Double.max
  = Returns Double.UnitSquareSkeleton
  /\ EdgeLists (fun dst => NoDup (EdgeKey <$> dst)) Double.UnitSquareSkeleton.
Proof.
  split; [vm_compute; reflexivity |].
  apply (edge_lists_hold_a_pair_once (S := Double.scalar) DebugBuild)
    with (fuel := 100%nat) (vertices := Double.UnitSquare) (maxInset := Double.max).
  vm_compute. reflexivity.
Defined.

(** *** The further properties at concrete inputs *)

Local Open Scope N_scope.

Lemma builder_follows_the_loop_witness :
  BuildGraphFromVertexLoop DebugBuild Double.LShape = Returns Double.LShapeGraph
  /\ Graph._boundaryPoints Double.LShapeGraph = Double.LShape
  /\ Graph._wavefrontEdges Double.LShapeGraph = LoopEdge 6 <$> indices 6.
Proof.
  split; [vm_compute; reflexivity |].
  destruct (builder_follows_the_loop (S := Double.scalar) DebugBuild Double.LShape
              Double.LShapeGraph) as (Hb & He & _); [vm_compute; reflexivity |].
  split; [exact Hb | exact He].
Defined.

Lemma builder_needs_two_vertices_witness :
  BuildGraphFromVertexLoop DebugBuild [Vec2 0 0]%float = AssertionFailed 158
  /\ CalculateStraightSkeleton ReleaseBuild 1 [] Double.max
     = Returns (StraightSkeleton.mk [] [] []).
Proof.
  split.
  - apply (builder_needs_two_vertices (S := Double.scalar) DebugBuild [Vec2 0 0]%float);
      [reflexivity | simpl; lia].
  - apply (builder_needs_two_vertices (S := Double.scalar) ReleaseBuild []). reflexivity.
Defined.

Lemma FindInAndOut_picks_witness :
  FindInAndOut DebugBuild (Graph._wavefrontEdges Double.LShapeGraph) 3
  = Returns (Some 2%nat, Some 3%nat)
  /\ Picked DebugBuild (fun s => (Segment._head s =? 3)%N)
       (Graph._wavefrontEdges Double.LShapeGraph) (Some 2%nat).
Proof.
  split; [vm_compute; reflexivity |].
  apply (FindInAndOut_picks DebugBuild (Graph._wavefrontEdges Double.LShapeGraph) 3
           (Some 2%nat) (Some 3%nat)).
  vm_compute. reflexivity.
Defined.

Lemma AddSteinerVertex_finds_or_appends_witness :
  AddSteinerVertex DebugBuild Double.EmptySkeleton (Vec3 1 2 3)%float
  = Returns (0, StraightSkeleton.mk [Vec3 1 2 3]%float [] [])
  /\ AddSteinerVertex DebugBuild (StraightSkeleton.mk [Vec3 1 2 3]%float [] [])
       (Vec3 1 2 3)%float
     = Returns (0, StraightSkeleton.mk [Vec3 1 2 3]%float [] []).
Proof.
  split; [vm_compute; reflexivity |].
  apply (AddSteinerVertex_finds_or_appends (S := Double.scalar) DebugBuild
           Double.EmptySkeleton (Vec3 1 2 3)%float 0
           (StraightSkeleton.mk [Vec3 1 2 3]%float [] []));
    [vm_compute; reflexivity | vm_compute; discriminate | vm_compute; reflexivity].
Defined.

Lemma one_face_per_input_vertex_witness :
  CalculateStraightSkeleton DebugBuild 100 Double.LShape Double.max
  = Returns Double.LShapeSkeleton
  /\ length (StraightSkeleton._faces Double.LShapeSkeleton) = 6%nat.
Proof.
  split; [vm_compute; reflexivity |].
  apply (one_face_per_input_vertex (S := Double.scalar) DebugBuild 100 Double.LShape
           Double.max).
  vm_compute. reflexivity.
Defined.

Lemma edges_are_stored_in_both_directions_witness :
  CalculateStraightSkeleton DebugBuild 100 Double.UnitSquare Double.max
  = Returns Double.UnitSquareSkeleton
  /\ HalfEdgePairs Double.UnitSquareSkeleton.
Proof.
  split; [vm_compute; reflexivity |].
  apply (edges_are_stored_in_both_directions (S := Double.scalar) DebugBuild 100
           Double.UnitSquare Double.max).
  vm_compute. reflexivity.
Defined.

Lemma steiner_vertices_pass_the_assertions_witness :
  StraightSkeleton._steinerVertices Double.LShapeSkeleton
  = [Vec3 0.5 0.5 0.5; Vec3 0.5 1.5 0.5; Vec3 1.5 0.5 0.5]%float
  /\ Forall (fun v => PassesSteinerAssertions v = true)
       (StraightSkeleton._steinerVertices Double.LShapeSkeleton).
Proof.
  split; [vm_compute; reflexivity |].
  apply (steiner_vertices_pass_the_assertions (S := Double.scalar) DebugBuild 100
           Double.LShape Double.max); [reflexivity | vm_compute; reflexivity].
Defined.

Lemma CalculateCrashTime_names_an_edge_witness :
  CalculateCrashTime DebugBuild Double.LShapeGraph Double.LShapeReflexVertex
  = Returns (CrashEvent.mk 0.5%float 5)
  /\ (CrashEvent.mk 0.5%float 5 = CrashEvent.mk Double.max not0u
      \/ exists i e head tail,
           Graph._wavefrontEdges Double.LShapeGraph !! i = Some e
           /\ CrashEvent._edgeSegment (CrashEvent.mk 0.5%float 5) = u32 (N.of_nat i)
           /\ Graph._vertices Double.LShapeGraph !! N.to_nat (Segment._head e) = Some head
           /\ Graph._vertices Double.LShapeGraph !! N.to_nat (Segment._tail e) = Some tail
           /\ (CrashEvent._time (CrashEvent.mk 0.5%float 5)
                 <=? std_max (Vertex._initialTime head) (Vertex._initialTime tail))%P
              = false).
Proof.
  split; [vm_compute; reflexivity |].
  apply (CalculateCrashTime_names_an_edge (S := Double.scalar) DebugBuild
           Double.LShapeGraph Double.LShapeReflexVertex).
  vm_compute. reflexivity.
Defined.

Lemma FindCollapses_in_edge_order_witness :
  FindCollapses DebugBuild (graph_ Double.LShapeSim1) 0.5%float
  = Returns ([(0.5%float, 1%nat); (0.5%float, 3%nat); (0.5%float, 4%nat)], 0.5%float)
  /\ StronglySorted lt [1; 3; 4]%nat.
Proof.
  split; [vm_compute; reflexivity |].
  apply (FindCollapses_in_edge_order (S := Double.scalar) DebugBuild
           (graph_ Double.LShapeSim1) 0.5%float
           [(0.5%float, 1%nat); (0.5%float, 3%nat); (0.5%float, 4%nat)] 0.5%float).
  vm_compute. reflexivity.
Defined.

Lemma RemoveCollapsedEdges_removes_the_collapsed_witness :
  exists out removed,
    RemoveCollapsedEdges (Graph._wavefrontEdges (graph_ Double.LShapeSim1))
      [(0.5%float, 1%nat); (0.5%float, 3%nat); (0.5%float, 4%nat)] = Returns out
    /\ Forall2 (fun c seg => Graph._wavefrontEdges (graph_ Double.LShapeSim1) !! c.2
                             = Some seg)
         [(0.5%float, 1%nat); (0.5%float, 3%nat); (0.5%float, 4%nat)] removed
    /\ out ++ removed ≡ₚ Graph._wavefrontEdges (graph_ Double.LShapeSim1)
    /\ (length out + 3 = length (Graph._wavefrontEdges (graph_ Double.LShapeSim1)))%nat.
Proof.
  apply (RemoveCollapsedEdges_removes_the_collapsed (S := Double.scalar)
           (Graph._wavefrontEdges (graph_ Double.LShapeSim1))
           [(0.5%float, 1%nat); (0.5%float, 3%nat); (0.5%float, 4%nat)]).
  - discriminate.
  - repeat constructor.
  - repeat constructor.
Defined.

Lemma event_loop_ends_witness :
  (EventsLeft (graph_ Double.LShapeSim0) < 10)%nat
  /\ EventLoop DebugBuild 10 Double.max Double.LShapeSim0 <> OutOfFuel.
Proof.
  split; [vm_compute; lia |].
  apply (event_loop_ends (S := Double.scalar) DebugBuild 10 Double.max Double.LShapeSim0).
  vm_compute. lia.
Defined.

Lemma segments_refer_to_vertices_witness :
  BuildGraphFromVertexLoop DebugBuild Double.LShape = Returns Double.LShapeGraph
  /\ RefersToVertices Double.LShapeGraph.
Proof.
  split; [vm_compute; reflexivity |].
  apply (proj1 (segments_refer_to_vertices (S := Double.scalar) DebugBuild) Double.LShape).
  vm_compute. reflexivity.
Defined.

Lemma loops_use_every_segment_once_witness :
  AsVertexLoopsOrdered ReleaseBuild [(1, 2); (2, 1); (3, 1); (1, 3)]
  = Returns [[1; 3]; [2; 1]]
  /\ exists closing,
       Forall2 ClosesChain [[1; 3]; [2; 1]] closing
       /\ concat (PathSegments <$> [[1; 3]; [2; 1]]) ++ closing
          ≡ₚ [(1, 2); (2, 1); (3, 1); (1, 3)].
Proof.
  split; [vm_compute; reflexivity |].
  apply (loops_use_every_segment_once ReleaseBuild [(1, 2); (2, 1); (3, 1); (1, 3)]).
  vm_compute. reflexivity.
Defined.

Lemma loop_reconstruction_is_guarded_witness :
  AsVertexLoopsOrdered DebugBuild [(3, 1); (1, 2); (2, 1)] = AssertionFailed 1060
  /\ ((exists loops, AsVertexLoopsOrdered DebugBuild [(3, 1); (1, 2); (2, 1)] = Returns loops)
      \/ AsVertexLoopsOrdered DebugBuild [(3, 1); (1, 2); (2, 1)] = AssertionFailed 1060
      \/ AsVertexLoopsOrdered DebugBuild [(3, 1); (1, 2); (2, 1)] = AssertionFailed 1065
      \/ AsVertexLoopsOrdered DebugBuild [(3, 1); (1, 2); (2, 1)] = AssertionFailed 1069).
Proof.
  split; [vm_compute; reflexivity |].
  apply (loop_reconstruction_is_guarded DebugBuild [(3, 1); (1, 2); (2, 1)]). reflexivity.
Defined.


Lemma every_collapse_gets_a_group_witness :
  GroupCollapses DebugBuild (Graph._wavefrontEdges (graph_ Double.LShapeSim1))
    [(0.5%float, 1%nat); (0.5%float, 3%nat); (0.5%float, 4%nat)]
  = Returns ([0; 1; 1],
             [CollapseGroupInfo.mk 2 1 not0u; CollapseGroupInfo.mk 5 5 not0u], 2)
  /\ Forall (fun g => g < 2) [0; 1; 1].
Proof.
  split; [vm_compute; reflexivity |].
  apply (every_collapse_gets_a_group (S := Double.scalar) DebugBuild
           (Graph._wavefrontEdges (graph_ Double.LShapeSim1))
           [(0.5%float, 1%nat); (0.5%float, 3%nat); (0.5%float, 4%nat)]
           [0; 1; 1] [CollapseGroupInfo.mk 2 1 not0u; CollapseGroupInfo.mk 5 5 not0u] 2);
    [vm_compute; reflexivity | vm_compute; reflexivity].
Defined.

Lemma skeleton_edges_name_vertices_witness :
  CalculateStraightSkeleton DebugBuild 100 Double.LShape Double.max
  = Returns Double.LShapeSkeleton
  /\ size (StraightSkeleton._steinerVertices Double.LShapeSkeleton) = 3
  /\ Forall (fun e => NamesVertex 6 3 (Edge._head e) /\ NamesVertex 6 3 (Edge._tail e))
       (AllEdges Double.LShapeSkeleton).
Proof.
  split; [vm_compute; reflexivity |]. split; [reflexivity |].
  apply (skeleton_edges_name_vertices (S := Double.scalar) DebugBuild 100 Double.LShape
           Double.max Double.LShapeSkeleton);
    [reflexivity | vm_compute; reflexivity | vm_compute; discriminate].
Defined.

Lemma AddEdge_again_witness :
  AddEdge DebugBuild (StraightSkeleton.mk [] [Face.mk []; Face.mk []] []) 0 1 0 1 VertexPath
  = Returns (StraightSkeleton.mk []
               [Face.mk [Edge.mk 1 0 VertexPath]; Face.mk [Edge.mk 0 1 VertexPath]] [])
  /\ AddEdge DebugBuild
       (StraightSkeleton.mk []
          [Face.mk [Edge.mk 1 0 VertexPath]; Face.mk [Edge.mk 0 1 VertexPath]] [])
       0 1 0 1 VertexPath
     = Returns (StraightSkeleton.mk []
                  [Face.mk [Edge.mk 1 0 VertexPath]; Face.mk [Edge.mk 0 1 VertexPath]] []).
Proof.
  split; [vm_compute; reflexivity |].
  apply (AddEdge_again (S := Double.scalar) DebugBuild
           (StraightSkeleton.mk [] [Face.mk []; Face.mk []] []) 0 1 0 1 VertexPath).
  vm_compute. reflexivity.
Defined.

Lemma wavefront_loops_walk_wavefront_edges_witness :
  WavefrontAsVertexLoops ReleaseBuild Double.UnitSquareAtZero = Returns [[1; 3; 2; 0]]
  /\ Forall (fun loop =>
               (2 <= length loop)%nat
               /\ forall seg, seg ∈ PathSegments loop ->
                    exists f, f ∈ StraightSkeleton._faces Double.UnitSquareAtZero
                              /\ Edge.mk seg.1 seg.2 Wavefront ∈ Face._edges f)
       [[1; 3; 2; 0]].
Proof.
  split; [vm_compute; reflexivity |].
  apply (proj1 (wavefront_loops_walk_wavefront_edges (S := Double.scalar) ReleaseBuild
                  Double.UnitSquareAtZero [[1; 3; 2; 0]] ltac:(vm_compute; reflexivity))).
Defined.

End AtDouble.
